(** * BTranspiler: folder descriptors, registration and mirrored traversal

    A shallow embedding of [src/index.ts].

    - JavaScript strings are modelled as Rocq byte strings (the UTF-8 encoding
      of the text); the operations the program performs on them ([endsWith],
      [replace] with ASCII arguments, concatenation) act identically on the
      encoding.
    - [Folder] objects live in a heap, because [addParentPath] stamps the
      objects handed in by the caller in place.
    - Synchronous methods are state transformers that return a value or a
      thrown error; the filesystem is part of the state, and every operation
      on it is appended to a trace.  The calls of [fs] and [Bun.write] walk
      their path through the tree of directories as the system does: [.]
      and [..] are followed, and a missing directory or a file on the way is
      an error of the call.
    - [async] methods are trees of synchronous steps and suspension points,
      run turn by turn by an event loop under an arbitrary schedule.
    - The recursive methods take the call depth they may use. *)

From Stdlib Require Import Ascii String.
From stdpp Require Import base option list gmap strings pretty.

(** ** JavaScript string primitives *)

Module Js.

(** [s.substring(n)]: the text after the first [n] characters. *)
Fixpoint skip (n : nat) (s : string) : string :=
  match n, s with
  | O, _ => s
  | S n', String _ s' => skip n' s'
  | S _, EmptyString => EmptyString
  end.

(** [s.startsWith(pre)] *)
Definition startsWith (s pre : string) : bool := String.prefix pre s.

(** [s.endsWith(suf)] *)
Definition endsWith (s suf : string) : bool :=
  let n := String.length s in
  let m := String.length suf in
  (m <=? n)%nat && String.eqb (skip (n - m) s) suf.

(** [s.replace(pat, rep)] for a string pattern: only the first, leftmost
    occurrence of [pat] is replaced ([rep] holds no [$] pattern in this
    program). *)
Fixpoint replace (pat rep s : string) : string :=
  if startsWith s pat then rep +:+ skip (String.length pat) s
  else match s with
       | EmptyString => EmptyString
       | String c s' => String c (replace pat rep s')
       end.

(** Truthiness of a string value: only the empty string is falsy. *)
Definition truthy (s : string) : bool := negb (String.eqb s "").

(** [x !== y] on strings *)
Definition strict_ne (x y : string) : bool := negb (String.eqb x y).

End Js.

(** ** Folder descriptors *)

Definition loc := positive.

(** The [Folder] interface: [path], [exclude] and [folders] are optional
    fields ([None] is [undefined]); [folders] holds references. *)
Record Folder := mkFolder {
  path : option string;
  name : string;
  exclude : option (list string);
  folders : option (list loc)
}.

Definition set_path (p : string) (f : Folder) : Folder :=
  mkFolder (Some p) (name f) (exclude f) (folders f).

Definition set_folders (fs : list loc) (f : Folder) : Folder :=
  mkFolder (path f) (name f) (exclude f) (Some fs).

(** [folder.path?.length !== 0 ? `${folder.path}/${folder.name}` : folder.name]
    (lines 82 and 173).  An absent path is not of length zero, and the
    template prints it as "undefined". *)
Definition base_path (folder : Folder) : string :=
  match path folder with
  | None => "undefined" +:+ "/" +:+ name folder
  | Some p =>
      if (String.length p =? 0)%nat then name folder
      else p +:+ "/" +:+ name folder
  end.

(** ** The file filter and the output name of [transformFolder] *)

(** The callback of [filter] on line 85:
    [folder.exclude?.find((x) => x !== f) && (f.endsWith('.ts') || f.endsWith('.js'))] *)
Definition keeps (folder : Folder) (f : string) : bool :=
  match exclude folder with
  | None => false
  | Some ex =>
      match List.find (fun x => Js.strict_ne x f) ex with
      | None => false
      | Some x => Js.truthy x && (Js.endsWith f ".ts" || Js.endsWith f ".js")
      end
  end.

Definition kept_files (folder : Folder) (entries : list string) : list string :=
  List.filter (keeps folder) entries.

(** [file.replace('ts', 'js')] on line 93 *)
Definition out_name (file : string) : string := Js.replace "ts" "js" file.

(** [s.includes(pat)] *)
Fixpoint includes (s pat : string) : bool :=
  Js.startsWith s pat ||
  match s with
  | EmptyString => false
  | String _ s' => includes s' pat
  end.

(** The filter in the words of the exclusion law: the suffix matches and the
    name is not listed. *)
Definition wanted (ex : list string) (f : string) : bool :=
  (Js.endsWith f ".ts" || Js.endsWith f ".js") && negb (existsb (String.eqb f) ex).

(** ** The filesystem

    The external filesystem capability: a tree of directories whose entries
    keep their listing order.  Symbolic links and special files are outside
    the model.  A path string is cut into its components, empty components
    (a doubled or trailing slash) being skipped, and a system call walks the
    components from the root: [.] stays in the directory reached, [..] goes
    to its parent, a missing directory on the way is the error ENOENT and a
    file on the way is the error ENOTDIR. *)

#[warnings="-register-all"]
Inductive node :=
| File (content : string)
| Dir (entries : list (string * node)).

(** What [lstatSync] reports of an entry. *)
Inductive stats := StDirectory | StFile.

Definition isDirectory (s : stats) : bool :=
  match s with StDirectory => true | StFile => false end.

Definition isFile (s : stats) : bool :=
  match s with StDirectory => false | StFile => true end.

Definition stat_of (n : node) : stats :=
  match n with File _ => StFile | Dir _ => StDirectory end.

Definition is_slash (c : ascii) : bool := Ascii.eqb c "/"%char.

(** The segments of a path string between slashes, empty ones included. *)
Fixpoint segments (s : string) : list string :=
  match s with
  | EmptyString => [EmptyString]
  | String c s' =>
      if is_slash c then EmptyString :: segments s'
      else match segments s' with
           | x :: r => String c x :: r
           | [] => [String c EmptyString]
           end
  end.

Definition nonempty (s : string) : bool := negb (String.eqb s "").

Definition resolve (p : string) : list string := List.filter nonempty (segments p).

(** A name a directory entry can bear: not empty, no slash. *)
Fixpoint no_slash (s : string) : bool :=
  match s with
  | EmptyString => true
  | String c s' => negb (is_slash c) && no_slash s'
  end.

Definition entry_name (s : string) : bool := nonempty s && no_slash s.

Definition entry_names (es : list (string * node)) : bool :=
  forallb (fun e => entry_name (fst e)) es.

Fixpoint assoc (k : string) (es : list (string * node)) : option node :=
  match es with
  | [] => None
  | (k', n) :: es' => if String.eqb k k' then Some n else assoc k es'
  end.

(** Replace the entry named [k] where it stands, or append it. *)
Fixpoint entry_set (k : string) (n : node) (es : list (string * node))
  : list (string * node) :=
  match es with
  | [] => [(k, n)]
  | (k', n') :: es' =>
      if String.eqb k k' then (k', n) :: es' else (k', n') :: entry_set k n es'
  end.

Fixpoint entry_del (k : string) (es : list (string * node)) : list (string * node) :=
  match es with
  | [] => []
  | (k', n') :: es' =>
      if String.eqb k k' then es' else (k', n') :: entry_del k es'
  end.

Fixpoint fs_lookup (cs : list string) (n : node) : option node :=
  match cs with
  | [] => Some n
  | c :: cs' =>
      match n with
      | Dir es => match assoc c es with
                  | Some m => fs_lookup cs' m
                  | None => None
                  end
      | File _ => None
      end
  end.

(** Set ([Some]) or remove ([None]) the entry at a path whose parent is an
    existing directory; [None] when there is no such parent. *)
Fixpoint fs_put (cs : list string) (new : option node) (n : node) : option node :=
  match cs, n with
  | [], _ => None
  | [c], Dir es =>
      Some (Dir (match new with
                 | Some m => entry_set c m es
                 | None => entry_del c es
                 end))
  | c :: cs', Dir es =>
      match assoc c es with
      | Some m =>
          match fs_put cs' new m with
          | Some m' => Some (Dir (entry_set c m' es))
          | None => None
          end
      | None => None
      end
  | _ :: _, File _ => None
  end.

(** Where a system call arrives when it walks the components [cs] from the
    directory at [here].  Every directory holds, besides the entries of its
    listing, the entries [.] and [..]: itself and its parent (the root is its
    own parent). *)
Inductive walked :=
| Exists (q : list string)
| Absent (q : list string)
| NoEnt
| NotDir.

Definition is_dot (c : string) : bool := String.eqb c ".".

Definition is_dotdot (c : string) : bool := String.eqb c "..".

(** [Exists q]: the walk ends at the entry at [q], a path of listed names
    from the root.  [Absent q]: the directory that would hold [q] exists and
    lists no such entry.  A name that is not listed is looked for among the
    two unlisted entries. *)
Fixpoint walk (root : node) (here : list string) (cs : list string) : walked :=
  match cs with
  | [] => Exists here
  | c :: cs' =>
      match fs_lookup here root with
      | Some (Dir es) =>
          match assoc c es with
          | Some _ => walk root (here ++ [c]) cs'
          | None =>
              if is_dot c then walk root here cs'
              else if is_dotdot c then walk root (removelast here) cs'
              else match cs' with
                   | [] => Absent (here ++ [c])
                   | _ :: _ => NoEnt
                   end
          end
      | Some (File _) => NotDir
      | None => NoEnt
      end
  end.

(** [mkdir -p]: the walk of [cs] from [here] in which a directory that is
    missing is created; the place reached and the tree then. *)
Fixpoint make_dirs (root : node) (here : list string) (cs : list string)
  : option (list string * node) :=
  match cs with
  | [] => Some (here, root)
  | c :: cs' =>
      match fs_lookup here root with
      | Some (Dir es) =>
          match assoc c es with
          | Some _ => make_dirs root (here ++ [c]) cs'
          | None =>
              if is_dot c then make_dirs root here cs'
              else if is_dotdot c then make_dirs root (removelast here) cs'
              else match fs_put (here ++ [c]) (Some (Dir [])) root with
                   | Some root' => make_dirs root' (here ++ [c]) cs'
                   | None => None
                   end
          end
      | _ => None
      end
  end.

(** ** Program state and effects *)

(** Observable operations, in the order the program performs them. *)
Inductive event :=
| EvLstat (p : string)
| EvReaddir (p : string)
| EvMkdir (p : string)
| EvRmdir (p : string)
| EvUnlink (p : string)
| EvReadFile (p : string)
| EvTransform (code : string)
| EvWrite (p code : string)
| EvLog (msg : string)
| EvUnhandledRejection (msg : string).

(** The engine instance ([this.outdir], [this.folders]), the heap of [Folder]
    objects handed in by callers, the filesystem and the trace.  The nodes of
    [this.folders] are the object literals of line 56: created by the engine,
    referenced from nowhere else, never passed to [addParentPath]; they are
    held by value, their children by reference. *)
Record state := mkState {
  heap : gmap loc Folder;
  this_outdir : option string;
  this_folders : list Folder;
  fs : node;
  trace : list event
}.

(** What the program runs in: [import.meta.dir], [process.cwd()] and the
    external transpiler ([None]: it raises a syntax error). *)
Record Env := mkEnv {
  meta_dir : string;
  cwd : string;
  transformSync : string -> option string
}.

(** Outcome of a synchronous call: a value, a thrown [Error], or no outcome
    in the model ([Stuck]: the call depth granted to a recursive method is
    used up, or a reference names no object). *)
Inductive result (A : Type) :=
| Ok (a : A)
| Throw (msg : string)
| Stuck.
Arguments Ok {A} a.
Arguments Throw {A} msg.
Arguments Stuck {A}.

Definition M (A : Type) : Type := state -> result A * state.

Definition ret {A} (a : A) : M A := fun st => (Ok a, st).

Definition throw {A} (msg : string) : M A := fun st => (Throw msg, st).

Definition bindM {A B} (m : M A) (k : A -> M B) : M B :=
  fun st =>
    match m st with
    | (Ok a, st') => k a st'
    | (Throw e, st') => (Throw e, st')
    | (Stuck, st') => (Stuck, st')
    end.

Notation "'let*' x ':=' m 'in' k" := (bindM m (fun x => k))
  (at level 10, x name, m at level 100, k at level 200).
Notation "m '>>' k" := (bindM m (fun _ => k))
  (at level 100, k at level 200, right associativity).

(** [xs.forEach(f)] and [for (const x of xs)] over synchronous bodies. *)
Fixpoint forEach {A} (f : A -> M unit) (xs : list A) : M unit :=
  match xs with
  | [] => ret tt
  | x :: xs' => f x >> forEach f xs'
  end.

(** [xs.map(f)] *)
Fixpoint array_map {A B} (f : A -> M B) (xs : list A) : M (list B) :=
  match xs with
  | [] => ret []
  | x :: xs' => let* y := f x in let* ys := array_map f xs' in ret (y :: ys)
  end.

Definition emit (e : event) : M unit :=
  fun st => (Ok tt, mkState (heap st) (this_outdir st) (this_folders st) (fs st)
                            (trace st ++ [e])).

Definition set_fs (r : node) : M unit :=
  fun st => (Ok tt, mkState (heap st) (this_outdir st) (this_folders st) r (trace st)).

Definition set_heap (h : gmap loc Folder) : M unit :=
  fun st => (Ok tt, mkState h (this_outdir st) (this_folders st) (fs st) (trace st)).

Definition get {A} (f : state -> A) : M A := fun st => (Ok (f st), st).

Definition stuck {A} : M A := fun st => (Stuck, st).

(** ** Filesystem primitives of [fs] *)

Definition sq : string := String (Ascii.ascii_of_nat 39) EmptyString.

(** The message of a failed system call: the error code and its text, the
    call and the path. *)
Definition sys_error (code text call p : string) : string :=
  code +:+ ": " +:+ text +:+ ", " +:+ call +:+ " " +:+ sq +:+ p +:+ sq.

Definition enoent (call p : string) : string :=
  sys_error "ENOENT" "no such file or directory" call p.

Definition enotdir (call p : string) : string :=
  sys_error "ENOTDIR" "not a directory" call p.

(** [lstatSync(p, {throwIfNoEntry: false})]: only the error ENOENT is turned
    into [undefined]. *)
Definition lstatSync (p : string) : M (option stats) :=
  emit (EvLstat p) >>
  let* root := get fs in
  match walk root [] (resolve p) with
  | Exists q => ret (option_map stat_of (fs_lookup q root))
  | Absent _ | NoEnt => ret None
  | NotDir => throw (enotdir "lstat" p)
  end.

(** [mkdirSync(p)], not recursive *)
Definition mkdirSync (p : string) : M unit :=
  emit (EvMkdir p) >>
  let* root := get fs in
  match walk root [] (resolve p) with
  | Exists _ => throw (sys_error "EEXIST" "file already exists" "mkdir" p)
  | Absent q =>
      match fs_put q (Some (Dir [])) root with
      | Some r => set_fs r
      | None => throw (enoent "mkdir" p)
      end
  | NoEnt => throw (enoent "mkdir" p)
  | NotDir => throw (enotdir "mkdir" p)
  end.

(** [readdirSync(p)] *)
Definition readdirSync (p : string) : M (list string) :=
  emit (EvReaddir p) >>
  let* root := get fs in
  match walk root [] (resolve p) with
  | Exists q =>
      match fs_lookup q root with
      | Some (Dir es) => ret (List.map fst es)
      | _ => throw (enotdir "scandir" p)
      end
  | Absent _ | NoEnt => throw (enoent "scandir" p)
  | NotDir => throw (enotdir "scandir" p)
  end.

(** [readFileSync(p, 'utf-8')] *)
Definition readFileSync (p : string) : M string :=
  emit (EvReadFile p) >>
  let* root := get fs in
  match walk root [] (resolve p) with
  | Exists q =>
      match fs_lookup q root with
      | Some (File c) => ret c
      | _ => throw (sys_error "EISDIR" "illegal operation on a directory" "read" p)
      end
  | Absent _ | NoEnt => throw (enoent "open" p)
  | NotDir => throw (enotdir "open" p)
  end.

(** The entry at [q] is taken out of its directory. *)
Definition remove_entry (q : list string) (call p : string) : M unit :=
  let* root := get fs in
  match fs_put q None root with
  | Some r => set_fs r
  | None => throw (sys_error "EBUSY" "resource busy or locked" call p)
  end.

(** [rmdirSync(p, {recursive: true})] *)
Definition rmdirSync (p : string) : M unit :=
  emit (EvRmdir p) >>
  let* root := get fs in
  match walk root [] (resolve p) with
  | Exists q =>
      match fs_lookup q root with
      | Some (Dir _) => remove_entry q "rmdir" p
      | _ => throw (enotdir "rmdir" p)
      end
  | Absent _ | NoEnt => throw (enoent "rmdir" p)
  | NotDir => throw (enotdir "rmdir" p)
  end.

(** [unlinkSync(p)] *)
Definition unlinkSync (p : string) : M unit :=
  emit (EvUnlink p) >>
  let* root := get fs in
  match walk root [] (resolve p) with
  | Exists q =>
      match fs_lookup q root with
      | Some (File _) => remove_entry q "unlink" p
      | _ => throw (sys_error "EPERM" "operation not permitted" "unlink" p)
      end
  | Absent _ | NoEnt => throw (enoent "unlink" p)
  | NotDir => throw (enotdir "unlink" p)
  end.

(** The file at the place the walk of [cs] arrives at is created or
    overwritten; [None] when the place is a directory or cannot be reached. *)
Definition write_file (cs : list string) (code : string) (root : node) : option node :=
  match walk root [] cs with
  | Exists q =>
      match fs_lookup q root with
      | Some (File _) => fs_put q (Some (File code)) root
      | _ => None
      end
  | Absent q => fs_put q (Some (File code)) root
  | NoEnt | NotDir => None
  end.

(** [Bun.write(p, code)] as far as its effect on the filesystem goes: the
    file is created or overwritten, the directories that are missing on the
    way to it being created first, and the number of bytes is reported;
    [None] when the write is rejected. *)
Definition bun_write (p code : string) (root : node) : option (node * nat) :=
  let cs := resolve p in
  match
    match walk root [] cs with
    | NoEnt =>
        match make_dirs root [] (removelast cs) with
        | Some (_, root') => write_file cs code root'
        | None => None
        end
    | _ => write_file cs code root
    end
  with
  | Some r => Some (r, String.length code)
  | None => None
  end.

Definition console_log (msg : string) : M unit := emit (EvLog msg).

(** ** Synchronous methods of [BTranspiler] *)

Definition dq : string := String (Ascii.ascii_of_nat 34) EmptyString.

Definition quoted (s : string) : string := dq +:+ s +:+ dq.

(** [`${this.outdir}`]: an unset field prints as "undefined". *)
Definition outdir_text (st : state) : string :=
  match this_outdir st with
  | Some o => o
  | None => "undefined"
  end.

(** [setOutdir] (lines 29-33) *)
Definition setOutdir (outdir : string) : M unit :=
  fun st => (Ok tt, mkState (heap st) (Some outdir) (this_folders st) (fs st) (trace st)).

(** [checkFile] (lines 196-221); [None] is the value [false]. *)
Definition checkFile (env : Env) (file : string) (dir error : bool) (bp : string)
  : M (option stats) :=
  let* stats := lstatSync (bp +:+ "/" +:+ file) in
  match stats with
  | None =>
      throw ("Cannot find " +:+ (if dir then "folder" else "file") +:+ " "
             +:+ quoted file +:+ " in " +:+ quoted bp)
  | Some s =>
      if Js.strict_ne bp (meta_dir env) then ret (Some s)
      else if isDirectory s && negb dir && error then
        throw ("Cannot find folder " +:+ quoted file +:+ " in " +:+ quoted bp)
      else if isDirectory s && negb dir then ret None
      else if isFile s && dir && error then
        throw ("Cannot find path " +:+ quoted file +:+ " in " +:+ quoted bp)
      else if isFile s && dir then ret None
      else ret (Some s)
  end.

Definition deref (l : loc) : M Folder :=
  fun st => match heap st !! l with
            | Some o => (Ok o, st)
            | None => (Stuck, st)
            end.

Definition update (l : loc) (f : Folder -> Folder) : M unit :=
  let* h := get heap in set_heap (alter f l h).

(** [addParentPath] (lines 153-162).  The object is changed in place and
    returned, so the array built by [map] holds the references it was
    given. *)
Fixpoint addParentPath (n : nat) (p : string) (folder : loc) : M loc :=
  match n with
  | O => stuck
  | S n' =>
      let* o := deref folder in
      match folders o with
      | Some fs =>
          let* fs' := array_map (addParentPath n' (p +:+ "/" +:+ name o)) fs in
          update folder (set_folders fs')
      | None => ret tt
      end >>
      update folder (set_path p) >>
      ret folder
  end.

(** [validateFolder] (lines 169-186) *)
Fixpoint validateFolder (n : nat) (env : Env) (folder : Folder) : M bool :=
  match n with
  | O => stuck
  | S n' =>
      let* registered := get this_folders in
      match List.find (fun x => String.eqb (name x) (name folder)) registered with
      | Some _ => ret false
      | None =>
          let bp := base_path folder in
          checkFile env bp true true (meta_dir env) >>
          match exclude folder with
          | Some ex =>
              forEach (fun f => checkFile env (bp +:+ "/" +:+ f) false true (meta_dir env)
                                >> ret tt) ex
          | None => ret tt
          end >>
          match folders folder with
          | Some fs =>
              forEach (fun f => let* o := deref f in validateFolder n' env o >> ret tt) fs
          | None => ret tt
          end >>
          ret true
      end
  end.

Definition push (folder : Folder) : M unit :=
  fun st => (Ok tt, mkState (heap st) (this_outdir st) (this_folders st ++ [folder])
                            (fs st) (trace st)).

(** The object literal of lines 53 and 56. *)
Definition literal (folder : string) (exclude : option (list string))
  (sub_folders : option (list loc)) : Folder :=
  mkFolder (Some "") folder (Some (default [] exclude)) (Some (default [] sub_folders)).

(** [addFolder] (lines 47-58); it returns [this]. *)
Definition addFolder (n : nat) (env : Env) (folder : string)
  (exclude : option (list string)) (sub_folders : option (list loc)) : M unit :=
  let* sub_folders :=
    match sub_folders with
    | Some fs => let* fs' := array_map (addParentPath n folder) fs in ret (Some fs')
    | None => ret None
    end in
  let* validated := validateFolder n env (literal folder exclude sub_folders) in
  if negb validated then ret tt
  else push (literal folder exclude sub_folders).

(** [removeOutdirFiles] (lines 133-145) *)
Definition removeOutdirFiles (env : Env) : M unit :=
  let* out := get outdir_text in
  let* files := readdirSync (cwd env +:+ "/" +:+ out) in
  forEach (fun file =>
    let* stats := checkFile env file false false (cwd env +:+ "/" +:+ out) in
    match stats with
    | Some s =>
        if isDirectory s then rmdirSync (cwd env +:+ "/" +:+ out +:+ "/" +:+ file)
        else if isFile s then unlinkSync (cwd env +:+ "/" +:+ out +:+ "/" +:+ file)
        else ret tt
    | None => ret tt
    end) files.

(** [transformFile] (lines 123-128) *)
Definition transformFile (env : Env) (p : string) : M string :=
  let* code := readFileSync p in
  emit (EvTransform code) >>
  match transformSync env code with
  | Some out => ret out
  | None => throw "SyntaxError"
  end.

(** ** Asynchronous methods

    The body of an [async] function as the tree of what it does: synchronous
    statements, an awaited [Bun.write], the suspension every [await] makes,
    and the call of an [async] function whose promise is dropped. *)

Inductive async (A : Type) : Type :=
| Return (a : A)
| Raise (msg : string)
| Do {B : Type} (m : M B) (k : B -> async A)
| AwaitWrite (p code : string) (k : option nat -> async A)
| Yield (k : async A)
| Fire (c : async unit) (k : async A).
Arguments Return {A} a.
Arguments Raise {A} msg.
Arguments Do {A B} m k.
Arguments AwaitWrite {A} p code k.
Arguments Yield {A} k.
Arguments Fire {A} c k.

Fixpoint abind {A B : Type} (t : async A) (f : A -> async B) : async B :=
  match t with
  | Return a => f a
  | Raise msg => Raise msg
  | Do m k => Do m (fun b => abind (k b) f)
  | AwaitWrite p code k => AwaitWrite p code (fun r => abind (k r) f)
  | Yield k => Yield (abind k f)
  | Fire c k => Fire c (abind k f)
  end.

(** [await c]: the callee runs up to its own first suspension inside the
    caller's turn; the caller goes on in a later turn, after the callee has
    settled. *)
Definition Await {A : Type} (c : async A) : async A := abind c (fun a => Yield (Return a)).

(** [for (const x of xs) { body }] with awaits in the body *)
Fixpoint for_of {A} (xs : list A) (body : A -> async unit) : async unit :=
  match xs with
  | [] => Return tt
  | x :: xs' => abind (body x) (fun _ => for_of xs' body)
  end.

(** [xs.forEach((x) => f(x))] with an [async] callee: [forEach] drops the
    promise each call returns. *)
Fixpoint forEach_async {A} (xs : list A) (f : A -> async unit) : async unit :=
  match xs with
  | [] => Return tt
  | x :: xs' => Fire (f x) (forEach_async xs' f)
  end.

(** [addTransformedFile] (lines 109-116) *)
Definition addTransformedFile (p code : string) : async nat :=
  AwaitWrite p code (fun r =>
    match r with
    | Some bytes => Return bytes
    | None => Raise ("Couldn't write to " +:+ quoted p)
    end).

(** [transformFolder] (lines 80-101).  A child is read from the heap when
    [forEach] calls the method on it; no method changes a descriptor while a
    traversal is under way. *)
Fixpoint transformFolder (n : nat) (env : Env) (folder : Folder) : async unit :=
  match n with
  | O => Do stuck (fun _ : unit => Return tt)
  | S n' =>
      let bp := base_path folder in
      Do (readdirSync (meta_dir env +:+ "/" +:+ bp)) (fun entries =>
      let files := kept_files folder entries in
      Do (let* out := get outdir_text in
          mkdirSync (cwd env +:+ "/" +:+ out +:+ "/" +:+ bp)) (fun _ =>
      abind (for_of files (fun file =>
        Do (transformFile env (meta_dir env +:+ "/" +:+ bp +:+ "/" +:+ file)) (fun code =>
        Do (get outdir_text) (fun out =>
        let out_path :=
          cwd env +:+ "/" +:+ out +:+ "/" +:+ bp +:+ "/" +:+ out_name file in
        abind (Await (addTransformedFile out_path code)) (fun bytes =>
        Do (console_log ("wrote file: " +:+ quoted out_path +:+ " ("
                         +:+ pretty bytes +:+ " bytes)")) (fun _ =>
        Return tt)))))) (fun _ =>
      match folders folder with
      | Some fs => forEach_async fs (fun f => Do (deref f) (transformFolder n' env))
      | None => Return tt
      end)))
  end.

(** [transform] (lines 63-78); the loop runs over the folders registered when
    it starts. *)
Definition transform (n : nat) (env : Env) : async unit :=
  Do (let* out := get outdir_text in lstatSync (cwd env +:+ "/" +:+ out))
     (fun bundle_folder =>
  Do (let* out := get outdir_text in
      match bundle_folder with
      | None => mkdirSync (cwd env +:+ "/" +:+ out)
      | Some s =>
          if negb (isDirectory s) then
            throw ("The outdir file " +:+ quoted out +:+ " in " +:+ quoted (cwd env)
                   +:+ " is not an directory")
          else ret tt
      end) (fun _ =>
  Do (removeOutdirFiles env) (fun _ =>
  Do (get this_folders) (fun registered =>
  for_of registered (fun folder => Await (transformFolder n env folder)))))).

(** ** Turns and the event loop *)

Inductive status (A : Type) :=
| Finished (r : result A)
| Suspended (k : async A).
Arguments Finished {A} r.
Arguments Suspended {A} k.

Definition run_emit (e : event) (st : state) : state := snd (emit e st).

(** One turn: the task runs without interruption until it settles or
    suspends.  A fired callee runs inside the turn up to its first
    suspension; what is left of it is handed to the loop ([spawned]). *)
Fixpoint turn {A : Type} (t : async A) (st : state) (spawned : list (async unit))
  : status A * state * list (async unit) :=
  match t with
  | Return a => (Finished (Ok a), st, spawned)
  | Raise msg => (Finished (Throw msg), st, spawned)
  | Do m k =>
      match m st with
      | (Ok b, st') => turn (k b) st' spawned
      | (Throw e, st') => (Finished (Throw e), st', spawned)
      | (Stuck, st') => (Finished Stuck, st', spawned)
      end
  | AwaitWrite p code k =>
      let st1 := run_emit (EvWrite p code) st in
      match bun_write p code (fs st1) with
      | Some (r, bytes) => (Suspended (k (Some bytes)), snd (set_fs r st1), spawned)
      | None => (Suspended (k None), st1, spawned)
      end
  | Yield k => (Suspended k, st, spawned)
  | Fire c k =>
      match turn c st spawned with
      | (Finished (Ok _), st', spawned') => turn k st' spawned'
      | (Finished (Throw e), st', spawned') =>
          turn k (run_emit (EvUnhandledRejection e) st') spawned'
      | (Finished Stuck, st', spawned') => (Finished Stuck, st', spawned')
      | (Suspended kc, st', spawned') => turn k st' (spawned' ++ [kc])
      end
  end.

(** The loop holds the suspended tasks; the flag marks the task whose promise
    the caller of [transform] holds. *)
Record loop := mkLoop {
  now : state;
  pool : list (bool * async unit);
  settled : option (result unit)
}.

(** The task at index [i], the last one when [i] is past the end. *)
Fixpoint pick {T} (i : nat) (ts : list T) {struct ts} : option (T * list T) :=
  match ts with
  | [] => None
  | t :: ts' =>
      match ts' with
      | [] => Some (t, [])
      | _ :: _ =>
          match i with
          | O => Some (t, ts')
          | S i' => match pick i' ts' with
                    | Some (u, r) => Some (u, t :: r)
                    | None => None
                    end
          end
      end
  end.

Definition children (ts : list (async unit)) : list (bool * async unit) :=
  List.map (fun t => (false, t)) ts.

Definition settle (main : bool) (r : result unit) (l : loop) (st : state)
  (ts : list (bool * async unit)) : loop :=
  if main then mkLoop st ts (Some r)
  else match r with
       | Throw e => mkLoop (run_emit (EvUnhandledRejection e) st) ts (settled l)
       | _ => mkLoop st ts (settled l)
       end.

(** The loop resumes one suspended task for one turn. *)
Definition step (i : nat) (l : loop) : loop :=
  match pick i (pool l) with
  | None => l
  | Some ((main, t), rest) =>
      match turn t (now l) [] with
      | (Finished r, st, spawned) => settle main r l st (rest ++ children spawned)
      | (Suspended k, st, spawned) =>
          mkLoop st (rest ++ children spawned ++ [(main, k)]) (settled l)
      end
  end.

(** The call [engine.transform()] itself: its first turn. *)
Definition call (t : async unit) (st : state) : loop :=
  match turn t st [] with
  | (Finished r, st', spawned) => mkLoop st' (children spawned) (Some r)
  | (Suspended k, st', spawned) => mkLoop st' (children spawned ++ [(true, k)]) None
  end.

(** The loop run under a schedule: which suspended task resumes at each
    step. *)
Fixpoint run (sched : list nat) (l : loop) : loop :=
  match sched with
  | [] => l
  | i :: sched' => run sched' (step i l)
  end.

(** ** Descriptor trees in the heap *)

(** What [addParentPath] never changes of an object. *)
Definition skel (o : Folder) : string * option (list string) * option (list loc) :=
  (name o, exclude o, folders o).

Definition same_skel (h h' : gmap loc Folder) : Prop :=
  forall l, skel <$> (h !! l) = skel <$> (h' !! l).

(** The objects met from [l] down to depth [n], in the order the recursive
    methods visit them; an object met twice is listed twice. *)
Fixpoint nodes (n : nat) (h : gmap loc Folder) (l : loc) : list loc :=
  match n with
  | O => []
  | S n' =>
      match h !! l with
      | None => []
      | Some o => l :: flat_map (nodes n' h) (default [] (folders o))
      end
  end.

(** [chain h l ns d]: [d] is [l] or lies below it, and [ns] are the names on
    the way from [l] down to [d], both included. *)
Inductive chain (h : gmap loc Folder) : loc -> list string -> loc -> Prop :=
| chain_here l o :
    h !! l = Some o -> chain h l [name o] l
| chain_step l o fs c ns d :
    h !! l = Some o -> folders o = Some fs -> c ∈ fs ->
    chain h c ns d -> chain h l (name o :: ns) d.

(** The names joined by slashes. *)
Fixpoint join_path (ns : list string) : string :=
  match ns with
  | [] => ""
  | [x] => x
  | x :: ns' => x +:+ "/" +:+ join_path ns'
  end.

(** The effective path of the object at [l], as lines 82 and 173 compute it. *)
Definition effective_path (h : gmap loc Folder) (l : loc) : option string :=
  base_path <$> (h !! l).

(** Two states that differ in the heap at most. *)
Definition only_heap (st st' : state) : Prop :=
  this_outdir st' = this_outdir st /\ this_folders st' = this_folders st
  /\ fs st' = fs st /\ trace st' = trace st.

(** The call depth [n] is enough to walk the descriptor at [l]: the recursive
    methods return on it. *)
Fixpoint fits (n : nat) (h : gmap loc Folder) (l : loc) : bool :=
  match n with
  | O => false
  | S n' =>
      match h !! l with
      | None => false
      | Some o => forallb (fits n' h) (default [] (folders o))
      end
  end.

(** ** What a traversal writes *)

Definition is_write (e : event) : bool :=
  match e with EvWrite _ _ => true | _ => false end.

(** Every write in the trace is handed the transpiler's output for the text
    of the [transformSync] call that stands just before it; [prev] is the
    operation before the first of [tr]. *)
Fixpoint transformed_writes (T : string -> option string) (prev : option event)
  (tr : list event) : Prop :=
  match tr with
  | [] => True
  | e :: tr' =>
      match e with
      | EvWrite _ code =>
          match prev with
          | Some (EvTransform text) => T text = Some code
          | _ => False
          end
      | _ => True
      end /\ transformed_writes T (Some e) tr'
  end.

Definition writes_transformed (env : Env) (st : state) : Prop :=
  transformed_writes (transformSync env) None (trace st).

(** [safe I t pre post]: started in a state of [pre], the task [t] keeps [I]
    at each point where it suspends or fails and over the tasks it fires, and
    returns in a state of [post]; tasks resume in any state of [I]. *)
Fixpoint safe {A : Type} (I : state -> Prop) (t : async A) (pre : state -> Prop)
  (post : A -> state -> Prop) : Prop :=
  match t with
  | Return a => forall st, pre st -> post a st
  | Raise _ => forall st, pre st -> I st
  | Do m k =>
      (forall st r st', pre st -> m st = (r, st') -> (forall b, r <> Ok b) -> I st')
      /\ forall b, safe I (k b) (fun st' => exists st, pre st /\ m st = (Ok b, st')) post
  | AwaitWrite p code k =>
      (forall st, pre st -> I (run_emit (EvWrite p code) st))
      /\ forall r, safe I (k r) I post
  | Yield k => (forall st, pre st -> I st) /\ safe I k I post
  | Fire c k => safe I c pre (fun _ => I) /\ safe I k I post
  end.

(** A synchronous action that issues no write. *)
Definition quiet {A : Type} (m : M A) : Prop :=
  forall st r st', m st = (r, st') ->
    exists evs, trace st' = trace st ++ evs /\ Forall (fun e => is_write e = false) evs.

(** ** Vocabulary of the statements *)

(** [this.folders.find((x) => x.name === nm)] *)
Definition registered (nm : string) (st : state) : option Folder :=
  List.find (fun x => String.eqb (name x) nm) (this_folders st).

(** Lines 49-51 of [addFolder]: the sub-folders handed in are stamped. *)
Definition stamp_all (n : nat) (nm : string) (subs : option (list loc))
  : M (option (list loc)) :=
  match subs with
  | Some fs => let* fs' := array_map (addParentPath n nm) fs in ret (Some fs')
  | None => ret None
  end.

(** What stamping the descriptors [cs] does to the state, whatever its
    outcome: the heap alone changes, no object changes its name, exclusions
    or children, and objects that are not met from [cs] keep their value. *)
Definition stamped (n : nat) (cs : list loc) (st st' : state) : Prop :=
  only_heap st st' /\ same_skel (heap st) (heap st')
  /\ forall l', l' ∉ flat_map (nodes n (heap st)) cs -> heap st' !! l' = heap st !! l'.

(** Two runs of the same stamping from heaps of one skeleton: at every
    location the results agree, or neither run has written there. *)
Definition agree (h1 h2 h1' h2' : gmap loc Folder) : Prop :=
  forall l, h1' !! l = h2' !! l \/ (h1' !! l = h1 !! l /\ h2' !! l = h2 !! l).

(** Two states that differ at most by operations appended to the trace. *)
Definition only_trace (st st' : state) : Prop :=
  heap st' = heap st /\ this_outdir st' = this_outdir st
  /\ this_folders st' = this_folders st /\ fs st' = fs st
  /\ exists evs, trace st' = trace st ++ evs.

(** The state with operations appended to its trace. *)
Definition logged (evs : list event) (st : state) : state :=
  mkState (heap st) (this_outdir st) (this_folders st) (fs st) (trace st ++ evs).

(** What a system call finds at the path [p]: an entry, nothing, or a file
    on the way to it ([Blocked], the error ENOTDIR). *)
Inductive located :=
| Entry (n : node)
| Nothing
| Blocked.

Definition locate (root : node) (p : string) : located :=
  match walk root [] (resolve p) with
  | Exists q => match fs_lookup q root with Some n => Entry n | None => Nothing end
  | Absent _ | NoEnt => Nothing
  | NotDir => Blocked
  end.

Definition names_directory (root : node) (p : string) : Prop :=
  exists es, locate root p = Entry (Dir es).

Definition names_file (root : node) (p : string) : Prop :=
  exists content, locate root p = Entry (File content).

(** A name that is neither [.] nor [..]. *)
Definition dotless (c : string) : Prop := is_dot c = false /\ is_dotdot c = false.

(** Nothing stands at the path [p], the directory that would hold it exists,
    and the walk follows no [.] or [..] on the way: it arrives at the
    components of [p] as they are written. *)
Definition vacant (root : node) (p : string) : Prop :=
  walk root [] (resolve p) = Absent (resolve p).

(** The message of a system call that failed with the error [code]. *)
Definition errno (code msg : string) : Prop := Js.startsWith msg (code +:+ ":") = true.

(** The object at [c] bears a name registered at the top level. *)
Definition duplicate_named (st : state) (c : loc) : Prop :=
  exists o, heap st !! c = Some o /\ is_Some (registered (name o) st).

(** A child descriptor that validation checks and accepts: its name is not
    registered, it has no sub-folders, and [lstat] finds a directory at its
    effective path under [import.meta.dir] and a file at each of its excluded
    names. *)
Definition valid_leaf (env : Env) (st : state) (o : Folder) : Prop :=
  registered (name o) st = None /\ default [] (folders o) = []
  /\ names_directory (fs st) (meta_dir env +:+ "/" +:+ base_path o)
  /\ Forall (fun f => names_file (fs st)
                        (meta_dir env +:+ "/" +:+ base_path o +:+ "/" +:+ f))
            (default [] (exclude o)).

(** A child that bears a registered name, or one that validation accepts. *)
Definition child_ok (env : Env) (st : state) (c : loc) : Prop :=
  exists o, heap st !! c = Some o
            /\ (is_Some (registered (name o) st) \/ valid_leaf env st o).

(** The [lstat] calls of the validation of the child at [c]: its folder and
    its excluded names, and none at all when its name is registered. *)
Definition child_events (env : Env) (st : state) (c : loc) : list event :=
  match heap st !! c with
  | Some o =>
      match registered (name o) st with
      | Some _ => []
      | None =>
          EvLstat (meta_dir env +:+ "/" +:+ base_path o)
          :: List.map (fun f => EvLstat (meta_dir env +:+ "/" +:+ base_path o +:+ "/" +:+ f))
                      (default [] (exclude o))
      end
  | None => []
  end.

(** The operation before the next one, after [tr] has followed [prev]. *)
Definition last_event (prev : option event) (tr : list event) : option event :=
  match last tr with Some e => Some e | None => prev end.

(** What [transformFile] leaves when it returns [code]: the transform call is
    the last operation, and [code] is its output. *)
Definition transformed (env : Env) (code : string) (st : state) : Prop :=
  exists tr text, trace st = tr ++ [EvTransform text]
                  /\ transformSync env text = Some code
                  /\ transformed_writes (transformSync env) None tr.

(** A suspended task that may resume in any state of the invariant. *)
Definition resumable (env : Env) (k : async unit) : Prop :=
  safe (writes_transformed env) k (writes_transformed env)
       (fun _ => writes_transformed env).

Definition loop_ok (env : Env) (l : loop) : Prop :=
  writes_transformed env (now l) /\ Forall (fun t => resumable env (snd t)) (pool l).

(** The callback of the loop of [removeOutdirFiles] (lines 137-144) when the
    output root is dist. *)
Definition wipe_body (env : Env) (file : string) : M unit :=
  let* stats := checkFile env file false false (cwd env +:+ "/" +:+ "dist") in
  match stats with
  | Some s =>
      if isDirectory s then rmdirSync (cwd env +:+ "/" +:+ "dist" +:+ "/" +:+ file)
      else if isFile s then unlinkSync (cwd env +:+ "/" +:+ "dist" +:+ "/" +:+ file)
      else ret tt
  | None => ret tt
  end.

(** The operations of [removeOutdirFiles] on the entries [es] of /work/dist. *)
Definition wipe_events (es : list (string * node)) : list event :=
  flat_map (fun e =>
    [EvLstat ("/work/dist/" +:+ fst e);
     match snd e with
     | Dir _ => EvRmdir ("/work/dist/" +:+ fst e)
     | File _ => EvUnlink ("/work/dist/" +:+ fst e)
     end]) es.

(** The loop of [transform] (lines 74-77), what is left of the method once
    the output directory is ready. *)
Definition transform_loop (n : nat) (env : Env) : async unit :=
  Do (get this_folders) (fun registered =>
  for_of registered (fun folder => Await (transformFolder n env folder))).

(** ** Vocabulary of the further properties *)

(** [f.endsWith('.ts') || f.endsWith('.js')] (line 85) *)
Definition has_source_suffix (f : string) : bool :=
  Js.endsWith f ".ts" || Js.endsWith f ".js".

Definition is_lstat (e : event) : bool :=
  match e with EvLstat _ => true | _ => false end.

(** A synchronous action that, run with the output root [o], leaves the
    engine as it is - heap, output root, registered folders - and performs
    operations of [ok] only. *)
Definition acts {A : Type} (o : option string) (ok : event -> Prop) (m : M A) : Prop :=
  forall st r st', this_outdir st = o -> m st = (r, st') ->
    heap st' = heap st /\ this_outdir st' = o /\ this_folders st' = this_folders st
    /\ exists evs, trace st' = trace st ++ evs /\ Forall ok evs.

(** The nodes of [this.folders] are the literals of line 56, and no two
    bear the same name. *)
Definition registry_ok (st : state) : Prop :=
  NoDup (name <$> this_folders st)
  /\ Forall (fun x => path x = Some "" /\ is_Some (exclude x) /\ is_Some (folders x))
            (this_folders st).

(** The message of [checkFile] for an entry of the wrong kind. *)
Definition kind_message (dir : bool) (file bp : string) : string :=
  "Cannot find " +:+ (if dir then "path" else "folder") +:+ " "
  +:+ quoted file +:+ " in " +:+ quoted bp.

Definition missing_message (dir : bool) (file bp : string) : string :=
  "Cannot find " +:+ (if dir then "folder" else "file") +:+ " "
  +:+ quoted file +:+ " in " +:+ quoted bp.

(** The error thrown by the check of a file or of a folder under
    [import.meta.dir], after what stands at its path. *)
Definition check_error (env : Env) (dir : bool) (file : string) (l : located) : string :=
  match l with
  | Entry _ => kind_message dir file (meta_dir env)
  | Nothing => missing_message dir file (meta_dir env)
  | Blocked => enotdir "lstat" (meta_dir env +:+ "/" +:+ file)
  end.

Definition exclusion_events (env : Env) (nm : string) (ex : list string) : list event :=
  List.map (fun f => EvLstat (meta_dir env +:+ "/" +:+ nm +:+ "/" +:+ f)) ex.

(** The operations of [removeOutdirFiles] on the entries [es] of the
    directory [dir]: each one is looked at, then removed. *)
Definition removal_events (dir : string) (es : list (string * node)) : list event :=
  flat_map (fun e =>
    [EvLstat (dir +:+ "/" +:+ fst e);
     match snd e with
     | Dir _ => EvRmdir (dir +:+ "/" +:+ fst e)
     | File _ => EvUnlink (dir +:+ "/" +:+ fst e)
     end]) es.

(** [`${process.cwd()}/${this.outdir}`] *)
Definition outdir_path (env : Env) (st : state) : string :=
  cwd env +:+ "/" +:+ outdir_text st.

(** The body of the loop of [removeOutdirFiles] (lines 138-143) for the
    output root [out]. *)
Definition remove_one (env : Env) (out file : string) : M unit :=
  let* stats := checkFile env file false false (cwd env +:+ "/" +:+ out) in
  match stats with
  | Some s =>
      if isDirectory s then rmdirSync (cwd env +:+ "/" +:+ out +:+ "/" +:+ file)
      else if isFile s then unlinkSync (cwd env +:+ "/" +:+ out +:+ "/" +:+ file)
      else ret tt
  | None => ret tt
  end.

(** The message of line 69. *)
Definition not_a_directory_message (env : Env) (st : state) : string :=
  "The outdir file " +:+ quoted (outdir_text st) +:+ " in " +:+ quoted (cwd env)
  +:+ " is not an directory".

(** [`${this.outdir}`] for the value [o] of the field. *)
Definition text_of (o : option string) : string := default "undefined" o.

(** The path [p] is the path [root], or [root] followed by a slash and more.
    This is a property of the text of the path: components [..] after the
    slash lead out of the directory again. *)
Definition within (root p : string) : Prop :=
  p = root \/ exists rest, p = root +:+ "/" +:+ rest.

(** A suspended task that may resume in any state of the invariant [I]. *)
Definition resumes (I : state -> Prop) (k : async unit) : Prop :=
  safe I k I (fun _ => I).

Definition loop_inv (I : state -> Prop) (l : loop) : Prop :=
  I (now l) /\ Forall (fun t => resumes I (snd t)) (pool l).

(** What a traversal with the output directory [root] may do: it creates,
    removes and writes at paths that start with [root] only, and reads files
    with a source suffix at paths that start with [import.meta.dir] only. *)
Definition allowed (env : Env) (root : string) (e : event) : Prop :=
  match e with
  | EvMkdir p | EvRmdir p | EvUnlink p | EvWrite p _ => within root p
  | EvReadFile q =>
      exists bp file, q = meta_dir env +:+ "/" +:+ bp +:+ "/" +:+ file
                      /\ has_source_suffix file = true
  | _ => True
  end.

(** The path [p] under [root] mirrors the path [q] under [import.meta.dir]:
    the same folder path, and the output name of the file. *)
Definition mirrored (env : Env) (root q p : string) : Prop :=
  exists bp file, q = meta_dir env +:+ "/" +:+ bp +:+ "/" +:+ file
                  /\ p = root +:+ "/" +:+ bp +:+ "/" +:+ out_name file
                  /\ has_source_suffix file = true.

(** Every write of the trace comes right after the reading of a source file
    and the transpiler call on its text: it hands the transpiler's output to
    the mirrored path. *)
Definition writes_mirror (env : Env) (root : string) (tr : list event) : Prop :=
  forall i p code, tr !! i = Some (EvWrite p code) ->
    exists q text, 2 <= i
      /\ tr !! (i - 2) = Some (EvReadFile q)
      /\ tr !! (i - 1) = Some (EvTransform text)
      /\ transformSync env text = Some code
      /\ mirrored env root q p.

(** A task that starts no task besides itself: it holds no call whose
    promise is dropped. *)
Fixpoint fireless {A : Type} (t : async A) : Prop :=
  match t with
  | Return _ => True
  | Raise _ => True
  | Do m k => forall b, fireless (k b)
  | AwaitWrite _ _ k => forall r, fireless (k r)
  | Yield k => fireless k
  | Fire _ _ => False
  end.

(** A folder registered without sub-folders. *)
Definition flat (folder : Folder) : Prop := default [] (folders folder) = [].

(** At most one task is suspended, and it starts no other. *)
Definition sequential (l : loop) : Prop :=
  pool l = [] \/ exists b k, pool l = [(b, k)] /\ fireless k.

(** A task run from start to end with nothing in between its turns: its
    outcome, the state it leaves, and the number of times it suspends. *)
Fixpoint finish {A : Type} (t : async A) (st : state) : result A * state * nat :=
  match t with
  | Return a => (Ok a, st, 0)
  | Raise msg => (Throw msg, st, 0)
  | Do m k =>
      match m st with
      | (Ok b, st') => finish (k b) st'
      | (Throw e, st') => (Throw e, st', 0)
      | (Stuck, st') => (Stuck, st', 0)
      end
  | AwaitWrite p code k =>
      let st1 := run_emit (EvWrite p code) st in
      match bun_write p code (fs st1) with
      | Some (r, bytes) =>
          let '(res, st', n) := finish (k (Some bytes)) (snd (set_fs r st1)) in (res, st', S n)
      | None => let '(res, st', n) := finish (k None) st1 in (res, st', S n)
      end
  | Yield k => let '(res, st', n) := finish k st in (res, st', S n)
  | Fire c k => finish k st
  end.

(** The task starts no other task when it is run from the state [st] with
    nothing in between its turns. *)
Fixpoint calm {A : Type} (t : async A) (st : state) : Prop :=
  match t with
  | Return _ => True
  | Raise _ => True
  | Do m k =>
      match m st with
      | (Ok b, st') => calm (k b) st'
      | _ => True
      end
  | AwaitWrite p code k =>
      let st1 := run_emit (EvWrite p code) st in
      match bun_write p code (fs st1) with
      | Some (r, bytes) => calm (k (Some bytes)) (snd (set_fs r st1))
      | None => calm (k None) st1
      end
  | Yield k => calm k st
  | Fire _ _ => False
  end.

(** A name of one path component that is neither [.] nor [..]. *)
Definition plain_name (s : string) : Prop := entry_name s = true /\ dotless s.

(** The output root can take a traversal: a directory is found at its path,
    or nothing is and the directory that would hold it exists. *)
Definition outdir_ready (env : Env) (st : state) : Prop :=
  match fs_lookup (resolve (outdir_path env st)) (fs st) with
  | Some (Dir old) => entry_names old = true
  | Some (File _) => False
  | None => vacant (fs st) (outdir_path env st)
  end.

(** Two paths that part at some component: neither lies in the other. *)
Definition apart (cs cs' : list string) : Prop :=
  exists pre a r b r', a <> b /\ cs = pre ++ a :: r /\ cs' = pre ++ b :: r'.

(** The listing of the output folder of [folder] for the source listing
    [es]: each kept file, in the order of the listing, sets the entry of its
    output name to the transpiler's output for its text, in a listing that
    starts as [acc].  There is none when a kept entry is a directory or has
    a text the transpiler rejects. *)
Fixpoint outputs (T : string -> option string) (folder : Folder)
  (es : list (string * node)) (acc : list (string * node))
  : option (list (string * node)) :=
  match es with
  | [] => Some acc
  | (f, nd) :: es' =>
      if keeps folder f then
        match nd with
        | File text =>
            match T text with
            | Some code => outputs T folder es' (entry_set (out_name f) (File code) acc)
            | None => None
            end
        | Dir _ => None
        end
      else outputs T folder es' acc
  end.

(** The body of the loop of [transformFolder] (lines 92-95). *)
Definition convert_one (env : Env) (folder : Folder) (file : string) : async unit :=
  let bp := base_path folder in
  Do (transformFile env (meta_dir env +:+ "/" +:+ bp +:+ "/" +:+ file)) (fun code =>
  Do (get outdir_text) (fun out =>
  let out_path :=
    cwd env +:+ "/" +:+ out +:+ "/" +:+ bp +:+ "/" +:+ out_name file in
  abind (Await (addTransformedFile out_path code)) (fun bytes =>
  Do (console_log ("wrote file: " +:+ quoted out_path +:+ " ("
                   +:+ pretty bytes +:+ " bytes)")) (fun _ =>
  Return tt)))).

(** ** Instances used in examples *)

(** A transpiler for examples: it wraps the text it is given. *)
Definition wrap_text (s : string) : option string := Some ("/*" +:+ s +:+ "*/").

Definition sample_env : Env := mkEnv "/src" "/work" wrap_text.

Definition sample_fs : node :=
  Dir [("src", Dir [("a", Dir [("b", Dir [("c", Dir []); ("keep.ts", File "k")])]);
                    ("b", Dir [("c", Dir [])]);
                    ("lib", Dir [("s", Dir [])])]);
       ("work", Dir [])].

(** Two caller objects: [b], which holds [c]. *)
Definition sample_heap : gmap loc Folder :=
  <[1%positive := mkFolder None "b" None (Some [2%positive])]>
    (<[2%positive := mkFolder None "c" None None]> ∅).

Definition sample_state : state := mkState sample_heap None [] sample_fs [].

(** The forest after [addFolder("a", undefined, [b])]. *)
Definition registered_a : state :=
  snd (addFolder 3 sample_env "a" None (Some [1%positive]) sample_state).

(** The forest after [addFolder("b")]. *)
Definition registered_b : state :=
  snd (addFolder 3 sample_env "b" None None sample_state).

(** Two objects named "b" and "b2" that hold the same object [c]. *)
Definition shared_heap : gmap loc Folder :=
  <[1%positive := mkFolder None "b" None (Some [2%positive])]>
    (<[3%positive := mkFolder None "b2" None (Some [2%positive])]>
       (<[2%positive := mkFolder None "c" None None]> ∅)).

(** A source root that holds a/b and a/b2/c, and no a/b/c. *)
Definition shared_fs : node :=
  Dir [("src", Dir [("a", Dir [("b", Dir []); ("b2", Dir [("c", Dir [])])])]);
       ("work", Dir [])].

(** The folder api/ of the end-to-end example, listed in either order. *)
Definition api_listing (index util : string) (swap : bool) : list (string * node) :=
  if swap then [("util.ts", File util); ("index.ts", File index)]
  else [("index.ts", File index); ("util.ts", File util)].

(** What the working directory holds before the run: nothing, or a
    directory dist/ left by an earlier run. *)
Definition work_listing (old : option (list (string * node))) : list (string * node) :=
  match old with
  | Some es => [("dist", Dir es)]
  | None => []
  end.

Definition example_fs (index util : string) (swap : bool)
  (old : option (list (string * node))) : node :=
  Dir [("src", Dir [("api", Dir (api_listing index util swap))]);
       ("work", Dir (work_listing old))].

(** A filesystem with the sources [src] and with [out] in /work/dist. *)
Definition outdir_fs (src : list (string * node)) (out : list (string * node)) : node :=
  Dir [("src", Dir src); ("work", Dir [("dist", Dir out)])].

Definition example_env (T : string -> option string) : Env := mkEnv "/src" "/work" T.

(** [new BTranspiler().addFolder("api", ["util.ts"]).setOutdir("dist").transform()]
    and the event loop under a schedule. *)
Definition example_run (n : nat) (T : string -> option string) (index util : string)
  (swap : bool) (old : option (list (string * node))) (sched : list nat) : loop :=
  let env := example_env T in
  let st0 := mkState ∅ None [] (example_fs index util swap old) [] in
  let st := snd ((addFolder n env "api" (Some ["util.ts"]) None >> setOutdir "dist") st0) in
  run sched (call (transform n env) st).

(** The state when the loop of [transform] starts in the example: api is
    registered, dist/ is there and empty. *)
Definition example_ready (index util : string) (swap : bool) (tr : list event) : state :=
  mkState ∅ (Some "dist") [mkFolder (Some "") "api" (Some ["util.ts"]) (Some [])]
    (outdir_fs [("api", Dir (api_listing index util swap))] []) tr.

(** api/ with a file in the compatible dialect beside the excluded one. *)
Definition mirror_fs : node :=
  Dir [("src", Dir [("api", Dir [("lib.js", File "let x"); ("util.ts", File "")])]);
       ("work", Dir [])].

(** [addFolder("api", ["util.ts"]).setOutdir("dist").transform()] on it, run
    to the end. *)
Definition mirror_run : loop :=
  let st0 := mkState ∅ None [] mirror_fs [] in
  let st := snd ((addFolder 1 sample_env "api" (Some ["util.ts"]) None >>
                  setOutdir "dist") st0) in
  run [0; 0; 0] (call (transform 1 sample_env) st).

(** a/ holds the sub-folders b/ (two files to convert) and c/ (one); d/ is
    registered after a/. *)
Definition fanout_fs : node :=
  Dir [("src",
        Dir [("a", Dir [("b", Dir [("one.ts", File "1"); ("two.ts", File "2");
                                   ("skip.ts", File "")]);
                        ("c", Dir [("y.ts", File "y"); ("skip.ts", File "")])]);
             ("d", Dir [("z.ts", File "z"); ("skip.ts", File "")])]);
       ("work", Dir [])].

Definition fanout_heap : gmap loc Folder :=
  <[1%positive := mkFolder None "b" (Some ["skip.ts"]) None]>
    (<[2%positive := mkFolder None "c" (Some ["skip.ts"]) None]> ∅).

Definition fanout_env : Env := mkEnv "/src" "/work" wrap_text.

(** [addFolder("a", undefined, [b, c]).addFolder("d", ["skip.ts"]).setOutdir("dist")],
    the trace cleared. *)
Definition fanout_state : state :=
  let st := snd ((addFolder 3 fanout_env "a" None (Some [1%positive; 2%positive]) >>
                  addFolder 3 fanout_env "d" (Some ["skip.ts"]) None >>
                  setOutdir "dist") (mkState fanout_heap None [] fanout_fs [])) in
  mkState (heap st) (this_outdir st) (this_folders st) (fs st) [].

(** * Proofs *)

(** ** Lemmas on strings *)

Lemma app_cons c (a b : string) : String c a +:+ b = String c (a +:+ b).
Proof. reflexivity. Qed.

Lemma app_empty (b : string) : "" +:+ b = b.
Proof. reflexivity. Qed.

Lemma app_assoc_s (a b c : string) : (a +:+ b) +:+ c = a +:+ (b +:+ c).
Proof.
  induction a as [|x a IH]; [reflexivity|]. rewrite !app_cons. by rewrite IH.
Qed.

Lemma prefix_cons a p b s :
  String.prefix (String a p) (String b s)
  = if ascii_dec a b then String.prefix p s else false.
Proof. reflexivity. Qed.

Ltac invc H := inversion H; subst; clear H.

(** ** The filesystem tree *)

(** *** Paths *)

Lemma segments_entry_name s : no_slash s = true -> segments s = [s].
Proof.
  induction s as [|c s IH]; simpl; [done|].
  intros [Hc Hs]%andb_true_iff. apply negb_true_iff in Hc. rewrite Hc, IH; done.
Qed.

Lemma segments_nonempty s : segments s <> [].
Proof.
  induction s as [|c s IH]; simpl; [done|].
  destruct (is_slash c); [done|]. by destruct (segments s).
Qed.

Lemma segments_slash a b : segments (a +:+ "/" +:+ b) = segments a ++ segments b.
Proof.
  induction a as [|c a IH].
  - reflexivity.
  - rewrite app_cons. simpl. rewrite IH.
    destruct (is_slash c); [reflexivity|].
    pose proof (segments_nonempty a). by destruct (segments a).
Qed.

Lemma resolve_slash a b : resolve (a +:+ "/" +:+ b) = resolve a ++ resolve b.
Proof. unfold resolve. by rewrite segments_slash, List.filter_app. Qed.

Lemma resolve_entry k : entry_name k = true -> resolve k = [k].
Proof.
  intros [Hne Hns]%andb_true_iff. unfold resolve.
  rewrite (segments_entry_name k Hns). simpl. by rewrite Hne.
Qed.

Lemma resolve_child p k : entry_name k = true -> resolve (p +:+ "/" +:+ k) = resolve p ++ [k].
Proof. intros Hk. by rewrite resolve_slash, (resolve_entry k Hk). Qed.

(** *** The filesystem tree *)

Lemma assoc_entry_set k m es : assoc k (entry_set k m es) = Some m.
Proof.
  induction es as [|[k' n'] es IH]; simpl.
  - by rewrite String.eqb_refl.
  - destruct (String.eqb k k') eqn:E; simpl; by rewrite E.
Qed.

Lemma entry_set_twice k m m' es : entry_set k m' (entry_set k m es) = entry_set k m' es.
Proof.
  induction es as [|[k' n'] es IH]; simpl.
  - by rewrite String.eqb_refl.
  - destruct (String.eqb k k') eqn:E; simpl; rewrite E; [done | by rewrite IH].
Qed.

Lemma entry_set_same k m es : assoc k es = Some m -> entry_set k m es = es.
Proof.
  induction es as [|[k' n'] es IH]; simpl; [done|].
  destruct (String.eqb k k') eqn:E.
  - by intros [= ->].
  - intros H. by rewrite IH.
Qed.

Lemma fs_lookup_app cs' : forall cs n,
  fs_lookup (cs ++ cs') n = fs_lookup cs n ≫= fs_lookup cs'.
Proof.
  induction cs as [|c cs IH]; intros n; simpl.
  - by destruct cs'.
  - destruct n as [x|es]; [done|]. destruct (assoc c es); [apply IH | done].
Qed.

Lemma fs_put_cons c cs new es :
  cs <> [] ->
  fs_put (c :: cs) new (Dir es)
  = match assoc c es with
    | Some m => match fs_put cs new m with
                | Some m' => Some (Dir (entry_set c m' es))
                | None => None
                end
    | None => None
    end.
Proof. by destruct cs. Qed.

(** Changing an entry of the directory at [cs] is replacing that directory. *)
Lemma fs_put_child k new : forall cs root es,
  cs <> [] -> fs_lookup cs root = Some (Dir es) ->
  fs_put (cs ++ [k]) new root
  = fs_put cs (Some (Dir (match new with
                          | Some m => entry_set k m es
                          | None => entry_del k es
                          end))) root.
Proof.
  induction cs as [|c cs IH]; intros root es Hne Hl; [done|].
  destruct root as [x|es0]; [done|]. simpl in Hl.
  destruct (assoc c es0) as [m|] eqn:Hc; [|done].
  destruct cs as [|c' cs].
  - simpl in *. rewrite Hc. by invc Hl.
  - change ((c :: c' :: cs) ++ [k]) with (c :: ((c' :: cs) ++ [k])).
    rewrite !fs_put_cons by done. rewrite Hc.
    by rewrite (IH m es).
Qed.

Lemma fs_put_Some new : forall cs root,
  cs <> [] -> is_Some (fs_lookup cs root) -> is_Some (fs_put cs new root).
Proof.
  induction cs as [|c cs IH]; intros root Hne [m Hl]; [done|].
  destruct root as [x|es]; [done|]. simpl in Hl.
  destruct (assoc c es) as [m0|] eqn:Hc; [|done].
  destruct cs as [|c' cs]; [simpl; eauto|].
  rewrite fs_put_cons by done. rewrite Hc.
  destruct (IH m0) as [m' ->]; [done|eauto|]. eauto.
Qed.

Lemma fs_lookup_put m : forall cs root r,
  fs_put cs (Some m) root = Some r -> fs_lookup cs r = Some m.
Proof.
  induction cs as [|c cs IH]; intros root r H; [done|].
  destruct root as [x|es]; [by destruct cs|].
  destruct cs as [|c' cs].
  - simpl in H. invc H. simpl. by rewrite assoc_entry_set.
  - rewrite fs_put_cons in H by done.
    destruct (assoc c es) as [m0|]; [|done].
    destruct (fs_put (c' :: cs) (Some m) m0) as [m'|] eqn:E; [|done].
    invc H. cbn [fs_lookup]. rewrite assoc_entry_set. eapply IH; eauto.
Qed.

Lemma fs_put_put m b : forall cs root r,
  fs_put cs (Some m) root = Some r -> fs_put cs (Some b) r = fs_put cs (Some b) root.
Proof.
  induction cs as [|c cs IH]; intros root r H; [done|].
  destruct root as [x|es]; [by destruct cs|].
  destruct cs as [|c' cs].
  - simpl in H. invc H. simpl. by rewrite entry_set_twice.
  - rewrite fs_put_cons in H by done. rewrite (fs_put_cons c (c' :: cs) _ es) by done.
    destruct (assoc c es) as [m0|]; [|done].
    destruct (fs_put (c' :: cs) (Some m) m0) as [m'|] eqn:E; [|done].
    invc H. rewrite fs_put_cons by done. rewrite assoc_entry_set.
    rewrite (IH _ _ E).
    destruct (fs_put (c' :: cs) (Some b) m0); [|done]. by rewrite entry_set_twice.
Qed.

Lemma fs_put_same m : forall cs root,
  cs <> [] -> fs_lookup cs root = Some m -> fs_put cs (Some m) root = Some root.
Proof.
  induction cs as [|c cs IH]; intros root Hne Hl; [done|].
  destruct root as [x|es]; [done|]. simpl in Hl.
  destruct (assoc c es) as [m0|] eqn:Hc; [|done].
  destruct cs as [|c' cs].
  - simpl in *. invc Hl. by rewrite (entry_set_same _ _ _ Hc).
  - rewrite fs_put_cons by done. rewrite Hc, (IH m0) by done.
    by rewrite (entry_set_same _ _ _ Hc).
Qed.

(** *** The walk of a path *)

Lemma fs_lookup_snoc cs c root :
  fs_lookup (cs ++ [c]) root
  = match fs_lookup cs root with
    | Some (Dir es) => assoc c es
    | _ => None
    end.
Proof.
  rewrite fs_lookup_app. destruct (fs_lookup cs root) as [[x|es]|]; [done| |done].
  simpl. by destruct (assoc c es).
Qed.

(** A path of listed names is walked as it stands. *)
Lemma walk_found root : forall cs here n,
  fs_lookup (here ++ cs) root = Some n -> walk root here cs = Exists (here ++ cs).
Proof.
  induction cs as [|c cs IH]; intros here n H; simpl.
  - by rewrite app_nil_r.
  - rewrite fs_lookup_app in H.
    destruct (fs_lookup here root) as [[x|es]|] eqn:E; [done| |done].
    simpl in H. destruct (assoc c es) as [m|] eqn:Hc; [|done].
    rewrite (IH (here ++ [c]) n); [by rewrite <- app_assoc|].
    rewrite <- app_assoc. change ([c] ++ cs) with (c :: cs).
    rewrite fs_lookup_app, E. simpl. by rewrite Hc.
Qed.

Lemma walk_literal root cs n :
  fs_lookup cs root = Some n -> walk root [] cs = Exists cs.
Proof. intros H. by rewrite (walk_found root cs [] n). Qed.

Lemma walk_app root : forall cs here cs',
  is_Some (fs_lookup (here ++ cs) root) ->
  walk root here (cs ++ cs') = walk root (here ++ cs) cs'.
Proof.
  induction cs as [|c cs IH]; intros here cs' H; simpl.
  - by rewrite app_nil_r.
  - destruct H as [n H]. rewrite fs_lookup_app in H.
    destruct (fs_lookup here root) as [[x|es]|] eqn:E; [done| |done].
    simpl in H. destruct (assoc c es) as [m|] eqn:Hc; [|done].
    rewrite IH.
    + by rewrite <- app_assoc.
    + exists n. rewrite <- app_assoc. change ([c] ++ cs) with (c :: cs).
      rewrite fs_lookup_app, E. simpl. by rewrite Hc.
Qed.

(** A name missing from an existing directory. *)
Lemma walk_absent root pre c es :
  fs_lookup pre root = Some (Dir es) -> assoc c es = None -> dotless c ->
  walk root [] (pre ++ [c]) = Absent (pre ++ [c]).
Proof.
  intros H Hc [Hd Hdd]. rewrite walk_app by (simpl; eauto).
  simpl. by rewrite H, Hc, Hd, Hdd.
Qed.

(** A directory missing on the way. *)
Lemma walk_no_parent root pre c es rest :
  fs_lookup pre root = Some (Dir es) -> assoc c es = None -> dotless c -> rest <> [] ->
  walk root [] (pre ++ c :: rest) = NoEnt.
Proof.
  intros H Hc [Hd Hdd] Hr. rewrite walk_app by (simpl; eauto).
  simpl. rewrite H, Hc, Hd, Hdd. by destruct rest.
Qed.

(** A file on the way. *)
Lemma walk_through_file root pre x rest :
  fs_lookup pre root = Some (File x) -> rest <> [] ->
  walk root [] (pre ++ rest) = NotDir.
Proof.
  intros H Hr. rewrite walk_app by (simpl; eauto).
  destruct rest as [|c rest]; [done|]. simpl. by rewrite H.
Qed.

(** *** The primitives, evaluated *)

Lemma lstatSync_eq p st :
  lstatSync p st
  = (match walk (fs st) [] (resolve p) with
     | Exists q => Ok (option_map stat_of (fs_lookup q (fs st)))
     | Absent _ | NoEnt => Ok None
     | NotDir => Throw (enotdir "lstat" p)
     end, logged [EvLstat p] st).
Proof.
  unfold lstatSync, bindM, emit, get. cbn [fs].
  by destruct (walk (fs st) [] (resolve p)).
Qed.

Lemma lstatSync_found p st n :
  fs_lookup (resolve p) (fs st) = Some n ->
  lstatSync p st = (Ok (Some (stat_of n)), logged [EvLstat p] st).
Proof. intros H. by rewrite lstatSync_eq, (walk_literal _ _ n H), H. Qed.

Lemma readdirSync_eq p st :
  readdirSync p st
  = (match walk (fs st) [] (resolve p) with
     | Exists q =>
         match fs_lookup q (fs st) with
         | Some (Dir es) => Ok (List.map fst es)
         | _ => Throw (enotdir "scandir" p)
         end
     | Absent _ | NoEnt => Throw (enoent "scandir" p)
     | NotDir => Throw (enotdir "scandir" p)
     end, logged [EvReaddir p] st).
Proof.
  unfold readdirSync, bindM, emit, get. cbn [fs].
  destruct (walk (fs st) [] (resolve p)) as [q|q| |]; try done.
  by destruct (fs_lookup q (fs st)) as [[c|es]|].
Qed.

Lemma readdirSync_found p st es :
  fs_lookup (resolve p) (fs st) = Some (Dir es) ->
  readdirSync p st = (Ok (List.map fst es), logged [EvReaddir p] st).
Proof. intros H. by rewrite readdirSync_eq, (walk_literal _ _ _ H), H. Qed.

Lemma readFileSync_found p st c :
  fs_lookup (resolve p) (fs st) = Some (File c) ->
  readFileSync p st = (Ok c, logged [EvReadFile p] st).
Proof.
  intros H. unfold readFileSync, bindM, emit, get. cbn [fs].
  by rewrite (walk_literal _ _ _ H), H.
Qed.

Lemma mkdirSync_exists p st n :
  fs_lookup (resolve p) (fs st) = Some n ->
  mkdirSync p st
  = (Throw (sys_error "EEXIST" "file already exists" "mkdir" p), logged [EvMkdir p] st).
Proof.
  intros H. unfold mkdirSync, bindM, emit, get. cbn [fs].
  by rewrite (walk_literal _ _ _ H).
Qed.

Lemma locate_found root p n : fs_lookup (resolve p) root = Some n -> locate root p = Entry n.
Proof. intros H. unfold locate. by rewrite (walk_literal _ _ _ H), H. Qed.

Lemma lstatSync_locate p st :
  lstatSync p st
  = (match locate (fs st) p with
     | Entry n => Ok (Some (stat_of n))
     | Nothing => Ok None
     | Blocked => Throw (enotdir "lstat" p)
     end, logged [EvLstat p] st).
Proof.
  rewrite lstatSync_eq. unfold locate.
  destruct (walk (fs st) [] (resolve p)) as [q|q| |]; try reflexivity.
  by destruct (fs_lookup q (fs st)).
Qed.

Lemma errno_enotdir call p : errno "ENOTDIR" (enotdir call p).
Proof. reflexivity. Qed.

Lemma errno_enoent call p : errno "ENOENT" (enoent call p).
Proof. reflexivity. Qed.

(** What is left of a path without its last component. *)
Lemma fs_put_parent new : forall cs root r,
  fs_put cs new root = Some r ->
  exists pre c es, cs = pre ++ [c] /\ fs_lookup pre root = Some (Dir es).
Proof.
  induction cs as [|c cs IH]; intros root r H; [done|].
  destruct root as [x|es]; [by destruct cs|].
  destruct cs as [|c' cs].
  - by exists [], c, es.
  - rewrite fs_put_cons in H by done.
    destruct (assoc c es) as [m|] eqn:Hc; [|done].
    destruct (fs_put (c' :: cs) new m) as [m'|] eqn:E; [|done].
    destruct (IH _ _ E) as (pre & k & es' & -> & Hl).
    exists (c :: pre), k, es'. split; [done|]. simpl. by rewrite Hc.
Qed.

(** [mkdirSync] of a name that is missing from an existing directory. *)
Lemma mkdirSync_absent p st r pre c :
  resolve p = pre ++ [c] -> dotless c ->
  fs_lookup (resolve p) (fs st) = None ->
  fs_put (resolve p) (Some (Dir [])) (fs st) = Some r ->
  mkdirSync p st
  = (Ok tt, mkState (heap st) (this_outdir st) (this_folders st) r (trace st ++ [EvMkdir p])).
Proof.
  intros Hp Hc Hl Hr.
  destruct (fs_put_parent _ _ _ _ Hr) as (pre' & c' & es & E & Hpre).
  rewrite Hp in E. apply app_inj_tail in E as [<- <-].
  unfold mkdirSync, bindM, emit, get. cbn [fs].
  rewrite Hp in *. rewrite fs_lookup_snoc, Hpre in Hl.
  by rewrite (walk_absent _ _ _ _ Hpre Hl Hc), Hr.
Qed.

Lemma mkdirSync_eq p st :
  mkdirSync p st
  = match walk (fs st) [] (resolve p) with
    | Exists _ =>
        (Throw (sys_error "EEXIST" "file already exists" "mkdir" p), logged [EvMkdir p] st)
    | Absent q =>
        match fs_put q (Some (Dir [])) (fs st) with
        | Some r => (Ok tt, mkState (heap st) (this_outdir st) (this_folders st) r
                              (trace st ++ [EvMkdir p]))
        | None => (Throw (enoent "mkdir" p), logged [EvMkdir p] st)
        end
    | NoEnt => (Throw (enoent "mkdir" p), logged [EvMkdir p] st)
    | NotDir => (Throw (enotdir "mkdir" p), logged [EvMkdir p] st)
    end.
Proof.
  unfold mkdirSync, bindM, emit, get. cbn [fs].
  destruct (walk (fs st) [] (resolve p)) as [q|q| |]; try reflexivity.
  by destruct (fs_put q (Some (Dir [])) (fs st)).
Qed.

Lemma vacant_locate root p : vacant root p -> locate root p = Nothing.
Proof. unfold vacant, locate. by intros ->. Qed.

Lemma vacant_lookup root p : vacant root p -> fs_lookup (resolve p) root = None.
Proof.
  unfold vacant. intros H.
  destruct (fs_lookup (resolve p) root) as [n|] eqn:E; [|done].
  by rewrite (walk_literal _ _ _ E) in H.
Qed.

(** A literal path at which nothing stands, in an existing directory. *)
Lemma vacant_intro root p pre c r new :
  resolve p = pre ++ [c] -> dotless c ->
  fs_lookup (resolve p) root = None ->
  fs_put (resolve p) new root = Some r ->
  vacant root p.
Proof.
  intros Hp Hc Hl Hr. unfold vacant.
  destruct (fs_put_parent _ _ _ _ Hr) as (pre' & c' & es & E & Hpre).
  rewrite Hp in E. apply app_inj_tail in E as [<- <-].
  rewrite Hp in *. rewrite fs_lookup_snoc, Hpre in Hl.
  by rewrite (walk_absent _ _ _ _ Hpre Hl Hc).
Qed.

Lemma rmdirSync_eq p st es r :
  fs_lookup (resolve p) (fs st) = Some (Dir es) ->
  fs_put (resolve p) None (fs st) = Some r ->
  rmdirSync p st
  = (Ok tt, mkState (heap st) (this_outdir st) (this_folders st) r (trace st ++ [EvRmdir p])).
Proof.
  intros Hl Hp. unfold rmdirSync, remove_entry, bindM, emit, get, set_fs. cbn [fs].
  rewrite (walk_literal _ _ _ Hl), Hl. cbn [fs]. by rewrite Hp.
Qed.

Lemma unlinkSync_eq p st c r :
  fs_lookup (resolve p) (fs st) = Some (File c) ->
  fs_put (resolve p) None (fs st) = Some r ->
  unlinkSync p st
  = (Ok tt, mkState (heap st) (this_outdir st) (this_folders st) r (trace st ++ [EvUnlink p])).
Proof.
  intros Hl Hp. unfold unlinkSync, remove_entry, bindM, emit, get, set_fs. cbn [fs].
  rewrite (walk_literal _ _ _ Hl), Hl. cbn [fs]. by rewrite Hp.
Qed.

(** ** The filter *)

Example keeps_single_exclusion :
  kept_files (mkFolder (Some "") "api" (Some ["util.ts"]) (Some []))
             ["index.ts"; "util.ts"; "notes.md"] = ["index.ts"].
Proof. reflexivity. Qed.

(** With exactly one name listed, and that name not empty, the filter is the
    blocklist. *)
Lemma keeps_one_excluded p nm x fs f :
  x <> "" -> keeps (mkFolder p nm (Some [x]) fs) f = wanted [x] f.
Proof.
  intros Hx. unfold keeps, wanted, Js.strict_ne, Js.truthy. simpl.
  rewrite (String.eqb_sym f x).
  destruct (String.eqb_spec x f) as [->|Hne]; simpl.
  - by rewrite andb_false_r.
  - destruct (String.eqb_spec x ""); [done|]. simpl. by rewrite andb_true_r.
Qed.

(** C1: the filter of [transformFolder] is not the blocklist the exclusion law
    describes.  With an empty exclusion list no entry is kept at all, and with
    two listed names each listed file is kept, because [find] looks for a
    listed name that differs from the entry. *)
Theorem C1_filter_is_not_a_blocklist :
  kept_files (mkFolder (Some "") "api" (Some []) (Some [])) ["index.ts"] = []
  /\ wanted [] "index.ts" = true
  /\ kept_files (mkFolder (Some "") "api" (Some ["a.ts"; "b.ts"]) (Some []))
                ["a.ts"; "b.ts"; "c.ts"] = ["a.ts"; "b.ts"; "c.ts"]
  /\ wanted ["a.ts"; "b.ts"] "a.ts" = false.
Proof. repeat split; reflexivity. Qed.

(** ** The output name *)

Example out_name_index : out_name "index.ts" = "index.js".
Proof. reflexivity. Qed.

(** Where "ts" occurs in the suffix alone, the output name is the name with
    the suffix replaced. *)
Lemma out_name_suffix stem :
  includes stem "ts" = false -> out_name (stem +:+ ".ts") = stem +:+ ".js".
Proof.
  unfold out_name. induction stem as [|c stem IH]; intros Hno; [reflexivity|].
  cbn [includes] in Hno. apply orb_false_iff in Hno as [Hhead Hno].
  change (String c stem +:+ ".ts") with (String c (stem +:+ ".ts")).
  change (String c stem +:+ ".js") with (String c (stem +:+ ".js")).
  assert (Js.startsWith (String c (stem +:+ ".ts")) "ts" = false) as Hp.
  { unfold Js.startsWith in *. rewrite prefix_cons in *.
    destruct (ascii_dec "t" c); [|done].
    destruct stem as [|d stem]; [reflexivity|].
    change (String d stem +:+ ".ts") with (String d (stem +:+ ".ts")).
    rewrite prefix_cons in *.
    destruct (ascii_dec "s" d); [by destruct stem | done]. }
  cbn [Js.replace]. rewrite Hp. f_equal. by apply IH.
Qed.

(** C2: the output name replaces the first occurrence of "ts", which is not
    the suffix when the name holds "ts" earlier; a kept ".js" name holding
    "ts" is renamed although it has no source suffix. *)
Theorem C2_out_name_replaces_first_ts :
  keeps (mkFolder (Some "") "api" (Some ["util.ts"]) (Some [])) "tests.ts" = true
  /\ out_name "tests.ts" = "tesjs.ts"
  /\ out_name "tests.ts" <> "tests.js"
  /\ keeps (mkFolder (Some "") "api" (Some ["util.ts"]) (Some [])) "charts.js" = true
  /\ out_name "charts.js" = "charjs.js".
Proof. repeat split; try reflexivity. discriminate. Qed.

(** ** Stamping parent paths *)


Lemma only_heap_refl st : only_heap st st.
Proof. by repeat split. Qed.

Lemma only_heap_trans st1 st2 st3 :
  only_heap st1 st2 -> only_heap st2 st3 -> only_heap st1 st3.
Proof. unfold only_heap. intros (?&?&?&?) (?&?&?&?). repeat split; congruence. Qed.

Lemma same_skel_refl h : same_skel h h.
Proof. by intros l. Qed.

Lemma same_skel_trans h1 h2 h3 : same_skel h1 h2 -> same_skel h2 h3 -> same_skel h1 h3.
Proof. intros H1 H2 l. by rewrite H1. Qed.

Lemma same_skel_sym h1 h2 : same_skel h1 h2 -> same_skel h2 h1.
Proof. intros H1 l. by rewrite H1. Qed.

Lemma same_skel_alter (f : Folder -> Folder) l h :
  (forall o, h !! l = Some o -> skel (f o) = skel o) -> same_skel h (alter f l h).
Proof.
  intros Hf l'. rewrite lookup_alter. case_decide as E; [|done].
  subst l'. destruct (h !! l) as [o|] eqn:Ho; simpl; [|done].
  by rewrite (Hf o).
Qed.

Lemma same_skel_folders h h' l o :
  same_skel h h' -> h !! l = Some o ->
  exists o', h' !! l = Some o' /\ name o' = name o /\ exclude o' = exclude o
             /\ folders o' = folders o.
Proof.
  intros Hs Ho. specialize (Hs l). rewrite Ho in Hs. simpl in Hs.
  destruct (h' !! l) as [o'|]; simpl in Hs; [|discriminate].
  exists o'. unfold skel in Hs. invc Hs. by repeat split.
Qed.

Lemma nodes_skel n : forall h h' l, same_skel h h' -> nodes n h l = nodes n h' l.
Proof.
  induction n as [|n IH]; intros h h' l Hs; simpl; [done|].
  destruct (h !! l) as [o|] eqn:Ho.
  - destruct (same_skel_folders _ _ _ _ Hs Ho) as (o' & -> & _ & _ & ->).
    f_equal. induction (default [] (folders o)) as [|c cs IHc]; simpl; [done|].
    by rewrite (IH h h' c Hs), IHc.
  - specialize (Hs l). rewrite Ho in Hs. simpl in Hs.
    destruct (h' !! l); [discriminate | done].
Qed.

Lemma flat_nodes_skel n h h' cs :
  same_skel h h' -> flat_map (nodes n h) cs = flat_map (nodes n h') cs.
Proof.
  intros Hs. induction cs as [|c cs IH]; simpl; [done|].
  by rewrite (nodes_skel n h h' c Hs), IH.
Qed.

Lemma stamped_refl n cs st : stamped n cs st st.
Proof. split; [apply only_heap_refl|]. split; [apply same_skel_refl | done]. Qed.

Lemma stamped_update l f st r st' :
  (forall o, heap st !! l = Some o -> skel (f o) = skel o) ->
  update l f st = (r, st') ->
  r = Ok tt /\ only_heap st st' /\ same_skel (heap st) (heap st')
  /\ forall l', l' <> l -> heap st' !! l' = heap st !! l'.
Proof.
  intros Hf H. unfold update, bindM, get, set_heap in H. invc H. simpl.
  split; [done|]. split; [by repeat split|].
  split; [by apply same_skel_alter|].
  intros l' Hne. by rewrite lookup_alter_ne.
Qed.

Lemma array_map_stamped n (f : loc -> M loc) :
  (forall l st r st', f l st = (r, st') ->
     stamped n [l] st st' /\ forall x, r = Ok x -> x = l) ->
  forall cs st r st', array_map f cs st = (r, st') ->
     stamped n cs st st' /\ forall xs, r = Ok xs -> xs = cs.
Proof.
  intros Hf cs. induction cs as [|c cs IH]; intros st r st' H; simpl in H.
  - invc H. split; [apply stamped_refl | by intros ? [= <-]].
  - unfold bindM in H. destruct (f c st) as [[x|e|] st1] eqn:E1.
    + destruct (Hf _ _ _ _ E1) as [(Ho1 & Hs1 & Hf1) Hx]. rewrite (Hx x eq_refl) in *.
      destruct (array_map f cs st1) as [[xs|e|] st2] eqn:E2;
        destruct (IH _ _ _ E2) as [(Ho2 & Hs2 & Hf2) Hxs]; invc H.
      all: split; [|try (intros ? [= <-]; by rewrite (Hxs xs eq_refl)); try done].
      all: split; [eapply only_heap_trans; eauto|].
      all: split; [eapply same_skel_trans; eauto|].
      all: intros l' Hl'; simpl in Hl'; rewrite elem_of_app in Hl';
        rewrite Hf2, Hf1; [done | | ];
        [ simpl; rewrite app_nil_r; tauto
        | rewrite <- (flat_nodes_skel n _ _ cs Hs1); tauto ].
    + destruct (Hf _ _ _ _ E1) as [(Ho1 & Hs1 & Hf1) Hx]. invc H.
      split; [|done]. split; [done|]. split; [done|].
      intros l' Hl'. apply Hf1. simpl in *. rewrite app_nil_r. rewrite elem_of_app in Hl'. tauto.
    + destruct (Hf _ _ _ _ E1) as [(Ho1 & Hs1 & Hf1) Hx]. invc H.
      split; [|done]. split; [done|]. split; [done|].
      intros l' Hl'. apply Hf1. simpl in *. rewrite app_nil_r. rewrite elem_of_app in Hl'. tauto.
Qed.

Lemma addParentPath_stamped n : forall p l st r st',
  addParentPath n p l st = (r, st') ->
  stamped n [l] st st' /\ forall x, r = Ok x -> x = l.
Proof.
  induction n as [|n IH]; intros p l st r st' H.
  - invc H. split; [apply stamped_refl | done].
  - simpl in H. unfold bindM at 1 in H. unfold deref at 1 in H.
    destruct (heap st !! l) as [o|] eqn:Ho; [|invc H; split; [apply stamped_refl | done]].
    assert (Hnodes : forall l', l' ∉ flat_map (nodes (S n) (heap st)) [l] ->
              l' <> l /\ l' ∉ flat_map (nodes n (heap st)) (default [] (folders o))).
    { intros l' Hl'. simpl in Hl'. rewrite Ho, app_nil_r in Hl'.
      apply not_elem_of_cons in Hl'. tauto. }
    unfold bindM at 1 in H.
    match type of H with context [match ?m st with _ => _ end] =>
      assert (Hmid : forall r1 st1, m st = (r1, st1) -> stamped (S n) [l] st st1);
      [|destruct (m st) as [[[]|e|] st1] eqn:E1; pose proof (Hmid _ _ eq_refl) as (Ho1 & Hs1 & Hf1)]
    end.
    { intros r1 st1 H1. destruct (folders o) as [fs|] eqn:Hfs; [|invc H1; apply stamped_refl].
      unfold bindM in H1.
      destruct (array_map _ fs st) as [[xs|e|] st0] eqn:E;
        destruct (array_map_stamped n _ (IH _) _ _ _ _ E) as [(Ho0 & Hs0 & Hf0) Hxs].
      - destruct (same_skel_folders _ _ _ _ Hs0 Ho) as (o0 & Ho0' & _ & _ & Hfo0).
        apply stamped_update in H1 as (_ & Ho1 & Hs1 & Hf1).
        2:{ intros o1 Ho1. unfold skel, set_folders. simpl.
            rewrite (Hxs xs eq_refl). congruence. }
        split; [eapply only_heap_trans; eauto|].
        split; [eapply same_skel_trans; eauto|].
        intros l' Hl'. apply Hnodes in Hl' as [? ?]. rewrite Hf1, Hf0; done.
      - invc H1. split; [done|]. split; [done|].
        intros l' Hl'. apply Hnodes in Hl' as [? ?]. by apply Hf0.
      - invc H1. split; [done|]. split; [done|].
        intros l' Hl'. apply Hnodes in Hl' as [? ?]. by apply Hf0. }
    + unfold bindM in H.
      destruct (update l (set_path p) st1) as [r2 st2] eqn:E2.
      apply stamped_update in E2 as (-> & Ho2 & Hs2 & Hf2); [|done].
      invc H. split; [|by intros ? [= <-]].
      split; [eapply only_heap_trans; eauto|].
      split; [eapply same_skel_trans; eauto|].
      intros l' Hl'. pose proof (Hnodes _ Hl') as [? ?]. rewrite Hf2, Hf1; done.
    + invc H. split; [|done]. done.
    + invc H. split; [|done]. done.
Qed.

Lemma agree_refl h1 h2 : agree h1 h2 h1 h2.
Proof. intros l. by right. Qed.

Lemma agree_trans h1 h2 h1' h2' h1'' h2'' :
  agree h1 h2 h1' h2' -> agree h1' h2' h1'' h2'' -> agree h1 h2 h1'' h2''.
Proof.
  intros Ha Hb l. destruct (Hb l) as [?|[E1 E2]]; [by left|].
  rewrite E1, E2. apply Ha.
Qed.

Lemma state_eq st st' :
  heap st = heap st' -> only_heap st st' -> st' = st.
Proof.
  destruct st, st'. unfold only_heap. simpl. intros -> (-> & -> & -> & ->). done.
Qed.

Lemma set_folders_id o fs : folders o = Some fs -> set_folders fs o = o.
Proof. destruct o. simpl. by intros ->. Qed.

Lemma update_noop l f st :
  (forall o, heap st !! l = Some o -> f o = o) -> update l f st = (Ok tt, st).
Proof.
  intros Hf. unfold update, bindM, get, set_heap. f_equal.
  destruct st as [h ? ? ? ?]. simpl in *. f_equal.
  apply map_eq. intros l'. rewrite lookup_alter. case_decide as E; [|done].
  subst l'. destruct (h !! l) as [o|] eqn:Ho; simpl; [|done]. by rewrite (Hf o).
Qed.

Lemma update_agree l f st1 st2 :
  same_skel (heap st1) (heap st2) ->
  (forall o1 o2, skel o1 = skel o2 -> f o1 = f o2) ->
  agree (heap st1) (heap st2)
        (heap (snd (update l f st1))) (heap (snd (update l f st2))).
Proof.
  intros Hs Hf l'. simpl. rewrite !lookup_alter. case_decide as E; [|by right].
  subst l'. left. specialize (Hs l).
  destruct (heap st1 !! l) as [o1|], (heap st2 !! l) as [o2|]; simpl in *;
    try discriminate; [|done].
  f_equal. apply Hf. congruence.
Qed.

Lemma array_map_sim n (f : loc -> M loc) :
  (forall l st r st', f l st = (r, st') ->
     stamped n [l] st st' /\ forall x, r = Ok x -> x = l) ->
  (forall l st1 st2 r st1', same_skel (heap st1) (heap st2) ->
     f l st1 = (Ok r, st1') ->
     exists st2', f l st2 = (Ok r, st2')
                  /\ agree (heap st1) (heap st2) (heap st1') (heap st2')) ->
  forall cs st1 st2 r st1', same_skel (heap st1) (heap st2) ->
     array_map f cs st1 = (Ok r, st1') ->
     exists st2', array_map f cs st2 = (Ok r, st2')
                  /\ agree (heap st1) (heap st2) (heap st1') (heap st2').
Proof.
  intros Hst Hf cs. induction cs as [|c cs IH]; intros st1 st2 r st1' Hs H; simpl in *.
  - invc H. exists st2. split; [reflexivity | apply agree_refl].
  - unfold bindM in *. destruct (f c st1) as [[x|e|] st1a] eqn:E1; try discriminate.
    destruct (Hf _ _ _ _ _ Hs E1) as (st2a & E2 & Ha). rewrite E2.
    destruct (Hst _ _ _ _ E1) as [(_ & Hs1 & _) _].
    destruct (Hst _ _ _ _ E2) as [(_ & Hs2 & _) _].
    assert (Hsa : same_skel (heap st1a) (heap st2a)).
    { eapply same_skel_trans; [apply same_skel_sym, Hs1|].
      eapply same_skel_trans; [exact Hs | exact Hs2]. }
    destruct (array_map f cs st1a) as [[xs|e|] st1b] eqn:E3; try discriminate.
    destruct (IH _ _ _ _ Hsa E3) as (st2b & E4 & Hb). rewrite E4.
    invc H. exists st2b. split; [done|]. eapply agree_trans; eauto.
Qed.

Lemma addParentPath_sim n : forall p l st1 st2 r st1',
  same_skel (heap st1) (heap st2) ->
  addParentPath n p l st1 = (Ok r, st1') ->
  exists st2', addParentPath n p l st2 = (Ok r, st2')
               /\ agree (heap st1) (heap st2) (heap st1') (heap st2').
Proof.
  induction n as [|n IH]; intros p l st1 st2 r st1' Hs H; [discriminate|].
  simpl in *. unfold bindM at 1 in H. unfold bindM at 1. unfold deref at 1 in H.
  unfold deref at 1.
  destruct (heap st1 !! l) as [o1|] eqn:Ho1; [|discriminate].
  destruct (same_skel_folders _ _ _ _ Hs Ho1) as (o2 & Ho2 & Hn & _ & Hfo).
  rewrite Ho2, Hn, Hfo.
  unfold bindM at 1 in H. unfold bindM at 1.
  assert (Hmid : exists st1a st2a,
    (match folders o1 with
     | Some fs => let* fs' := array_map (addParentPath n (p +:+ "/" +:+ name o1)) fs in
                  update l (set_folders fs')
     | None => ret tt
     end) st1 = (Ok tt, st1a) /\
    (match folders o1 with
     | Some fs => let* fs' := array_map (addParentPath n (p +:+ "/" +:+ name o1)) fs in
                  update l (set_folders fs')
     | None => ret tt
     end) st2 = (Ok tt, st2a) /\
    same_skel (heap st1a) (heap st2a) /\
    agree (heap st1) (heap st2) (heap st1a) (heap st2a)).
  { destruct (folders o1) as [fs|] eqn:Hfs.
    - unfold bindM in *.
      destruct (array_map _ fs st1) as [[xs|e|] st1a] eqn:E1; try discriminate.
      destruct (array_map_sim n _ (addParentPath_stamped n _) (IH _) _ _ _ _ _ Hs E1)
        as (st2a & E2 & Ha). rewrite E2.
      destruct (array_map_stamped n _ (addParentPath_stamped n _) _ _ _ _ E1)
        as [(_ & Hs1 & _) Hxs]. rewrite (Hxs xs eq_refl) in *.
      destruct (array_map_stamped n _ (addParentPath_stamped n _) _ _ _ _ E2)
        as [(_ & Hs2 & _) _].
      destruct (same_skel_folders _ _ _ _ Hs1 Ho1) as (o1a & Ho1a & _ & _ & Hf1a).
      destruct (same_skel_folders _ _ _ _ Hs2 Ho2) as (o2a & Ho2a & _ & _ & Hf2a).
      rewrite !update_noop.
      + exists st1a, st2a. repeat split; try done.
        eapply same_skel_trans; [apply same_skel_sym, Hs1|].
        eapply same_skel_trans; [exact Hs | exact Hs2].
      + intros o Ho. apply set_folders_id. congruence.
      + intros o Ho. apply set_folders_id. congruence.
    - exists st1, st2. repeat split; try done. apply agree_refl. }
  destruct Hmid as (st1a & st2a & E1 & E2 & Hsa & Ha).
  rewrite E1 in H. rewrite E2. unfold bindM, ret in *.
  destruct (update l (set_path p) st1a) as [r1 st1b] eqn:U1.
  destruct (update l (set_path p) st2a) as [r2 st2b] eqn:U2.
  pose proof (update_agree l (set_path p) st1a st2a Hsa) as Hu.
  rewrite U1, U2 in Hu. simpl in Hu.
  assert (r1 = Ok tt /\ r2 = Ok tt) as [-> ->].
  { unfold update, bindM, get, set_heap in U1, U2. by invc U1; invc U2. }
  invc H. exists st2b. split; [done|].
  eapply agree_trans; [exact Ha|]. apply Hu.
  intros o1' o2' Hsk. unfold skel, set_path in *. invc Hsk. congruence.
Qed.

(** C9: stamping a node again with the same parent path changes nothing - the
    second call returns the same reference and leaves the whole state, hence
    the node and every descendant, as the first call left it - and stamping
    touches neither the filesystem nor the trace of operations. *)
Theorem C9_addParentPath_idempotent n p l st r st' :
  addParentPath n p l st = (Ok r, st') ->
  addParentPath n p l st' = (Ok r, st')
  /\ fs st' = fs st /\ trace st' = trace st.
Proof.
  intros H.
  destruct (addParentPath_stamped n _ _ _ _ _ H) as [(Ho & Hs & _) _].
  destruct (addParentPath_sim n _ _ _ st' _ _ Hs H) as (st2 & H2 & Ha).
  destruct (addParentPath_stamped n _ _ _ _ _ H2) as [(Ho2 & _ & _) _].
  assert (st2 = st') as ->.
  { apply state_eq; [|done]. apply map_eq. intros l'.
    destruct (Ha l') as [E|[E1 E2]]; congruence. }
  split; [done|]. destruct Ho as (_ & _ & ? & ?). done.
Qed.

Lemma C9_witness :
  let st' := snd (addParentPath 3 "a" 1%positive sample_state) in
  addParentPath 3 "a" 1%positive st' = (Ok 1%positive, st')
  /\ fs st' = fs sample_state /\ trace st' = trace sample_state.
Proof.
  apply (C9_addParentPath_idempotent 3 "a" 1%positive sample_state 1%positive).
  vm_compute. reflexivity.
Defined.

(** ** Path composition *)

Lemma elem_of_flat_map {A B} (f : A -> list B) (l : list A) (x : B) :
  x ∈ flat_map f l <-> exists y, y ∈ l /\ x ∈ f y.
Proof.
  rewrite list_elem_of_In, in_flat_map. split; intros (y & ? & ?); exists y.
  all: by rewrite <- ?list_elem_of_In in *; rewrite ?list_elem_of_In in *.
Qed.

Lemma chain_nonempty h l ns d : chain h l ns d -> ns <> [].
Proof. by destruct 1. Qed.

Lemma chain_skel h h' l ns d : same_skel h h' -> chain h l ns d -> chain h' l ns d.
Proof.
  intros Hs Hc. induction Hc as [l o Ho | l o fs c ns d Ho Hfs Hin Hc IH].
  - destruct (same_skel_folders _ _ _ _ Hs Ho) as (o' & Ho' & <- & _ & _).
    by apply chain_here.
  - destruct (same_skel_folders _ _ _ _ Hs Ho) as (o' & Ho' & <- & _ & Hf).
    eapply chain_step; eauto. congruence.
Qed.

Lemma join_path_cons x ns : ns <> [] -> join_path (x :: ns) = x +:+ "/" +:+ join_path ns.
Proof. by destruct ns. Qed.

Lemma join_path_nest p x ns :
  ns <> [] -> join_path ((p +:+ "/" +:+ x) :: ns) = join_path (p :: x :: ns).
Proof.
  intros Hns. rewrite (join_path_cons _ ns Hns), (join_path_cons p (x :: ns)); [|done].
  rewrite (join_path_cons x ns Hns). by rewrite !app_assoc_s.
Qed.

Lemma slash_nonempty (p x : string) : p +:+ "/" +:+ x <> "".
Proof. destruct p; discriminate. Qed.

Lemma base_path_stamped p o :
  p <> "" -> base_path (set_path p o) = p +:+ "/" +:+ name o.
Proof.
  intros Hp. unfold base_path, set_path. simpl.
  destruct p; [congruence | reflexivity].
Qed.

(** A call that returns has gone down every chain below its argument. *)
Lemma array_chain_nodes n (f : loc -> M loc) :
  (forall l st r st', f l st = (r, st') ->
     stamped n [l] st st' /\ forall x, r = Ok x -> x = l) ->
  (forall l st r st' ns d, f l st = (Ok r, st') ->
     chain (heap st) l ns d -> d ∈ nodes n (heap st) l) ->
  forall cs st r st' c ns d, array_map f cs st = (Ok r, st') ->
     c ∈ cs -> chain (heap st) c ns d -> d ∈ nodes n (heap st) c.
Proof.
  intros Hst Hf cs. induction cs as [|c0 cs IH]; intros st r st' c ns d H Hin Hc.
  - by apply elem_of_nil in Hin.
  - simpl in H. unfold bindM in H.
    destruct (f c0 st) as [[x|e|] st1] eqn:E1; try discriminate.
    destruct (array_map f cs st1) as [[xs|e|] st2] eqn:E2; try discriminate.
    apply elem_of_cons in Hin as [->|Hin]; [by eapply Hf|].
    destruct (Hst _ _ _ _ E1) as [(_ & Hs1 & _) _].
    rewrite (nodes_skel n _ _ c Hs1).
    eapply IH; eauto. by eapply chain_skel.
Qed.

Lemma chain_nodes n : forall p l st r st' ns d,
  addParentPath n p l st = (Ok r, st') ->
  chain (heap st) l ns d -> d ∈ nodes n (heap st) l.
Proof.
  induction n as [|n IH]; intros p l st r st' ns d H Hc; [discriminate|].
  simpl in H. unfold bindM at 1 in H. unfold deref at 1 in H. simpl.
  destruct (heap st !! l) as [o|] eqn:Ho; [|discriminate].
  destruct Hc as [l o0 Ho0 | l o0 fs c ns' d Ho0 Hfs Hin Hc'];
    [apply list_elem_of_here|].
  assert (o0 = o) as -> by congruence.
  apply list_elem_of_further. rewrite Hfs. simpl.
  rewrite Hfs in H. unfold bindM in H.
  destruct (array_map _ fs st) as [[xs|e|] st1] eqn:E1; try discriminate.
  apply elem_of_flat_map. exists c. split; [done|].
  eapply (array_chain_nodes n _ (addParentPath_stamped n _)); eauto.
Qed.

Lemma array_map_paths n q :
  q <> "" ->
  (forall l st r st' ns d, addParentPath n q l st = (Ok r, st') ->
     NoDup (nodes n (heap st) l) -> chain (heap st) l ns d ->
     effective_path (heap st') d = Some (join_path (q :: ns))) ->
  forall cs st r st' c ns d,
     array_map (addParentPath n q) cs st = (Ok r, st') ->
     NoDup (flat_map (nodes n (heap st)) cs) ->
     c ∈ cs -> chain (heap st) c ns d ->
     effective_path (heap st') d = Some (join_path (q :: ns)).
Proof.
  intros Hq Hf cs. induction cs as [|c0 cs IH]; intros st r st' c ns d H Hnd Hin Hc.
  - by apply elem_of_nil in Hin.
  - simpl in H, Hnd. unfold bindM in H.
    destruct (addParentPath n q c0 st) as [[x|e|] st1] eqn:E1; try discriminate.
    destruct (array_map _ cs st1) as [[xs|e|] st2] eqn:E2; try discriminate.
    invc H. apply NoDup_app in Hnd as (Hnd0 & Hdisj & Hnds).
    destruct (addParentPath_stamped n _ _ _ _ _ E1) as [(_ & Hs1 & _) _].
    destruct (array_map_stamped n _ (addParentPath_stamped n _) _ _ _ _ E2)
      as [(_ & _ & Hfr) _].
    apply elem_of_cons in Hin as [->|Hin].
    + unfold effective_path. rewrite Hfr.
      * by eapply Hf.
      * rewrite <- (flat_nodes_skel n _ _ cs Hs1). apply Hdisj.
        by eapply chain_nodes.
    + eapply IH; eauto.
      * by rewrite <- (flat_nodes_skel n _ _ cs Hs1).
      * by eapply chain_skel.
Qed.

Lemma addParentPath_paths n : forall p l st r st' ns d,
  p <> "" ->
  addParentPath n p l st = (Ok r, st') ->
  NoDup (nodes n (heap st) l) -> chain (heap st) l ns d ->
  effective_path (heap st') d = Some (join_path (p :: ns)).
Proof.
  induction n as [|n IH]; intros p l st r st' ns d Hp H Hnd Hc; [discriminate|].
  pose proof (chain_nodes (S n) _ _ _ _ _ _ _ H Hc) as Hd.
  simpl in H, Hnd, Hd. unfold bindM at 1 in H. unfold deref at 1 in H.
  destruct (heap st !! l) as [o|] eqn:Ho; [|discriminate].
  apply NoDup_cons in Hnd as [Hl Hnd].
  unfold bindM at 1 in H.
  match type of H with context [match ?m st with _ => _ end] =>
    destruct (m st) as [[[]|e|] st1] eqn:E1; try discriminate
  end.
  unfold bindM, ret in H.
  assert (Hs1 : same_skel (heap st) (heap st1)).
  { destruct (folders o) as [fs|] eqn:Hfs; [|by invc E1].
    unfold bindM in E1.
    destruct (array_map _ fs st) as [[xs|e|] st0] eqn:E0; try discriminate.
    destruct (array_map_stamped n _ (addParentPath_stamped n _) _ _ _ _ E0)
      as [(_ & Hs0 & _) Hxs].
    destruct (same_skel_folders _ _ _ _ Hs0 Ho) as (o0 & Ho0 & _ & _ & Hf0).
    apply stamped_update in E1 as (_ & _ & Hs & _).
    - eapply same_skel_trans; [exact Hs0 | exact Hs].
    - intros o1 Ho1. unfold skel, set_folders. simpl.
      rewrite (Hxs xs eq_refl). congruence. }
  unfold update, bindM, get, set_heap in H. invc H. unfold effective_path. cbn [heap].
  destruct Hc as [l o0 Ho0 | l o0 fs c ns' d Ho0 Hfs Hin Hc'].
  - rewrite lookup_alter_eq.
    destruct (same_skel_folders _ _ _ _ Hs1 Ho0) as (o1 & -> & Hn & _ & _).
    simpl. by rewrite base_path_stamped, Hn.
  - assert (o0 = o) as -> by congruence.
    rewrite Hfs in *. simpl in Hl, Hnd, Hd, E1.
    assert (d <> l) as Hdl.
    { intros ->. apply Hl.
      apply elem_of_flat_map. exists c. split; [done|].
      unfold bindM in E1.
      destruct (array_map _ fs st) as [[xs|e|] st0] eqn:E0; try discriminate.
      eapply (array_chain_nodes n _ (addParentPath_stamped n _)); eauto.
      intros. by eapply chain_nodes. }
    rewrite lookup_alter_ne by done.
    unfold bindM in E1.
    destruct (array_map _ fs st) as [[xs|e|] st0] eqn:E0; try discriminate.
    unfold update, bindM, get, set_heap in E1. invc E1. cbn [heap].
    rewrite lookup_alter_ne by done.
    rewrite <- join_path_nest by (by eapply chain_nonempty).
    eapply (array_map_paths n _ (slash_nonempty p (name o))); eauto.
    intros. eapply IH; eauto. apply slash_nonempty.
Qed.

(** ** Validation *)

Lemma only_trace_refl st : only_trace st st.
Proof. repeat split. exists []. by rewrite app_nil_r. Qed.

Lemma only_trace_trans st1 st2 st3 :
  only_trace st1 st2 -> only_trace st2 st3 -> only_trace st1 st3.
Proof.
  intros (?&?&?&?&e1&?) (?&?&?&?&e2&?). repeat split; try congruence.
  exists (e1 ++ e2). rewrite app_assoc. congruence.
Qed.

Lemma logged_nil st : logged [] st = st.
Proof. destruct st. unfold logged. simpl. by rewrite app_nil_r. Qed.

Lemma logged_app evs evs' st : logged evs' (logged evs st) = logged (evs ++ evs') st.
Proof. unfold logged. simpl. by rewrite app_assoc. Qed.

Lemma bindM_only_trace {A B} (m : M A) (k : A -> M B) st r st' :
  (forall r1 st1, m st = (r1, st1) -> only_trace st st1) ->
  (forall a st1 r2 st2, k a st1 = (r2, st2) -> only_trace st1 st2) ->
  bindM m k st = (r, st') -> only_trace st st'.
Proof.
  intros Hm Hk H. unfold bindM in H.
  destruct (m st) as [[a|e|] st1] eqn:E; pose proof (Hm _ _ eq_refl) as H1.
  - eapply only_trace_trans; eauto.
  - by invc H.
  - by invc H.
Qed.

Lemma lstatSync_only_trace p st r st' : lstatSync p st = (r, st') -> only_trace st st'.
Proof.
  rewrite lstatSync_eq. intros H. invc H. repeat split. by eexists.
Qed.

Lemma checkFile_only_trace env file dir error bp st r st' :
  checkFile env file dir error bp st = (r, st') -> only_trace st st'.
Proof.
  unfold checkFile. apply bindM_only_trace.
  - intros ? ?. apply lstatSync_only_trace.
  - intros [s|] st1 r2 st2 Hk; [|invc Hk; apply only_trace_refl].
    repeat case_match; invc Hk; apply only_trace_refl.
Qed.

Lemma forEach_only_trace {A} (f : A -> M unit) xs :
  (forall x st r st', f x st = (r, st') -> only_trace st st') ->
  forall st r st', forEach f xs st = (r, st') -> only_trace st st'.
Proof.
  intros Hf. induction xs as [|x xs IH]; intros st r st' H; simpl in H.
  - invc H. apply only_trace_refl.
  - eapply bindM_only_trace; [| |exact H]; eauto.
Qed.

Lemma validateFolder_only_trace n env : forall folder st r st',
  validateFolder n env folder st = (r, st') -> only_trace st st'.
Proof.
  induction n as [|n IH]; intros folder st r st' H; simpl in H.
  - invc H. apply only_trace_refl.
  - unfold bindM at 1, get at 1 in H.
    destruct (List.find _ (this_folders st)); [invc H; apply only_trace_refl|].
    revert H. apply bindM_only_trace; [intros ? ?; apply checkFile_only_trace|].
    intros _ st1 r2 st2. apply bindM_only_trace.
    + intros r1 st1'. destruct (exclude folder); [|intros H; invc H; apply only_trace_refl].
      apply forEach_only_trace. intros x st0 r0 st0'.
      apply bindM_only_trace; [intros ? ?; apply checkFile_only_trace|].
      intros ? ? ? ? H; invc H; apply only_trace_refl.
    + intros _ st3 r3 st4. apply bindM_only_trace.
      * intros r1 st1'. destruct (folders folder); [|intros H; invc H; apply only_trace_refl].
        apply forEach_only_trace. intros x st0 r0 st0'.
        apply bindM_only_trace.
        -- intros r5 st5 H. unfold deref in H. destruct (heap st0 !! x); invc H;
             apply only_trace_refl.
        -- intros o st5 r6 st6. apply bindM_only_trace; [intros ? ?; apply IH|].
           intros ? ? ? ? H; invc H; apply only_trace_refl.
      * intros ? ? ? ? H; invc H; apply only_trace_refl.
Qed.

(** The call depth [n] is enough to walk the descriptor at [l]. *)
Lemma fits_skel n : forall h h' l, same_skel h h' -> fits n h l = fits n h' l.
Proof.
  induction n as [|n IH]; intros h h' l Hs; simpl; [done|].
  destruct (h !! l) as [o|] eqn:Ho.
  - destruct (same_skel_folders _ _ _ _ Hs Ho) as (o' & -> & _ & _ & ->).
    induction (default [] (folders o)) as [|c cs IHc]; simpl; [done|].
    by rewrite (IH h h' c Hs), IHc.
  - specialize (Hs l). rewrite Ho in Hs. simpl in Hs.
    destruct (h' !! l); [discriminate | done].
Qed.

Lemma forallb_fits_skel n h h' cs :
  same_skel h h' -> forallb (fits n h) cs = forallb (fits n h') cs.
Proof.
  intros Hs. induction cs as [|c cs IH]; simpl; [done|].
  by rewrite (fits_skel n h h' c Hs), IH.
Qed.

Lemma array_map_total n (f : loc -> M loc) :
  (forall l st r st', f l st = (r, st') ->
     stamped n [l] st st' /\ forall x, r = Ok x -> x = l) ->
  (forall l st, fits n (heap st) l = true -> exists st', f l st = (Ok l, st')) ->
  forall cs st, forallb (fits n (heap st)) cs = true ->
    exists st', array_map f cs st = (Ok cs, st').
Proof.
  intros Hst Hf cs. induction cs as [|c cs IH]; intros st Hfit; simpl in *.
  - by eexists.
  - apply andb_true_iff in Hfit as [Hc Hcs].
    destruct (Hf c st Hc) as (st1 & E1). unfold bindM. rewrite E1.
    destruct (Hst _ _ _ _ E1) as [(_ & Hs1 & _) _].
    destruct (IH st1) as (st2 & E2).
    { by rewrite <- (forallb_fits_skel n _ _ cs Hs1). }
    rewrite E2. by eexists.
Qed.

Lemma addParentPath_total n : forall p l st,
  fits n (heap st) l = true -> exists st', addParentPath n p l st = (Ok l, st').
Proof.
  induction n as [|n IH]; intros p l st Hfit; [discriminate|].
  simpl in *. unfold bindM at 1, deref at 1.
  destruct (heap st !! l) as [o|] eqn:Ho; [|discriminate].
  unfold bindM at 1.
  assert (exists st1, (match folders o with
     | Some fs => let* fs' := array_map (addParentPath n (p +:+ "/" +:+ name o)) fs in
                  update l (set_folders fs')
     | None => ret tt
     end) st = (Ok tt, st1)) as (st1 & ->).
  { destruct (folders o) as [fs|]; [|by eexists].
    destruct (array_map_total n _
                (addParentPath_stamped n (p +:+ "/" +:+ name o))
                (IH (p +:+ "/" +:+ name o)) fs st Hfit) as (st0 & E0).
    unfold bindM. rewrite E0. by eexists. }
  by eexists.
Qed.

(** ** Registration *)

Lemma stamp_all_stamped n nm subs st r st' :
  stamp_all n nm subs st = (r, st') ->
  stamped n (default [] subs) st st' /\ forall x, r = Ok x -> x = subs.
Proof.
  destruct subs as [fs|]; simpl; [|intros H; invc H; split; [apply stamped_refl|]].
  - unfold bindM. intros H.
    destruct (array_map _ fs st) as [[xs|e|] st1] eqn:E;
      destruct (array_map_stamped n _ (addParentPath_stamped n nm) _ _ _ _ E) as [Hst Hxs];
      invc H; (split; [done|]); try done.
    intros ? [= <-]. by rewrite (Hxs xs eq_refl).
  - by intros ? [= <-].
Qed.

Lemma stamp_all_total n nm subs st :
  forallb (fits n (heap st)) (default [] subs) = true ->
  exists st', stamp_all n nm subs st = (Ok subs, st').
Proof.
  destruct subs as [fs|]; simpl; [|by eexists].
  intros Hfit.
  destruct (array_map_total n _ (addParentPath_stamped n nm) (addParentPath_total n nm)
              fs st Hfit) as (st1 & E).
  unfold bindM. rewrite E. by eexists.
Qed.

Lemma addFolder_unfold n env nm ex subs :
  addFolder n env nm ex subs =
  (let* subs' := stamp_all n nm subs in
   let* validated := validateFolder n env (literal nm ex subs') in
   if negb validated then ret tt else push (literal nm ex subs')).
Proof. reflexivity. Qed.

Lemma validateFolder_unfold n env folder :
  validateFolder (S n) env folder =
  (let* registered := get this_folders in
   match List.find (fun x => String.eqb (name x) (name folder)) registered with
   | Some _ => ret false
   | None =>
       let bp := base_path folder in
       checkFile env bp true true (meta_dir env) >>
       match exclude folder with
       | Some ex =>
           forEach (fun f => checkFile env (bp +:+ "/" +:+ f) false true (meta_dir env)
                             >> ret tt) ex
       | None => ret tt
       end >>
       match folders folder with
       | Some fs =>
           forEach (fun f => let* o := deref f in validateFolder n env o >> ret tt) fs
       | None => ret tt
       end >>
       ret true
   end).
Proof. reflexivity. Qed.

Lemma validateFolder_duplicate n env folder st :
  is_Some (registered (name folder) st) ->
  validateFolder (S n) env folder st = (Ok false, st).
Proof.
  intros [x Hx]. unfold registered in Hx. simpl. unfold bindM at 1, get at 1.
  by rewrite Hx.
Qed.

Lemma bindM_Ok_inv {A B} (m : M A) (k : A -> M B) st b st' :
  bindM m k st = (Ok b, st') ->
  exists a st1, m st = (Ok a, st1) /\ k a st1 = (Ok b, st').
Proof.
  unfold bindM. destruct (m st) as [[a|e|] st1]; try discriminate. eauto.
Qed.

Lemma validateFolder_false n env folder st st' :
  validateFolder n env folder st = (Ok false, st') ->
  is_Some (registered (name folder) st) /\ st' = st.
Proof.
  destruct n as [|n]; [discriminate|]. simpl. unfold bindM at 1, get at 1.
  unfold registered. destruct (List.find _ _); [intros H; invc H; eauto|].
  intros H.
  apply bindM_Ok_inv in H as (? & ? & _ & H).
  apply bindM_Ok_inv in H as (? & ? & _ & H).
  apply bindM_Ok_inv in H as (? & ? & _ & H). discriminate.
Qed.

Lemma validateFolder_true n env folder st st' :
  validateFolder n env folder st = (Ok true, st') ->
  registered (name folder) st = None.
Proof.
  destruct n as [|n]; [discriminate|]. simpl. unfold bindM at 1, get at 1.
  unfold registered. destruct (List.find _ _); [discriminate | done].
Qed.

Lemma find_app_None {A} (f : A -> bool) l x :
  List.find f l = None -> f x = true -> List.find f (l ++ [x]) = Some x.
Proof.
  induction l as [|y l IH]; simpl; intros Hn Hx; [by rewrite Hx|].
  destruct (f y); [discriminate | auto].
Qed.

Lemma find_names_None nm (l : list Folder) :
  List.find (fun x => String.eqb (name x) nm) l = None -> nm ∉ name <$> l.
Proof.
  induction l as [|y l IH]; simpl; intros Hn; [by apply not_elem_of_nil|].
  destruct (String.eqb_spec (name y) nm); [discriminate|].
  apply not_elem_of_cons. split; [congruence | auto].
Qed.

Lemma count_registered nm (l : list Folder) x :
  NoDup (name <$> l) ->
  List.find (fun x => String.eqb (name x) nm) l = Some x ->
  length (List.filter (fun x => String.eqb (name x) nm) l) = 1.
Proof.
  induction l as [|y l IH]; simpl; intros Hnd Hf; [discriminate|].
  apply NoDup_cons in Hnd as [Hy Hnd].
  destruct (String.eqb_spec (name y) nm) as [<-|Hne].
  - simpl. f_equal. clear -Hy. induction l as [|z l IH]; simpl; [done|].
    apply not_elem_of_cons in Hy as [Hz Hy].
    destruct (String.eqb_spec (name z) (name y)); [congruence | auto].
  - auto.
Qed.

(** A registration that returns leaves a node of that name in the forest,
    keeps the names distinct, and was run with some call depth. *)
Lemma addFolder_ok n env nm ex subs st st' :
  addFolder n env nm ex subs st = (Ok tt, st') ->
  is_Some (registered nm st')
  /\ (NoDup (name <$> this_folders st) -> NoDup (name <$> this_folders st'))
  /\ n <> 0.
Proof.
  rewrite addFolder_unfold. unfold bindM at 1. intros H.
  destruct (stamp_all n nm subs st) as [[subs'|e|] st1] eqn:E1; try discriminate.
  destruct (stamp_all_stamped _ _ _ _ _ _ E1) as [((_ & Hf1 & _) & _) _].
  unfold bindM in H.
  destruct (validateFolder n env _ st1) as [[b|e|] st2] eqn:E2; try discriminate.
  destruct (validateFolder_only_trace _ _ _ _ _ _ E2) as (_ & _ & Hf2 & _).
  split; [|split]; [| |by intros ->].
  - destruct b; simpl in H.
    + apply validateFolder_true in E2. unfold registered in *. invc H. simpl.
      rewrite Hf2. eexists. apply find_app_None; [done|]. simpl. apply String.eqb_refl.
    + apply validateFolder_false in E2 as [Hr ->]. by invc H.
  - intros Hnd. destruct b; simpl in H; invc H.
    + simpl. rewrite Hf2, Hf1, fmap_app. simpl.
      apply NoDup_app. split; [done|]. split; [|apply NoDup_singleton].
      apply validateFolder_true in E2. unfold registered in E2. simpl in E2.
      rewrite Hf1 in E2. apply find_names_None in E2.
      intros x Hx ->%list_elem_of_singleton. done.
    + by rewrite Hf2, Hf1.
Qed.

(** Without sub-folders, registering a registered name again changes
    nothing at all. *)
Lemma addFolder_duplicate_plain n env nm ex st :
  is_Some (registered nm st) -> addFolder (S n) env nm ex None st = (Ok tt, st).
Proof.
  intros Hr. rewrite addFolder_unfold. cbn [stamp_all]. unfold bindM at 1, ret at 1.
  unfold bindM. by rewrite validateFolder_duplicate.
Qed.

(** C5 (amended): registering a top-level name a second time returns
    without error and without appending; the forest keeps its list of
    top-level nodes, with exactly one node of that name.  The sub-folder
    descriptors handed to the second call are stamped all the same: every
    object that is not one of them or below one of them is left as it was. *)
Theorem C5_duplicate_registration n env nm ex1 subs1 ex2 subs2 st0 st1 :
  NoDup (name <$> this_folders st0) ->
  addFolder n env nm ex1 subs1 st0 = (Ok tt, st1) ->
  forallb (fits n (heap st1)) (default [] subs2) = true ->
  exists st2,
    addFolder n env nm ex2 subs2 st1 = (Ok tt, st2)
    /\ this_folders st2 = this_folders st1
    /\ length (List.filter (fun x => String.eqb (name x) nm) (this_folders st2)) = 1
    /\ this_outdir st2 = this_outdir st1 /\ fs st2 = fs st1 /\ trace st2 = trace st1
    /\ forall l, l ∉ flat_map (nodes n (heap st1)) (default [] subs2) ->
                 heap st2 !! l = heap st1 !! l.
Proof.
  intros Hnd H1 Hfit.
  destruct (addFolder_ok _ _ _ _ _ _ _ H1) as ([x Hx] & Hnd1 & Hn).
  destruct n as [|n]; [done|].
  destruct (stamp_all_total (S n) nm subs2 st1 Hfit) as (st2 & E).
  destruct (stamp_all_stamped _ _ _ _ _ _ E) as [((Ho & Hfo & Hfs & Htr) & _ & Hfr) _].
  exists st2. rewrite addFolder_unfold. unfold bindM at 1. rewrite E.
  unfold bindM. rewrite validateFolder_duplicate.
  2:{ unfold registered in *. simpl. rewrite Hfo. eauto. }
  simpl. repeat split; try done.
  rewrite Hfo. eapply count_registered; eauto.
Qed.

Lemma C5_witness :
  exists st2,
    addFolder 3 sample_env "a" (Some []) None registered_a = (Ok tt, st2)
    /\ this_folders st2 = this_folders registered_a
    /\ length (List.filter (fun x => String.eqb (name x) "a") (this_folders st2)) = 1
    /\ this_outdir st2 = this_outdir registered_a /\ fs st2 = fs registered_a
    /\ trace st2 = trace registered_a
    /\ forall l, l ∉ flat_map (nodes 3 (heap registered_a)) (default [] None) ->
                 heap st2 !! l = heap registered_a !! l.
Proof.
  apply (C5_duplicate_registration 3 sample_env "a" None (Some [1%positive])
           (Some []) None sample_state registered_a).
  - apply NoDup_nil_2.
  - vm_compute. reflexivity.
  - reflexivity.
Defined.

(** C5, counterexample: the second registration of "a" is handed the object
    [c], which the forest holds below a/b.  The call returns without
    appending, yet the forest's node [c] has a new parent path. *)
Lemma C5_counterexample :
  let st2 := snd (addFolder 3 sample_env "a" None (Some [2%positive]) registered_a) in
  this_folders registered_a = [literal "a" None (Some [1%positive])]
  /\ fst (addFolder 3 sample_env "a" None (Some [2%positive]) registered_a) = Ok tt
  /\ this_folders st2 = this_folders registered_a
  /\ 2%positive ∈ nodes 3 (heap registered_a) 1%positive
  /\ effective_path (heap registered_a) 2%positive = Some "a/b/c"
  /\ effective_path (heap st2) 2%positive = Some "a/c"
  /\ heap st2 <> heap registered_a.
Proof.
  repeat split; try (vm_compute; reflexivity).
  - apply (bool_decide_unpack _). vm_compute. exact I.
  - intros E. apply (f_equal (fun h => effective_path h 2%positive)) in E.
    vm_compute in E. discriminate.
Defined.

(** A folder that is not there makes the registration raise. *)
Lemma addFolder_missing_folder n env nm ex subs st :
  registered nm st = None ->
  forallb (fits (S n) (heap st)) (default [] subs) = true ->
  (forall q, walk (fs st) [] (resolve (meta_dir env +:+ "/" +:+ nm)) <> Exists q) ->
  exists msg st', addFolder (S n) env nm ex subs st = (Throw msg, st').
Proof.
  intros Hnew Hfit Hno.
  destruct (stamp_all_total (S n) nm subs st Hfit) as (st1 & E).
  destruct (stamp_all_stamped _ _ _ _ _ _ E) as [((Ho & Hfo & Hfs & Htr) & _ & _) _].
  rewrite addFolder_unfold. unfold bindM at 1. rewrite E.
  unfold bindM at 1. rewrite validateFolder_unfold. unfold bindM at 1, get at 1.
  unfold registered in Hnew.
  change (name (literal nm ex subs)) with nm.
  change (base_path (literal nm ex subs)) with nm.
  rewrite Hfo, Hnew. cbv zeta. unfold bindM at 1.
  unfold checkFile, bindM at 1. rewrite lstatSync_eq. rewrite Hfs.
  destruct (walk (fs st) [] (resolve (meta_dir env +:+ "/" +:+ nm))) as [q|q| |] eqn:Ew;
    [by destruct (Hno q) | by eexists _, _ ..].
Qed.

(** C6 (amended): a registration that raises an error appends nothing - the
    forest keeps its list of top-level nodes, and the output directory
    setting and the filesystem are as before.  The sub-folder descriptors
    handed to the failing call have been stamped before validation: every
    object that is not one of them or below one of them is left as it was. *)
Theorem C6_failed_registration n env nm ex subs st msg st' :
  addFolder n env nm ex subs st = (Throw msg, st') ->
  this_folders st' = this_folders st
  /\ this_outdir st' = this_outdir st /\ fs st' = fs st
  /\ forall l, l ∉ flat_map (nodes n (heap st)) (default [] subs) ->
               heap st' !! l = heap st !! l.
Proof.
  rewrite addFolder_unfold. unfold bindM at 1. intros H.
  destruct (stamp_all n nm subs st) as [[subs'|e|] st1] eqn:E1; try discriminate.
  - destruct (stamp_all_stamped _ _ _ _ _ _ E1) as [((Ho & Hfo & Hfs & Htr) & _ & Hfr) _].
    unfold bindM in H.
    destruct (validateFolder n env _ st1) as [[b|e|] st2] eqn:E2; try discriminate.
    + destruct b; simpl in H; discriminate.
    + destruct (validateFolder_only_trace _ _ _ _ _ _ E2) as (Hh & Ho2 & Hf2 & Hfs2 & _).
      invc H. repeat split; try congruence.
      intros l Hl. rewrite Hh. by apply Hfr.
  - destruct (stamp_all_stamped _ _ _ _ _ _ E1) as [((Ho & Hfo & Hfs & Htr) & _ & Hfr) _].
    invc H. by repeat split.
Qed.

Lemma C6_witness :
  let st' := snd (addFolder 3 sample_env "missing" None None registered_a) in
  this_folders st' = this_folders registered_a
  /\ this_outdir st' = this_outdir registered_a /\ fs st' = fs registered_a
  /\ forall l, l ∉ flat_map (nodes 3 (heap registered_a)) (default [] None) ->
               heap st' !! l = heap registered_a !! l.
Proof.
  eapply (C6_failed_registration 3 sample_env "missing" None None registered_a).
  vm_compute. reflexivity.
Defined.

(** C6, counterexample: a registration under a folder that does not exist
    raises its error after it has stamped the descriptor [b], which the
    forest holds below "a": the forest's node has a new parent path. *)
Lemma C6_counterexample :
  let r := addFolder 3 sample_env "missing" None (Some [1%positive]) registered_a in
  (exists msg, fst r = Throw msg)
  /\ this_folders (snd r) = this_folders registered_a
  /\ this_folders registered_a = [literal "a" None (Some [1%positive])]
  /\ effective_path (heap registered_a) 1%positive = Some "a/b"
  /\ effective_path (heap (snd r)) 1%positive = Some "missing/b"
  /\ heap (snd r) <> heap registered_a.
Proof.
  repeat split; try (vm_compute; reflexivity).
  - eexists. vm_compute. reflexivity.
  - intros E. apply (f_equal (fun h => effective_path h 1%positive)) in E.
    vm_compute in E. discriminate.
Defined.

(** ** Sub-folders of a registered name *)

Lemma checkFile_eq env file dir error bp st :
  checkFile env file dir error bp st
  = (match locate (fs st) (bp +:+ "/" +:+ file) with
     | Nothing => Throw (missing_message dir file bp)
     | Blocked => Throw (enotdir "lstat" (bp +:+ "/" +:+ file))
     | Entry nd =>
         if Js.strict_ne bp (meta_dir env) then Ok (Some (stat_of nd))
         else if Bool.eqb (isDirectory (stat_of nd)) dir then Ok (Some (stat_of nd))
         else if error then Throw (kind_message dir file bp)
         else Ok None
     end, logged [EvLstat (bp +:+ "/" +:+ file)] st).
Proof.
  unfold checkFile, bindM. rewrite lstatSync_locate.
  destruct (locate (fs st) (bp +:+ "/" +:+ file)) as [nd| |]; [|reflexivity..].
  destruct (Js.strict_ne bp (meta_dir env)); [reflexivity|].
  destruct nd, dir, error; reflexivity.
Qed.

Lemma checkFile_names_directory env file st :
  names_directory (fs st) (meta_dir env +:+ "/" +:+ file) ->
  checkFile env file true true (meta_dir env) st
  = (Ok (Some StDirectory), logged [EvLstat (meta_dir env +:+ "/" +:+ file)] st).
Proof.
  intros [es Hl]. rewrite checkFile_eq, Hl.
  unfold Js.strict_ne. by rewrite String.eqb_refl.
Qed.

Lemma checkFile_names_file env file st :
  names_file (fs st) (meta_dir env +:+ "/" +:+ file) ->
  checkFile env file false true (meta_dir env) st
  = (Ok (Some StFile), logged [EvLstat (meta_dir env +:+ "/" +:+ file)] st).
Proof.
  intros [c Hl]. rewrite checkFile_eq, Hl.
  unfold Js.strict_ne. by rewrite String.eqb_refl.
Qed.

Lemma forEach_files env bp ex : forall st,
  Forall (fun f => names_file (fs st) (meta_dir env +:+ "/" +:+ bp +:+ "/" +:+ f)) ex ->
  forEach (fun f => checkFile env (bp +:+ "/" +:+ f) false true (meta_dir env) >> ret tt)
          ex st
  = (Ok tt, logged (List.map (fun f => EvLstat (meta_dir env +:+ "/" +:+ bp +:+ "/" +:+ f)) ex)
                   st).
Proof.
  induction ex as [|f ex IH]; intros st Hex; cbn [forEach List.map].
  - by rewrite logged_nil.
  - apply Forall_cons in Hex as [Hf Hex].
    unfold bindM at 1. unfold bindM at 1.
    rewrite (checkFile_names_file env _ st Hf). unfold ret at 1.
    rewrite IH by done. by rewrite logged_app.
Qed.

Lemma bindM_ext {A B} (m : M A) (k k' : A -> M B) st :
  (forall a st1, m st = (Ok a, st1) -> k a st1 = k' a st1) ->
  bindM m k st = bindM m k' st.
Proof. intros H. unfold bindM. destruct (m st) as [[a|e|] st1]; auto. Qed.

Lemma bindM_cong_l {A B} (m m' : M A) (k : A -> M B) st :
  m st = m' st -> bindM m k st = bindM m' k st.
Proof. unfold bindM. by intros ->. Qed.

Lemma duplicate_named_only_trace st st' c :
  only_trace st st' -> duplicate_named st c -> duplicate_named st' c.
Proof.
  intros (Hh & _ & Hf & _) (o & Ho & Hr). exists o.
  unfold registered in *. by rewrite Hh, Hf.
Qed.

Lemma validate_child_only_trace n env x st r st' :
  (let* o := deref x in validateFolder n env o >> ret tt) st = (r, st') ->
  only_trace st st'.
Proof.
  apply bindM_only_trace.
  - intros r1 st0 H. unfold deref in H. destruct (heap st !! x); invc H;
      apply only_trace_refl.
  - intros o st0 r2 st2. apply bindM_only_trace.
    + intros ? ?. apply validateFolder_only_trace.
    + intros ? ? ? ? H. invc H. apply only_trace_refl.
Qed.

(** Among the sub-folders, one that bears a registered name could as well be
    left out: validation goes on as if it were not there. *)
Lemma forEach_skips_registered n env c cs2 : forall cs1 st,
  duplicate_named st c ->
  forEach (fun f => let* o := deref f in validateFolder (S n) env o >> ret tt)
          (cs1 ++ c :: cs2) st
  = forEach (fun f => let* o := deref f in validateFolder (S n) env o >> ret tt)
            (cs1 ++ cs2) st.
Proof.
  induction cs1 as [|x cs1 IH]; intros st Hc; cbn [forEach app].
  - destruct Hc as (o & Ho & Hr).
    unfold bindM at 1. unfold bindM at 1. unfold deref at 1. rewrite Ho.
    unfold bindM at 1. by rewrite validateFolder_duplicate.
  - apply bindM_ext. intros [] st1 E. apply IH.
    eapply duplicate_named_only_trace; [|exact Hc].
    eapply validate_child_only_trace, E.
Qed.

Lemma validateFolder_skips_registered n env folder cs1 c cs2 st :
  folders folder = Some (cs1 ++ c :: cs2) ->
  duplicate_named st c ->
  validateFolder (S (S n)) env folder st
  = validateFolder (S (S n)) env (set_folders (cs1 ++ cs2) folder) st.
Proof.
  intros Hfs Hc. rewrite !validateFolder_unfold.
  change (name (set_folders (cs1 ++ cs2) folder)) with (name folder).
  change (base_path (set_folders (cs1 ++ cs2) folder)) with (base_path folder).
  change (exclude (set_folders (cs1 ++ cs2) folder)) with (exclude folder).
  change (folders (set_folders (cs1 ++ cs2) folder)) with (Some (cs1 ++ cs2)).
  rewrite Hfs. apply bindM_ext. intros registered st0 E0. invc E0.
  destruct (List.find _ (this_folders st0)); [done|]. cbv zeta.
  apply bindM_ext. intros s st1 E1. apply checkFile_only_trace in E1.
  apply bindM_ext. intros [] st2 E2.
  assert (only_trace st1 st2) as H12.
  { destruct (exclude folder) as [ex|]; [|invc E2; apply only_trace_refl].
    revert E2. apply forEach_only_trace. intros x st3 r3 st3'.
    apply bindM_only_trace; [intros ? ?; apply checkFile_only_trace|].
    intros ? ? ? ? H; invc H; apply only_trace_refl. }
  apply bindM_cong_l, forEach_skips_registered.
  eapply duplicate_named_only_trace; [|exact Hc].
  eapply only_trace_trans; eauto.
Qed.

(** The recursive calls of line 182 on children that bear a registered name
    or are accepted: the former leave no trace. *)
Lemma forEach_children n env : forall cs st,
  Forall (child_ok env st) cs ->
  forEach (fun f => let* o := deref f in validateFolder (S n) env o >> ret tt) cs st
  = (Ok tt, logged (flat_map (child_events env st) cs) st).
Proof.
  induction cs as [|c cs IH]; intros st Hcs; cbn [forEach flat_map].
  - by rewrite logged_nil.
  - apply Forall_cons in Hcs as [(o & Ho & Hc) Hcs].
    unfold bindM at 1. unfold bindM at 1. unfold deref at 1. rewrite Ho.
    unfold child_events at 1. rewrite Ho.
    destruct Hc as [[x Hx]|(Hnew & Hflat & Hdir & Hex)].
    + unfold bindM at 1. rewrite validateFolder_duplicate by (by exists x).
      unfold ret at 1. rewrite Hx. cbn [app]. by apply IH.
    + rewrite Hnew. unfold bindM at 1. rewrite validateFolder_unfold.
      unfold bindM at 1, get at 1. unfold registered in Hnew. rewrite Hnew. cbv zeta.
      unfold bindM at 1. rewrite (checkFile_names_directory env _ st Hdir).
      unfold bindM at 1.
      assert (match exclude o with
              | Some ex =>
                  forEach (fun f => checkFile env (base_path o +:+ "/" +:+ f) false true
                                      (meta_dir env) >> ret tt) ex
              | None => ret tt
              end (logged [EvLstat (meta_dir env +:+ "/" +:+ base_path o)] st)
              = (Ok tt, logged (List.map (fun f => EvLstat (meta_dir env +:+ "/"
                                                     +:+ base_path o +:+ "/" +:+ f))
                                  (default [] (exclude o)))
                          (logged [EvLstat (meta_dir env +:+ "/" +:+ base_path o)] st)))
        as ->.
      { destruct (exclude o) as [ex|]; [by apply forEach_files|].
        by rewrite logged_nil. }
      rewrite logged_app. unfold bindM at 1.
      assert (match folders o with
              | Some fs =>
                  forEach (fun f => let* o := deref f in validateFolder n env o >> ret tt) fs
              | None => ret tt
              end = ret tt) as ->.
      { destruct (folders o) as [fs|]; [|done]. simpl in Hflat. by subst fs. }
      unfold ret at 1. unfold ret at 1. unfold ret at 1. cbv beta iota.
      rewrite (IH (logged _ st)) by exact Hcs. rewrite logged_app.
      reflexivity.
Qed.

(** C10: a sub-folder that bears a name registered at the top level is not
    validated.  Let the descriptors handed to [addFolder] have been stamped,
    and let each immediate sub-folder either bear a registered name or be a
    folder that validation accepts.  Then the recursive calls are made on
    the sub-folders in turn - the [lstat] calls of the accepted ones are in
    the trace - while the call on a sub-folder of a registered name returns
    [false] at once, leaving no trace of a filesystem check; that result is
    dropped, and the parent is validated and appended, whatever exists at
    the path of such a sub-folder.  For every folder and every list of
    sub-folders, validation has the outcome and the final state it has with
    a sub-folder of a registered name left out of the list. *)
Theorem C10_registered_name_skips_child n env nm ex subs st :
  registered nm st = None ->
  forallb (fits (S (S n)) (heap st)) subs = true ->
  names_directory (fs st) (meta_dir env +:+ "/" +:+ nm) ->
  Forall (fun f => names_file (fs st) (meta_dir env +:+ "/" +:+ nm +:+ "/" +:+ f))
         (default [] ex) ->
  let st1 := snd (stamp_all (S (S n)) nm (Some subs) st) in
  Forall (child_ok env st1) subs ->
  exists st',
    addFolder (S (S n)) env nm ex (Some subs) st = (Ok tt, st')
    /\ this_folders st' = this_folders st ++ [literal nm ex (Some subs)]
    /\ trace st' = trace st ++ EvLstat (meta_dir env +:+ "/" +:+ nm)
         :: List.map (fun f => EvLstat (meta_dir env +:+ "/" +:+ nm +:+ "/" +:+ f))
                     (default [] ex)
         ++ flat_map (child_events env st1) subs
    /\ (forall c o, c ∈ subs -> heap st' !! c = Some o ->
          is_Some (registered (name o) st) ->
          child_events env st1 c = []
          /\ forall m st2, this_folders st2 = this_folders st ->
               validateFolder (S m) env o st2 = (Ok false, st2))
    /\ forall folder cs1 c cs2 st2,
         folders folder = Some (cs1 ++ c :: cs2) -> duplicate_named st2 c ->
         validateFolder (S (S n)) env folder st2
         = validateFolder (S (S n)) env (set_folders (cs1 ++ cs2) folder) st2.
Proof.
  intros Hnew Hfit Hdir Hex st1 Hch.
  destruct (stamp_all_total (S (S n)) nm (Some subs) st Hfit) as (st1' & E).
  assert (st1 = st1') as Hst1 by (unfold st1; by rewrite E).
  clearbody st1. subst st1'.
  destruct (stamp_all_stamped _ _ _ _ _ _ E) as [((Ho & Hfo & Hfs & Htr) & Hsk & _) _].
  rewrite addFolder_unfold. unfold bindM at 1. rewrite E.
  assert (Hv : validateFolder (S (S n)) env (literal nm ex (Some subs)) st1
    = (Ok true, logged (EvLstat (meta_dir env +:+ "/" +:+ nm)
         :: List.map (fun f => EvLstat (meta_dir env +:+ "/" +:+ nm +:+ "/" +:+ f))
                     (default [] ex)
         ++ flat_map (child_events env st1) subs) st1)).
  { rewrite validateFolder_unfold. unfold bindM at 1, get at 1.
    unfold registered in Hnew.
    change (name (literal nm ex (Some subs))) with nm.
    change (base_path (literal nm ex (Some subs))) with nm.
    change (exclude (literal nm ex (Some subs))) with (Some (default [] ex)).
    change (folders (literal nm ex (Some subs))) with (Some subs).
    rewrite Hfo, Hnew. cbv zeta.
    unfold bindM at 1. rewrite (checkFile_names_directory env nm st1) by (by rewrite Hfs).
    unfold bindM at 1.
    rewrite forEach_files by (by cbn [fs logged]; rewrite Hfs).
    unfold bindM at 1.
    rewrite (forEach_children n env subs (logged _ (logged _ st1))) by exact Hch.
    unfold ret. rewrite !logged_app. reflexivity. }
  unfold bindM. rewrite Hv. simpl.
  eexists. split; [reflexivity|]. simpl. rewrite Hfo, Htr.
  split; [done|]. split; [done|]. split.
  - intros c o Hc Ho' [x Hx]. split.
    + unfold child_events. rewrite Ho'. unfold registered in *. by rewrite Hfo, Hx.
    + intros m st2 Hst2. apply validateFolder_duplicate.
      exists x. unfold registered in *. by rewrite Hst2.
  - intros folder cs1 c cs2 st2. apply validateFolder_skips_registered.
Qed.

Lemma C10_witness :
  let st := mkState (<[3%positive := mkFolder None "s" None None]> (heap registered_b))
              None (this_folders registered_b) sample_fs [] in
  exists st',
    addFolder 3 sample_env "lib" None (Some [1%positive; 3%positive]) st = (Ok tt, st')
    /\ this_folders st'
       = this_folders st ++ [literal "lib" None (Some [1%positive; 3%positive])]
    /\ trace st' = trace st ++ EvLstat (meta_dir sample_env +:+ "/" +:+ "lib")
         :: List.map (fun f => EvLstat (meta_dir sample_env +:+ "/" +:+ "lib" +:+ "/" +:+ f))
                     (default [] None)
         ++ flat_map (child_events sample_env
                        (snd (stamp_all 3 "lib" (Some [1%positive; 3%positive]) st)))
              [1%positive; 3%positive]
    /\ (forall c o, c ∈ [1%positive; 3%positive] -> heap st' !! c = Some o ->
          is_Some (registered (name o) st) ->
          child_events sample_env
            (snd (stamp_all 3 "lib" (Some [1%positive; 3%positive]) st)) c = []
          /\ forall m st2, this_folders st2 = this_folders st ->
               validateFolder (S m) sample_env o st2 = (Ok false, st2))
    /\ forall folder cs1 c cs2 st2,
         folders folder = Some (cs1 ++ c :: cs2) -> duplicate_named st2 c ->
         validateFolder 3 sample_env folder st2
         = validateFolder 3 sample_env (set_folders (cs1 ++ cs2) folder) st2.
Proof.
  apply (C10_registered_name_skips_child 1 sample_env "lib" None [1%positive; 3%positive]
           (mkState (<[3%positive := mkFolder None "s" None None]> (heap registered_b))
              None (this_folders registered_b) sample_fs [])).
  - vm_compute. reflexivity.
  - vm_compute. reflexivity.
  - eexists. vm_compute. reflexivity.
  - apply Forall_nil_2.
  - apply Forall_cons. split; [|apply Forall_cons; split; [|apply Forall_nil_2]].
    + exists (mkFolder (Some "lib") "b" None (Some [2%positive])). split.
      * vm_compute. reflexivity.
      * left. eexists. vm_compute. reflexivity.
    + exists (mkFolder (Some "lib") "s" None None). split.
      * vm_compute. reflexivity.
      * right. split; [vm_compute; reflexivity|]. split; [reflexivity|].
        split; [eexists; vm_compute; reflexivity | apply Forall_nil_2].
Defined.

(** In the example the sub-folder named b is skipped although nothing exists
    at lib/b, and the only calls made are those for lib and lib/s. *)
Example C10_child_path_is_missing :
  let st := mkState (<[3%positive := mkFolder None "s" None None]> (heap registered_b))
              None (this_folders registered_b) sample_fs [] in
  locate (fs st) "/src/lib/b" = Nothing
  /\ trace (snd (addFolder 3 sample_env "lib" None (Some [1%positive; 3%positive]) st))
     = [EvLstat "/src/lib"; EvLstat "/src/lib/s"].
Proof. split; vm_compute; reflexivity. Qed.

(** ** Path composition after registration *)

(** C7 (amended): after [addFolder a] has attached its sub-folders, every
    descendant's effective path is the top-level name and the names down to
    the descendant joined by slashes - a/b/c for a grandchild c of a child
    b - provided the top-level name is not empty and no descriptor object
    occurs at two places of the tree handed in. *)
Theorem C7_path_composition n env a ex subs st st' c ns d :
  a <> "" ->
  NoDup (flat_map (nodes n (heap st)) subs) ->
  addFolder n env a ex (Some subs) st = (Ok tt, st') ->
  c ∈ subs -> chain (heap st) c ns d ->
  effective_path (heap st') d = Some (join_path (a :: ns)).
Proof.
  intros Ha Hnd H Hc Hch. rewrite addFolder_unfold in H.
  apply bindM_Ok_inv in H as (subs' & st1 & E1 & H).
  apply bindM_Ok_inv in H as (b & st2 & E2 & H).
  apply validateFolder_only_trace in E2 as (Hh2 & _).
  assert (heap st' = heap st1) as ->.
  { destruct b; simpl in H; invc H; simpl; congruence. }
  simpl in E1. apply bindM_Ok_inv in E1 as (xs & st1' & E1 & Hret). invc Hret.
  eapply (array_map_paths n a Ha); eauto.
  intros. eapply addParentPath_paths; eauto.
Qed.

Lemma C7_witness :
  effective_path
    (heap (snd (addFolder 3 sample_env "a" None (Some [1%positive]) sample_state)))
    2%positive = Some "a/b/c".
Proof.
  apply (C7_path_composition 3 sample_env "a" None [1%positive] sample_state _
           1%positive ["b"; "c"] 2%positive).
  - discriminate.
  - apply (bool_decide_unpack _). vm_compute. exact I.
  - vm_compute. reflexivity.
  - apply list_elem_of_here.
  - apply (chain_step _ 1%positive (mkFolder None "b" None (Some [2%positive]))
             [2%positive] 2%positive ["c"]).
    + vm_compute. reflexivity.
    + reflexivity.
    + apply list_elem_of_here.
    + apply (chain_here _ 2%positive (mkFolder None "c" None None)).
      vm_compute. reflexivity.
Defined.

(** C7, counterexample: below a top-level folder of the empty name (the
    source root itself) a child's effective path lacks the slash the joined
    names have; and an object held by two parents carries the path of the
    parent stamped last: with c held by b and by b2, the registration of a
    succeeds - a/b2/c exists - and the node c that the forest holds below b
    has the effective path a/b2/c. *)
Lemma C7_counterexample :
  (let st := snd (addFolder 3 sample_env "" None (Some [1%positive]) sample_state) in
   fst (addFolder 3 sample_env "" None (Some [1%positive]) sample_state) = Ok tt
   /\ chain (heap sample_state) 1%positive ["b"] 1%positive
   /\ effective_path (heap st) 1%positive = Some "b"
   /\ join_path [""; "b"] = "/b")
  /\
  (let h := mkState shared_heap None [] shared_fs [] in
   let r := addFolder 3 sample_env "a" None (Some [1%positive; 3%positive]) h in
   fst r = Ok tt
   /\ this_folders (snd r) = [literal "a" None (Some [1%positive; 3%positive])]
   /\ chain (heap h) 1%positive ["b"; "c"] 2%positive
   /\ effective_path (heap (snd r)) 2%positive = Some "a/b2/c"
   /\ join_path ["a"; "b"; "c"] = "a/b/c").
Proof.
  split; repeat split; try (vm_compute; reflexivity).
  - apply (chain_here _ 1%positive (mkFolder None "b" None (Some [2%positive]))).
    vm_compute. reflexivity.
  - apply (chain_step _ 1%positive (mkFolder None "b" None (Some [2%positive]))
             [2%positive] 2%positive ["c"]); try (vm_compute; reflexivity).
    + apply list_elem_of_here.
    + apply (chain_here _ 2%positive (mkFolder None "c" None None)).
      vm_compute. reflexivity.
Defined.

(** ** The writes of a traversal *)

Lemma last_event_cons prev e tr : last_event prev (e :: tr) = last_event (Some e) tr.
Proof.
  unfold last_event. destruct tr as [|e' tr]; [done|].
  change (last (e :: e' :: tr)) with (last (e' :: tr)).
  by destruct (last (e' :: tr)) eqn:E; [|apply last_None in E].
Qed.

Lemma transformed_writes_app T tr' : forall tr prev,
  transformed_writes T prev (tr ++ tr')
  <-> transformed_writes T prev tr /\ transformed_writes T (last_event prev tr) tr'.
Proof.
  induction tr as [|e tr IH]; intros prev.
  - simpl. unfold last_event. simpl. tauto.
  - rewrite last_event_cons. simpl. rewrite IH. tauto.
Qed.

Lemma transformed_writes_quiet T evs : forall prev,
  Forall (fun e => is_write e = false) evs -> transformed_writes T prev evs.
Proof.
  induction evs as [|e evs IH]; intros prev Hq; simpl; [done|].
  apply Forall_cons in Hq as [He Hq]. split; [|auto].
  by destruct e.
Qed.

Section Traversal.

Variable env : Env.

Local Abbreviation I := (writes_transformed env).

Lemma I_quiet {A} (m : M A) st r st' : quiet m -> m st = (r, st') -> I st -> I st'.
Proof.
  intros Hq Hm HI. destruct (Hq _ _ _ Hm) as (evs & Htr & Hevs).
  unfold writes_transformed. rewrite Htr. apply transformed_writes_app.
  split; [done|]. by apply transformed_writes_quiet.
Qed.

(** *** Quiet actions *)

Lemma quiet_ret {A} (a : A) : quiet (ret a).
Proof. intros st r st' H. invc H. exists []. by rewrite app_nil_r. Qed.

Lemma quiet_throw {A} msg : quiet (@throw A msg).
Proof. intros st r st' H. invc H. exists []. by rewrite app_nil_r. Qed.

Lemma quiet_stuck {A} : quiet (@stuck A).
Proof. intros st r st' H. invc H. exists []. by rewrite app_nil_r. Qed.

Lemma quiet_get {A} (f : state -> A) : quiet (get f).
Proof. intros st r st' H. invc H. exists []. by rewrite app_nil_r. Qed.

Lemma quiet_set_fs r0 : quiet (set_fs r0).
Proof. intros st r st' H. invc H. exists []. simpl. by rewrite app_nil_r. Qed.

Lemma quiet_deref l : quiet (deref l).
Proof.
  intros st r st' H. unfold deref in H.
  destruct (heap st !! l); invc H; exists []; by rewrite app_nil_r.
Qed.

Lemma quiet_emit e : is_write e = false -> quiet (emit e).
Proof.
  intros He st r st' H. invc H. exists [e]. simpl. split; [done|].
  by apply Forall_singleton.
Qed.

Lemma quiet_bind {A B} (m : M A) (k : A -> M B) :
  quiet m -> (forall a, quiet (k a)) -> quiet (bindM m k).
Proof.
  intros Hm Hk st r st' H. unfold bindM in H.
  destruct (m st) as [[a|e|] st1] eqn:E; destruct (Hm _ _ _ E) as (evs1 & Ht1 & Hq1).
  - destruct (Hk a _ _ _ H) as (evs2 & Ht2 & Hq2).
    exists (evs1 ++ evs2). rewrite Ht2, Ht1, app_assoc. split; [done|].
    by apply Forall_app.
  - invc H. eauto.
  - invc H. eauto.
Qed.

Lemma quiet_forEach {A} (f : A -> M unit) xs :
  (forall x, quiet (f x)) -> quiet (forEach f xs).
Proof.
  intros Hf. induction xs as [|x xs IH]; simpl; [apply quiet_ret|].
  apply quiet_bind; auto.
Qed.

Ltac quiet_match :=
  match goal with
  | |- quiet (match ?x with _ => _ end) => destruct x
  | |- quiet (if ?x then _ else _) => destruct x
  end.

Ltac quiet :=
  repeat first
    [ apply quiet_ret | apply quiet_throw | apply quiet_stuck | apply quiet_get
    | apply quiet_set_fs | apply quiet_deref | (apply quiet_emit; reflexivity)
    | (apply quiet_bind; [|intro]) | (apply quiet_forEach; intro)
    | quiet_match ].

Lemma quiet_lstatSync p : quiet (lstatSync p).
Proof. unfold lstatSync. quiet. Qed.

Lemma quiet_mkdirSync p : quiet (mkdirSync p).
Proof. unfold mkdirSync. quiet. Qed.

Lemma quiet_readdirSync p : quiet (readdirSync p).
Proof. unfold readdirSync. quiet. Qed.

Lemma quiet_readFileSync p : quiet (readFileSync p).
Proof. unfold readFileSync. quiet. Qed.

Lemma quiet_rmdirSync p : quiet (rmdirSync p).
Proof. unfold rmdirSync, remove_entry. quiet. Qed.

Lemma quiet_unlinkSync p : quiet (unlinkSync p).
Proof. unfold unlinkSync, remove_entry. quiet. Qed.

Lemma quiet_checkFile file dir error bp : quiet (checkFile env file dir error bp).
Proof. unfold checkFile. apply quiet_bind; [apply quiet_lstatSync|]. intro. quiet. Qed.

Lemma quiet_removeOutdirFiles : quiet (removeOutdirFiles env).
Proof.
  unfold removeOutdirFiles. apply quiet_bind; [quiet|]. intro.
  apply quiet_bind; [apply quiet_readdirSync|]. intro.
  apply quiet_forEach. intro.
  apply quiet_bind; [apply quiet_checkFile|]. intros [s|]; [|quiet].
  destruct (isDirectory s); [apply quiet_rmdirSync|].
  destruct (isFile s); [apply quiet_unlinkSync | quiet].
Qed.

Lemma quiet_console_log msg : quiet (console_log msg).
Proof. unfold console_log. quiet. Qed.

Lemma transformed_write code st p :
  transformed env code st -> I (run_emit (EvWrite p code) st).
Proof.
  intros (tr & text & Htr & HT & Hw). unfold writes_transformed, run_emit. simpl.
  rewrite Htr, <- app_assoc. apply transformed_writes_app. split; [done|].
  simpl. split; [done|]. split; [|done].
  unfold last_event. destruct (last tr); done.
Qed.

(** [transformFile] hands the transpiler the text it has read. *)
Lemma transformFile_reads p st code st' :
  transformFile env p st = (Ok code, st') ->
  exists q text, walk (fs st) [] (resolve p) = Exists q
               /\ fs_lookup q (fs st) = Some (File text)
               /\ transformSync env text = Some code
               /\ trace st' = trace st ++ [EvReadFile p; EvTransform text]
               /\ fs st' = fs st.
Proof.
  intros H. unfold transformFile in H.
  apply bindM_Ok_inv in H as (text & st1 & E1 & H).
  apply bindM_Ok_inv in H as ([] & st2 & E2 & H).
  invc E2. destruct (transformSync env text) as [out|] eqn:ET; invc H.
  unfold readFileSync, bindM in E1. simpl in E1.
  destruct (walk (fs st) [] (resolve p)) as [q|q| |] eqn:Ew; try by invc E1.
  destruct (fs_lookup q (fs st)) as [[c|es]|] eqn:El; invc E1.
  exists q, text. simpl. by rewrite <- app_assoc.
Qed.

Lemma transformFile_quiet p : quiet (transformFile env p).
Proof.
  unfold transformFile. apply quiet_bind; [apply quiet_readFileSync|]. intro. quiet.
Qed.

Lemma transformFile_transformed p st code st' :
  I st -> transformFile env p st = (Ok code, st') -> transformed env code st'.
Proof.
  intros HI H. unfold transformFile in H.
  apply bindM_Ok_inv in H as (text & st1 & E1 & H).
  apply bindM_Ok_inv in H as ([] & st2 & E2 & H).
  invc E2. destruct (transformSync env text) as [out|] eqn:ET; invc H.
  exists (trace st1), text. simpl. split; [done|]. split; [done|].
  eapply (I_quiet _ _ _ _ (quiet_readFileSync p)); eauto.
Qed.

(** *** Rules for tasks *)

Lemma safe_mono {A} (t : async A) : forall (pre pre' : state -> Prop)
  (post post' : A -> state -> Prop),
  (forall st, pre' st -> pre st) -> (forall a st, post a st -> post' a st) ->
  safe I t pre post -> safe I t pre' post'.
Proof.
  induction t as [A a|A msg|A B m k IH|A p code k IH|A k IH|A c IHc k IHk];
    intros pre pre' post post' Hpre Hpost H; simpl in *.
  - auto.
  - auto.
  - destruct H as [H1 H2]. split; [eauto|].
    intros b. eapply IH; [| |apply H2]; [|done].
    intros st' (st & ? & ?). eauto.
  - destruct H as [H1 H2]. split; [eauto|]. intros r. eapply IH; [| |apply H2]; done.
  - destruct H as [H1 H2]. split; [eauto|]. eapply IH; [| |apply H2]; done.
  - destruct H as [H1 H2]. split.
    + eapply IHc; [| |apply H1]; done.
    + eapply IHk; [| |apply H2]; done.
Qed.

Lemma safe_abind {A B} (t : async A) : forall (f : A -> async B)
  (pre : state -> Prop) (mid : A -> state -> Prop) (post : B -> state -> Prop),
  safe I t pre mid -> (forall a, safe I (f a) (mid a) post) ->
  safe I (abind t f) pre post.
Proof.
  induction t as [A a|A msg|A C m k IH|A p code k IH|A k IH|A c IHc k IHk];
    intros f pre mid post H Hf; simpl in *.
  - eapply safe_mono; [| |apply Hf]; [|done]. auto.
  - auto.
  - destruct H as [H1 H2]. split; [done|]. intros b. eapply IH; eauto.
  - destruct H as [H1 H2]. split; [done|]. intros r. eapply IH; eauto.
  - destruct H as [H1 H2]. split; [done|]. eapply IH; eauto.
  - destruct H as [H1 H2]. split; [done|]. eapply IHk; eauto.
Qed.

Lemma safe_Do {A B} (m : M B) (k : B -> async A) pre post :
  (forall st r st', pre st -> m st = (r, st') -> (forall b, r <> Ok b) -> I st') ->
  (forall b, safe I (k b) (fun st' => exists st, pre st /\ m st = (Ok b, st')) post) ->
  safe I (Do m k) pre post.
Proof. intros H1 H2. simpl. by split. Qed.

Lemma safe_Do_quiet {A B} (m : M B) (k : B -> async A) post :
  quiet m -> (forall b, safe I (k b) I post) -> safe I (Do m k) I post.
Proof.
  intros Hq Hk. simpl. split.
  - intros st r st' HI Hm _. eapply I_quiet; eauto.
  - intros b. eapply safe_mono; [| |apply Hk]; [|done].
    intros st' (st & HI & Hm). eapply I_quiet; eauto.
Qed.

Lemma safe_Await {A} (c : async A) pre :
  safe I c pre (fun _ => I) -> safe I (Await c) pre (fun _ => I).
Proof.
  intros Hc. unfold Await. eapply safe_abind; [exact Hc|].
  intros a. simpl. auto.
Qed.

Lemma safe_for_of {A} (body : A -> async unit) xs :
  (forall x, safe I (body x) I (fun _ => I)) ->
  safe I (for_of xs body) I (fun _ => I).
Proof.
  intros Hb. induction xs as [|x xs IH]; simpl; [auto|].
  eapply safe_abind; [apply Hb|]. auto.
Qed.

Lemma safe_forEach_async {A} (f : A -> async unit) xs :
  (forall x, safe I (f x) I (fun _ => I)) ->
  safe I (forEach_async xs f) I (fun _ => I).
Proof. intros Hf. induction xs as [|x xs IH]; simpl; auto. Qed.

Lemma addTransformedFile_safe p code :
  safe I (addTransformedFile p code) (transformed env code) (fun _ => I).
Proof.
  unfold addTransformedFile. simpl. split.
  - intros st. apply transformed_write.
  - intros [bytes|]; simpl; auto.
Qed.

Lemma transformFolder_unfold n folder :
  transformFolder (S n) env folder =
  let bp := base_path folder in
  Do (readdirSync (meta_dir env +:+ "/" +:+ bp)) (fun entries =>
  let files := kept_files folder entries in
  Do (let* out := get outdir_text in
      mkdirSync (cwd env +:+ "/" +:+ out +:+ "/" +:+ bp)) (fun _ =>
  abind (for_of files (fun file =>
    Do (transformFile env (meta_dir env +:+ "/" +:+ bp +:+ "/" +:+ file)) (fun code =>
    Do (get outdir_text) (fun out =>
    let out_path :=
      cwd env +:+ "/" +:+ out +:+ "/" +:+ bp +:+ "/" +:+ out_name file in
    abind (Await (addTransformedFile out_path code)) (fun bytes =>
    Do (console_log ("wrote file: " +:+ quoted out_path +:+ " ("
                     +:+ pretty bytes +:+ " bytes)")) (fun _ =>
    Return tt)))))) (fun _ =>
  match folders folder with
  | Some fs => forEach_async fs (fun f => Do (deref f) (transformFolder n env))
  | None => Return tt
  end))).
Proof. reflexivity. Qed.

Lemma transformFolder_safe n : forall folder,
  safe I (transformFolder n env folder) I (fun _ => I).
Proof.
  induction n as [|n IH]; intros folder.
  - apply safe_Do_quiet; [apply quiet_stuck|]. intros []. simpl. auto.
  - rewrite transformFolder_unfold. cbv zeta.
    apply safe_Do_quiet; [apply quiet_readdirSync|]. intros entries.
    apply safe_Do_quiet.
    { apply quiet_bind; [quiet|]. intro. apply quiet_mkdirSync. }
    intros _. eapply safe_abind.
    + apply safe_for_of. intros file. apply safe_Do.
      * intros st r st' HI Hm _. eapply I_quiet; eauto. apply transformFile_quiet.
      * intros code. apply safe_Do.
        -- intros st r st' (st0 & HI & Hm) Hg Hne. invc Hg. by destruct (Hne (outdir_text st')).
        -- intros out. eapply safe_abind.
           ++ apply safe_Await. eapply safe_mono; [| |apply addTransformedFile_safe].
              ** intros st' (st1 & (st0 & HI & Hm) & Hg). invc Hg.
                 eapply transformFile_transformed; eauto.
              ** done.
           ++ intros bytes. apply safe_Do_quiet; [apply quiet_console_log|].
              intros []. simpl. auto.
    + intros []. destruct (folders folder) as [fs|]; [|simpl; auto].
      apply safe_forEach_async. intros f.
      apply safe_Do_quiet; [apply quiet_deref|]. apply IH.
Qed.

Lemma transform_safe n : safe I (transform n env) I (fun _ => I).
Proof.
  unfold transform.
  apply safe_Do_quiet.
  { apply quiet_bind; [quiet|]. intro. apply quiet_lstatSync. }
  intros bundle_folder. apply safe_Do_quiet.
  { apply quiet_bind; [quiet|]. intro. destruct bundle_folder as [s|].
    - destruct (negb (isDirectory s)); quiet.
    - apply quiet_mkdirSync. }
  intros _. apply safe_Do_quiet; [apply quiet_removeOutdirFiles|].
  intros _. apply safe_Do_quiet; [quiet|].
  intros registered. apply safe_for_of. intros folder.
  apply safe_Await, transformFolder_safe.
Qed.

(** *** Turns keep the invariant *)

Lemma turn_safe {A} (t : async A) : forall pre post st spawned,
  safe I t pre post -> pre st -> Forall (resumable env) spawned ->
  match turn t st spawned with
  | (s, st', spawned') =>
      Forall (resumable env) spawned' /\
      match s with
      | Finished (Ok a) => post a st'
      | Finished _ => I st'
      | Suspended k => I st' /\ safe I k I post
      end
  end.
Proof.
  induction t as [A a|A msg|A B m k IH|A p code k IH|A k IH|A c IHc k IHk];
    intros pre post st spawned H Hpre Hsp; simpl in *.
  - auto.
  - auto.
  - destruct H as [H1 H2]. destruct (m st) as [[b|e|] st1] eqn:E.
    + apply (IH b (fun st' => exists st0, pre st0 /\ m st0 = (Ok b, st')) post
                st1 spawned (H2 b)); [eauto | done].
    + split; [done|]. eapply H1; eauto.
    + split; [done|]. eapply H1; eauto.
  - destruct H as [H1 H2]. specialize (H1 _ Hpre).
    destruct (bun_write p code _) as [[r bytes]|]; (split; [done|]); split; auto.
  - destruct H as [H1 H2]. auto.
  - destruct H as [H1 H2].
    specialize (IHc pre (fun _ => I) st spawned H1 Hpre Hsp).
    destruct (turn c st spawned) as [[[[[]|e|]|kc] st1] spawned1];
      destruct IHc as [Hsp1 Hc].
    + eapply IHk; eauto.
    + eapply IHk; eauto.
      eapply (I_quiet (emit (EvUnhandledRejection e))); [| |exact Hc]; [|reflexivity].
      by apply quiet_emit.
    + done.
    + destruct Hc as [HI Hkc]. eapply IHk; eauto.
      apply Forall_app. split; [done|]. by apply Forall_singleton.
Qed.

Lemma pick_Forall {T} (P : T -> Prop) ts : forall i x rest,
  Forall P ts -> pick i ts = Some (x, rest) -> P x /\ Forall P rest.
Proof.
  induction ts as [|t ts IH]; intros i x rest Hts Hp; simpl in Hp; [discriminate|].
  apply Forall_cons in Hts as [Ht Hts].
  destruct ts as [|t' ts']; [by invc Hp|].
  destruct i as [|i]; [invc Hp; auto|].
  destruct (pick i (t' :: ts')) as [[u r]|] eqn:E; [|discriminate].
  invc Hp. destruct (IH _ _ _ Hts E) as [? ?]. auto.
Qed.

Lemma children_ok spawned :
  Forall (resumable env) spawned -> Forall (fun t => resumable env (snd t)) (children spawned).
Proof. unfold children. intros H. apply Forall_map. exact H. Qed.

Lemma call_ok t st :
  safe I t I (fun _ => I) -> I st -> loop_ok env (call t st).
Proof.
  intros Ht HI. unfold call.
  pose proof (turn_safe t _ _ st [] Ht HI (Forall_nil_2 _)) as H.
  destruct (turn t st []) as [[[[[]|e|]|k] st'] spawned]; destruct H as [Hsp H];
    split; simpl; try done; try by apply children_ok.
  - tauto.
  - destruct H as [_ H]. apply Forall_app. split; [by apply children_ok|].
    by apply Forall_singleton.
Qed.

Lemma step_ok i l : loop_ok env l -> loop_ok env (step i l).
Proof.
  intros [HI Hp]. unfold step.
  destruct (pick i (pool l)) as [[[main t] rest]|] eqn:E; [|done].
  destruct (pick_Forall _ _ _ _ _ Hp E) as [Ht Hrest]. simpl in Ht.
  pose proof (turn_safe t _ _ (now l) [] Ht HI (Forall_nil_2 _)) as H.
  destruct (turn t (now l) []) as [[[r|k] st'] spawned]; destruct H as [Hsp H].
  - assert (I st') as HI' by (by destruct r as [[]|e|]).
    assert (Forall (fun t => resumable env (snd t)) (rest ++ children spawned)) as Hpool.
    { apply Forall_app. split; [done | by apply children_ok]. }
    unfold settle. destruct main; [done|].
    destruct r as [[]|e|]; split; simpl; try done.
    eapply (I_quiet (emit (EvUnhandledRejection e))); [| |exact HI']; [|reflexivity].
    by apply quiet_emit.
  - destruct H as [HI' Hk]. split; [done|]. simpl.
    apply Forall_app. split; [done|].
    apply Forall_app. split; [by apply children_ok|]. by apply Forall_singleton.
Qed.

Lemma run_ok sched : forall l, loop_ok env l -> loop_ok env (run sched l).
Proof.
  induction sched as [|i sched IH]; intros l Hl; simpl; [done|].
  apply IH. by apply step_ok.
Qed.

End Traversal.

(** No file is copied verbatim.  In every run of a traversal, under every
    schedule, whatever is handed to [Bun.write] is the transpiler's output
    for the text of the [transformSync] call just before it. *)
Lemma every_write_is_transformed n env st sched :
  writes_transformed env st ->
  writes_transformed env (now (run sched (call (transform n env) st))).
Proof.
  intros HI. apply run_ok, call_ok; [apply transform_safe | exact HI].
Qed.


(** ** The end-to-end example *)

Lemma run_quiescent sched l : pool l = [] -> run sched l = l.
Proof.
  revert l. induction sched as [|i sched IH]; intros l Hl; simpl.
  - done.
  - assert (step i l = l) as -> by (unfold step; rewrite Hl; reflexivity). auto.
Qed.

(** *** Emptying the output directory *)

Lemma resolve_in_dist k :
  entry_name k = true -> resolve ("/work/dist/" +:+ k) = ["work"; "dist"; k].
Proof.
  intros [Hne Hns]%andb_true_iff. unfold resolve.
  change ("/work/dist/" +:+ k) with
    (String "/" (String "w" (String "o" (String "r" (String "k" (String "/"
      (String "d" (String "i" (String "s" (String "t" (String "/" k))))))))))).
  cbn [segments is_slash Ascii.eqb Bool.eqb]. rewrite (segments_entry_name k Hns).
  cbn. by rewrite Hne.
Qed.

Lemma lookup_in_dist src k nd es :
  fs_lookup ["work"; "dist"; k] (outdir_fs src ((k, nd) :: es)) = Some nd.
Proof. simpl. by rewrite String.eqb_refl. Qed.

Lemma remove_in_dist src k nd es :
  fs_put ["work"; "dist"; k] None (outdir_fs src ((k, nd) :: es))
  = Some (outdir_fs src es).
Proof. simpl. by rewrite String.eqb_refl. Qed.

Section Wipe.

Variable env : Env.
Hypothesis Hcwd : cwd env = "/work".
Hypothesis Hmeta : meta_dir env = "/src".

Lemma wipe_body_head src k nd es h o f tr :
  entry_name k = true ->
  wipe_body env k (mkState h o f (outdir_fs src ((k, nd) :: es)) tr)
  = (Ok tt, mkState h o f (outdir_fs src es) (tr ++ wipe_events [(k, nd)])).
Proof.
  intros Hk. unfold wipe_body. rewrite Hcwd.
  change ("/work" +:+ "/" +:+ "dist" +:+ "/" +:+ k) with ("/work/dist/" +:+ k).
  change ("/work" +:+ "/" +:+ "dist") with "/work/dist".
  unfold checkFile. rewrite Hmeta.
  change ("/work/dist" +:+ "/" +:+ k) with ("/work/dist/" +:+ k).
  unfold bindM at 1. unfold bindM at 1.
  rewrite (lstatSync_found _ _ nd)
    by (cbn [fs]; rewrite (resolve_in_dist k Hk); apply lookup_in_dist).
  change (Js.strict_ne "/work/dist" "/src") with true.
  cbv iota. unfold ret at 1.
  destruct nd as [c|entries]; cbn [stat_of isDirectory isFile].
  - erewrite unlinkSync_eq;
      [| cbn [fs logged]; rewrite (resolve_in_dist k Hk); apply lookup_in_dist
       | cbn [fs logged]; rewrite (resolve_in_dist k Hk); apply remove_in_dist].
    cbn [fs logged heap this_outdir this_folders trace wipe_events flat_map fst snd app].
    by rewrite <- app_assoc.
  - erewrite rmdirSync_eq;
      [| cbn [fs logged]; rewrite (resolve_in_dist k Hk); apply lookup_in_dist
       | cbn [fs logged]; rewrite (resolve_in_dist k Hk); apply remove_in_dist].
    cbn [fs logged heap this_outdir this_folders trace wipe_events flat_map fst snd app].
    by rewrite <- app_assoc.
Qed.

Lemma wipe_loop src h o f : forall es tr,
  entry_names es = true ->
  forEach (wipe_body env) (List.map fst es) (mkState h o f (outdir_fs src es) tr)
  = (Ok tt, mkState h o f (outdir_fs src []) (tr ++ wipe_events es)).
Proof.
  induction es as [|[k nd] es IH]; intros tr Hes; cbn [forEach List.map fst].
  - unfold ret. by rewrite app_nil_r.
  - apply andb_true_iff in Hes as [Hk Hes]. unfold bindM.
    rewrite wipe_body_head by done. rewrite IH by done.
    by rewrite <- app_assoc.
Qed.

(** [removeOutdirFiles] empties dist/, whatever it holds. *)
Lemma removeOutdirFiles_wipes src es h f tr :
  entry_names es = true ->
  removeOutdirFiles env (mkState h (Some "dist") f (outdir_fs src es) tr)
  = (Ok tt, mkState h (Some "dist") f (outdir_fs src [])
                    (tr ++ EvReaddir "/work/dist" :: wipe_events es)).
Proof.
  intros Hes.
  change (removeOutdirFiles env (mkState h (Some "dist") f (outdir_fs src es) tr))
    with ((let* files := readdirSync (cwd env +:+ "/" +:+ "dist") in
           forEach (wipe_body env) files) (mkState h (Some "dist") f (outdir_fs src es) tr)).
  rewrite Hcwd. unfold bindM at 1.
  change (readdirSync ("/work" +:+ "/" +:+ "dist")
            (mkState h (Some "dist") f (outdir_fs src es) tr))
    with (Ok (List.map fst es),
          mkState h (Some "dist") f (outdir_fs src es) (tr ++ [EvReaddir "/work/dist"])).
  cbv beta iota. rewrite wipe_loop by done. by rewrite <- app_assoc.
Qed.

End Wipe.

(** *** The run *)

Lemma turn_Do_Ok {A B : Type} (m : M B) (k : B -> async A) st sp b st' :
  m st = (Ok b, st') -> turn (Do m k) st sp = turn (k b) st' sp.
Proof. intros H. simpl. by rewrite H. Qed.

Lemma example_registered n T index util swap old :
  snd ((addFolder (S n) (example_env T) "api" (Some ["util.ts"]) None >> setOutdir "dist")
         (mkState ∅ None [] (example_fs index util swap old) []))
  = mkState ∅ (Some "dist") [mkFolder (Some "") "api" (Some ["util.ts"]) (Some [])]
      (example_fs index util swap old) [EvLstat "/src/api"; EvLstat "/src/api/util.ts"].
Proof. destruct swap, old; vm_compute; reflexivity. Qed.

(** The first statements of [transform]: dist/ is created, or emptied of
    whatever it holds. *)
Lemma transform_prologue n T index util swap old f tr :
  entry_names (default [] old) = true ->
  exists tr',
    turn (transform n (example_env T))
      (mkState ∅ (Some "dist") f (example_fs index util swap old) tr) []
    = turn (transform_loop n (example_env T))
        (mkState ∅ (Some "dist") f
           (outdir_fs [("api", Dir (api_listing index util swap))] []) tr') [].
Proof.
  intros Hold. unfold transform. fold (transform_loop n (example_env T)).
  destruct old as [es|]; cbn [default] in Hold.
  - eexists.
    erewrite turn_Do_Ok by (vm_compute; reflexivity).
    erewrite turn_Do_Ok by (vm_compute; reflexivity).
    erewrite turn_Do_Ok
      by (apply (removeOutdirFiles_wipes (example_env T) eq_refl eq_refl
                   [("api", Dir (api_listing index util swap))] es); exact Hold).
    reflexivity.
  - eexists.
    erewrite turn_Do_Ok by (vm_compute; reflexivity).
    erewrite turn_Do_Ok by (vm_compute; reflexivity).
    erewrite turn_Do_Ok by (vm_compute; reflexivity).
    reflexivity.
Qed.

Lemma example_loop n T index util swap out tr i1 i2 i3 rest :
  T index = Some out ->
  let l := run (i1 :: i2 :: i3 :: rest)
             (call (transform_loop (S n) (example_env T)) (example_ready index util swap tr)) in
  settled l = Some (Ok tt) /\ pool l = []
  /\ fs (now l) = outdir_fs [("api", Dir (api_listing index util swap))]
                    [("api", Dir [("index.js", File out)])].
Proof.
  intros HT. cbn [run].
  destruct swap.
  - match goal with |- context [call ?t ?st] =>
      let v := eval vm_compute in (call t st) in
      replace (call t st) with v by (vm_compute; reflexivity) end.
    rewrite HT. vm_compute.
    rewrite run_quiescent by reflexivity. simpl. done.
  - match goal with |- context [call ?t ?st] =>
      let v := eval vm_compute in (call t st) in
      replace (call t st) with v by (vm_compute; reflexivity) end.
    rewrite HT. vm_compute.
    rewrite run_quiescent by reflexivity. simpl. done.
Qed.

(** C4: with api/ holding index.ts and util.ts, whatever their texts and
    their listing order, and with dist/ absent or left by an earlier run with
    whatever it holds, registering api with util.ts excluded, setting the
    output root to dist and running the traversal to the end - under every
    schedule - fulfils the promise of [transform] and leaves under dist
    exactly api/index.js, holding the transpiler's output for index.ts; the
    source tree is as it was. *)
Theorem C4_end_to_end n T index util swap old out sched :
  T index = Some out ->
  entry_names (default [] old) = true ->
  3 <= length sched ->
  let l := example_run (S n) T index util swap old sched in
  settled l = Some (Ok tt) /\ pool l = []
  /\ fs_lookup (resolve "/work/dist") (fs (now l))
     = Some (Dir [("api", Dir [("index.js", File out)])])
  /\ fs_lookup (resolve "/src") (fs (now l))
     = Some (Dir [("api", Dir (api_listing index util swap))]).
Proof.
  intros HT Hold Hlen.
  destruct sched as [|i1 [|i2 [|i3 rest]]]; simpl in Hlen; try lia.
  unfold example_run. cbv zeta. rewrite example_registered.
  pose proof (example_loop n T index util swap out) as Hl.
  unfold call in *.
  destruct (transform_prologue (S n) T index util swap old
              [mkFolder (Some "") "api" (Some ["util.ts"]) (Some [])]
              [EvLstat "/src/api"; EvLstat "/src/api/util.ts"] Hold) as [tr' ->].
  destruct (Hl tr' i1 i2 i3 rest HT) as (H1 & H2 & H3).
  unfold example_ready in *.
  rewrite H1, H2, H3. repeat split; reflexivity.
Qed.

Lemma C4_witness :
  let l := example_run 1 wrap_text "export {}" "let u" false
             (Some [("api", Dir [("util.js", File "old")]); ("index.js", File "")])
             [0; 0; 0] in
  settled l = Some (Ok tt) /\ pool l = []
  /\ fs_lookup (resolve "/work/dist") (fs (now l))
     = Some (Dir [("api", Dir [("index.js", File "/*export {}*/")])])
  /\ fs_lookup (resolve "/src") (fs (now l))
     = Some (Dir [("api", Dir (api_listing "export {}" "let u" false))]).
Proof.
  apply (C4_end_to_end 0 wrap_text "export {}" "let u" false
           (Some [("api", Dir [("util.js", File "old")]); ("index.js", File "")])
           "/*export {}*/" [0; 0; 0]).
  - reflexivity.
  - reflexivity.
  - simpl. lia.
Defined.

(** ** Sub-folders during a traversal *)

(** C8: the sub-folders of a folder are started one after the other without
    any of them being awaited.  In the turn of the call itself c/y.ts is
    converted and its write issued while the write of b/one.js is pending,
    and three tasks are left suspended; when the caller's task is the next
    to resume, d/ is visited before b/ and c/ are done; and the promise of
    [transform] is fulfilled with both sub-folders still pending. *)
Theorem C8_sub_folders_are_not_awaited :
  let l0 := call (transform 3 fanout_env) fanout_state in
  trace (now l0)
  = [EvLstat "/work/dist"; EvMkdir "/work/dist"; EvReaddir "/work/dist";
     EvReaddir "/src/a"; EvMkdir "/work/dist/a";
     EvReaddir "/src/a/b"; EvMkdir "/work/dist/a/b";
     EvReadFile "/src/a/b/one.ts"; EvTransform "1";
     EvWrite "/work/dist/a/b/one.js" "/*1*/";
     EvReaddir "/src/a/c"; EvMkdir "/work/dist/a/c";
     EvReadFile "/src/a/c/y.ts"; EvTransform "y";
     EvWrite "/work/dist/a/c/y.js" "/*y*/"]
  /\ List.map fst (pool l0) = [false; false; true]
  /\ trace (now (run [2] l0))
     = trace (now l0)
       ++ [EvReaddir "/src/d"; EvMkdir "/work/dist/d";
           EvReadFile "/src/d/z.ts"; EvTransform "z";
           EvWrite "/work/dist/d/z.js" "/*z*/"]
  /\ settled (run [2; 2; 2; 2] l0) = Some (Ok tt)
  /\ List.map fst (pool (run [2; 2; 2; 2] l0)) = [false; false]
  /\ fs_lookup (resolve "/work/dist/a/b/two.js") (fs (now (run [2; 2; 2; 2] l0))) = None.
Proof. repeat split; vm_compute; reflexivity. Qed.

(** * Further properties *)

(** ** The filter and the output name, in general *)

Lemma find_differs ex f :
  Forall (fun x => x <> "") ex ->
  match List.find (fun x => Js.strict_ne x f) ex with
  | Some x => Js.truthy x = true /\ existsb (fun x => Js.strict_ne x f) ex = true
  | None => existsb (fun x => Js.strict_ne x f) ex = false
  end.
Proof.
  induction 1 as [|x ex Hx Hex IH]; simpl; [done|].
  destruct (Js.strict_ne x f) eqn:E; simpl.
  - split; [|done]. unfold Js.truthy. apply negb_true_iff.
    by apply String.eqb_neq.
  - exact IH.
Qed.

(** X1: The filter of line 85, as it behaves: a directory entry is kept when it
    bears a source suffix and the exclusion list holds a name other than the
    entry's own. *)
Theorem keeps_law folder f :
  Forall (fun x => x <> "") (default [] (exclude folder)) ->
  keeps folder f
  = has_source_suffix f
    && existsb (fun x => Js.strict_ne x f) (default [] (exclude folder)).
Proof.
  intros Hne. unfold keeps, has_source_suffix.
  destruct (exclude folder) as [ex|]; simpl in *; [|by rewrite andb_false_r].
  pose proof (find_differs ex f Hne) as H.
  destruct (List.find _ ex) as [x|].
  - destruct H as [-> ->]. by rewrite andb_true_r.
  - rewrite H. by rewrite andb_false_r.
Qed.

Lemma keeps_law_witness :
  keeps (mkFolder (Some "") "api" (Some ["a.ts"; "b.ts"]) (Some [])) "a.ts"
  = has_source_suffix "a.ts"
    && existsb (fun x => Js.strict_ne x "a.ts") ["a.ts"; "b.ts"].
Proof.
  apply (keeps_law (mkFolder (Some "") "api" (Some ["a.ts"; "b.ts"]) (Some [])) "a.ts").
  repeat constructor; discriminate.
Defined.

Lemma existsb_two_names (ex : list string) x y f :
  x ∈ ex -> y ∈ ex -> x <> y -> existsb (fun z => Js.strict_ne z f) ex = true.
Proof.
  intros Hx Hy Hxy. apply existsb_exists.
  destruct (String.eqb x f) eqn:E.
  - apply String.eqb_eq in E. subst f. exists y. split; [by apply list_elem_of_In|].
    unfold Js.strict_ne. apply negb_true_iff, String.eqb_neq. congruence.
  - exists x. split; [by apply list_elem_of_In|].
    unfold Js.strict_ne. by rewrite E.
Qed.

(** X3: With two different names in the exclusion list nothing is excluded:
    every entry with a source suffix is kept, the listed ones included. *)
Theorem two_exclusions_exclude_nothing folder ex x y entries :
  exclude folder = Some ex ->
  Forall (fun x => x <> "") ex ->
  x ∈ ex -> y ∈ ex -> x <> y ->
  kept_files folder entries = List.filter has_source_suffix entries.
Proof.
  intros He Hne Hx Hy Hxy. unfold kept_files.
  apply filter_ext. intros f. rewrite keeps_law by (by rewrite He).
  rewrite He. simpl. rewrite (existsb_two_names ex x y f) by done.
  apply andb_true_r.
Qed.

Lemma two_exclusions_witness :
  kept_files (mkFolder (Some "") "api" (Some ["a.ts"; "b.ts"]) (Some []))
             ["a.ts"; "b.ts"; "c.ts"; "notes.md"]
  = List.filter has_source_suffix ["a.ts"; "b.ts"; "c.ts"; "notes.md"].
Proof.
  apply (two_exclusions_exclude_nothing
           (mkFolder (Some "") "api" (Some ["a.ts"; "b.ts"]) (Some []))
           ["a.ts"; "b.ts"] "a.ts" "b.ts").
  - reflexivity.
  - repeat constructor; discriminate.
  - apply list_elem_of_here.
  - apply list_elem_of_further, list_elem_of_here.
  - discriminate.
Defined.

(** X4: A folder whose exclusion list is absent or empty has none of its files
    converted. *)
Theorem no_exclusions_keep_nothing folder entries :
  default [] (exclude folder) = [] -> kept_files folder entries = [].
Proof.
  intros He. unfold kept_files.
  induction entries as [|f entries IH]; simpl; [done|].
  rewrite keeps_law by (rewrite He; constructor).
  rewrite He. simpl. by rewrite andb_false_r.
Qed.

Lemma no_exclusions_witness :
  kept_files (mkFolder (Some "api") "game" None None) ["main.ts"; "util.js"] = [].
Proof.
  apply (no_exclusions_keep_nothing (mkFolder (Some "api") "game" None None)).
  reflexivity.
Defined.

(** *** The output name *)

Lemma startsWith_ts s :
  Js.startsWith s "ts" = true -> exists r, s = String "t" (String "s" r).
Proof.
  unfold Js.startsWith. destruct s as [|a s]; [done|].
  rewrite prefix_cons. destruct (ascii_dec "t" a) as [<-|]; [|done].
  destruct s as [|b s]; [done|].
  rewrite prefix_cons. destruct (ascii_dec "s" b) as [<-|]; [|done].
  eauto.
Qed.

(** The output name has the length of the file name. *)
Lemma out_name_length f : String.length (out_name f) = String.length f.
Proof.
  unfold out_name. induction f as [|c f IH]; [reflexivity|].
  cbn [Js.replace]. destruct (Js.startsWith (String c f) "ts") eqn:E.
  - apply startsWith_ts in E as [r E]. rewrite E. reflexivity.
  - simpl. by rewrite IH.
Qed.

(** X6: The output name is the file name itself exactly when the name holds no
    "ts" at all; it never differs from it in length. *)
Theorem out_name_fixed f :
  (out_name f = f <-> includes f "ts" = false)
  /\ String.length (out_name f) = String.length f.
Proof.
  split; [|apply out_name_length].
  unfold out_name. induction f as [|c f IH]; [done|].
  cbn [Js.replace includes].
  destruct (Js.startsWith (String c f) "ts") eqn:E.
  - simpl. split; [|done]. intros H.
    apply startsWith_ts in E as [r E]. rewrite E in H. discriminate.
  - simpl. rewrite <- IH. split; [by intros [= ->] | by intros ->].
Qed.

(** X2: With exactly one excluded name the filter is the blocklist: the entries
    kept are those with a source suffix other than the excluded name. *)
Theorem single_exclusion_is_blocklist folder x entries :
  exclude folder = Some [x] -> x <> "" ->
  kept_files folder entries = List.filter (wanted [x]) entries.
Proof.
  intros He Hx. unfold kept_files. apply filter_ext. intros f.
  destruct folder as [p nm ex fs]. simpl in He. subst ex.
  by apply keeps_one_excluded.
Qed.

Lemma single_exclusion_is_blocklist_witness :
  kept_files (mkFolder (Some "") "api" (Some ["util.ts"]) (Some []))
             ["index.ts"; "util.ts"; "notes.md"]
  = List.filter (wanted ["util.ts"]) ["index.ts"; "util.ts"; "notes.md"].
Proof.
  apply (single_exclusion_is_blocklist
           (mkFolder (Some "") "api" (Some ["util.ts"]) (Some [])) "util.ts").
  - reflexivity.
  - discriminate.
Defined.

Lemma replace_ts_suffix (suffix : string) stem :
  Js.startsWith suffix "ts" = false ->
  (forall d r, suffix = String d r -> d <> "s"%char) ->
  includes stem "ts" = false ->
  Js.replace "ts" "js" (stem +:+ suffix) = stem +:+ Js.replace "ts" "js" suffix.
Proof.
  intros Hsuf Hd. induction stem as [|c stem IH]; intros Hno; [reflexivity|].
  cbn [includes] in Hno. apply orb_false_iff in Hno as [Hhead Hno].
  rewrite !app_cons.
  assert (Js.startsWith (String c (stem +:+ suffix)) "ts" = false) as Hp.
  { unfold Js.startsWith in *. rewrite prefix_cons in *.
    destruct (ascii_dec "t" c); [|done].
    destruct stem as [|d stem].
    - rewrite app_empty. destruct suffix as [|d r]; [done|].
      rewrite prefix_cons. destruct (ascii_dec "s" d) as [<-|]; [|done].
      by destruct (Hd _ _ eq_refl).
    - rewrite app_cons, prefix_cons in *.
      destruct (ascii_dec "s" d); [by destruct stem | done]. }
  cbn [Js.replace]. rewrite Hp. f_equal. by apply IH.
Qed.

(** X5: A name whose stem holds no "ts" gets the output name one expects:
    stem.ts becomes stem.js, and stem.js stays stem.js. *)
Theorem out_name_regular stem :
  includes stem "ts" = false ->
  out_name (stem +:+ ".ts") = stem +:+ ".js"
  /\ out_name (stem +:+ ".js") = stem +:+ ".js".
Proof.
  intros Hno. unfold out_name. split.
  - rewrite replace_ts_suffix; [reflexivity|reflexivity| |done].
    intros d r [= <- _]. discriminate.
  - rewrite replace_ts_suffix; [reflexivity|reflexivity| |done].
    intros d r [= <- _]. discriminate.
Qed.

Lemma out_name_regular_witness :
  out_name ("index" +:+ ".ts") = "index" +:+ ".js"
  /\ out_name ("index" +:+ ".js") = "index" +:+ ".js".
Proof. apply (out_name_regular "index"). reflexivity. Defined.

(** ** Outcomes of checkFile and of a registration *)

Section Acts.

Variable o : option string.
Variable ok : event -> Prop.

Lemma acts_ret {A} (a : A) : acts o ok (ret a).
Proof. intros st r st' Ho H. invc H. repeat split; try done. exists []. by rewrite app_nil_r. Qed.

Lemma acts_throw {A} msg : acts o ok (@throw A msg).
Proof. intros st r st' Ho H. invc H. repeat split; try done. exists []. by rewrite app_nil_r. Qed.

Lemma acts_stuck {A} : acts o ok (@stuck A).
Proof. intros st r st' Ho H. invc H. repeat split; try done. exists []. by rewrite app_nil_r. Qed.

Lemma acts_get {A} (f : state -> A) : acts o ok (get f).
Proof. intros st r st' Ho H. invc H. repeat split; try done. exists []. by rewrite app_nil_r. Qed.

Lemma acts_set_fs r0 : acts o ok (set_fs r0).
Proof.
  intros st r st' Ho H. invc H. repeat split; try done. exists []. simpl.
  by rewrite app_nil_r.
Qed.

Lemma acts_deref l : acts o ok (deref l).
Proof.
  intros st r st' Ho H. unfold deref in H.
  destruct (heap st !! l); invc H; (repeat split; try done); exists [];
    by rewrite app_nil_r.
Qed.

Lemma acts_emit e : ok e -> acts o ok (emit e).
Proof.
  intros He st r st' Ho H. invc H. repeat split; try done. exists [e]. simpl.
  split; [done|]. by apply Forall_singleton.
Qed.

Lemma acts_bind {A B} (m : M A) (k : A -> M B) :
  acts o ok m -> (forall a, acts o ok (k a)) -> acts o ok (bindM m k).
Proof.
  intros Hm Hk st r st' Ho H. unfold bindM in H.
  destruct (m st) as [[a|e|] st1] eqn:E;
    destruct (Hm _ _ _ Ho E) as (Hh1 & Ho1 & Hf1 & evs1 & Ht1 & Hq1).
  - destruct (Hk a _ _ _ Ho1 H) as (Hh2 & Ho2 & Hf2 & evs2 & Ht2 & Hq2).
    repeat split; try congruence.
    exists (evs1 ++ evs2). rewrite Ht2, Ht1, app_assoc. split; [done|].
    by apply Forall_app.
  - invc H. repeat split; eauto.
  - invc H. repeat split; eauto.
Qed.

Lemma acts_forEach {A} (f : A -> M unit) xs :
  (forall x, acts o ok (f x)) -> acts o ok (forEach f xs).
Proof.
  intros Hf. induction xs as [|x xs IH]; simpl; [apply acts_ret|].
  apply acts_bind; auto.
Qed.

Lemma acts_lstatSync p : ok (EvLstat p) -> acts o ok (lstatSync p).
Proof.
  intros Hp. unfold lstatSync. apply acts_bind; [by apply acts_emit|].
  intro. apply acts_bind; [apply acts_get|]. intros root.
  destruct (walk root [] (resolve p)); first [apply acts_ret | apply acts_throw].
Qed.

Lemma acts_checkFile env file dir error bp :
  ok (EvLstat (bp +:+ "/" +:+ file)) -> acts o ok (checkFile env file dir error bp).
Proof.
  intros Hp. unfold checkFile. apply acts_bind; [by apply acts_lstatSync|].
  intros [s|]; [|apply acts_throw].
  repeat case_match; first [apply acts_ret | apply acts_throw].
Qed.

Lemma acts_validateFolder n env :
  (forall p, ok (EvLstat p)) -> forall folder, acts o ok (validateFolder n env folder).
Proof.
  intros Hok. induction n as [|n IH]; intros folder; [apply acts_stuck|].
  rewrite validateFolder_unfold.
  intros st r st' Ho H. unfold bindM at 1, get at 1 in H.
  destruct (List.find _ (this_folders st)).
  { revert H. by apply acts_ret. }
  revert H. cbv zeta. revert st r st' Ho.
  change (acts o ok
    (checkFile env (base_path folder) true true (meta_dir env) >>
     match exclude folder with
     | Some ex =>
         forEach (fun f => checkFile env (base_path folder +:+ "/" +:+ f) false true
                             (meta_dir env) >> ret tt) ex
     | None => ret tt
     end >>
     match folders folder with
     | Some fs =>
         forEach (fun f => let* o := deref f in validateFolder n env o >> ret tt) fs
     | None => ret tt
     end >> ret true)).
  apply acts_bind; [by apply acts_checkFile|]. intros _.
  apply acts_bind.
  { destruct (exclude folder); [|apply acts_ret]. apply acts_forEach. intros f.
    apply acts_bind; [by apply acts_checkFile|]. intro. apply acts_ret. }
  intros _. apply acts_bind; [|intro; apply acts_ret].
  destruct (folders folder); [|apply acts_ret]. apply acts_forEach. intros f.
  apply acts_bind; [apply acts_deref|]. intros o'.
  apply acts_bind; [apply IH|]. intro. apply acts_ret.
Qed.

End Acts.

(** *** checkFile *)

(** X7: [checkFile] where [lstat] finds nothing - no entry at the path, and no
    file on the way to it - throws, whatever the flag [error] says, and the
    message calls the entry a folder or a file after the flag [dir] alone;
    nothing but the [lstat] call is performed. *)
Theorem checkFile_missing env file dir error bp st :
  locate (fs st) (bp +:+ "/" +:+ file) = Nothing ->
  checkFile env file dir error bp st
  = (Throw (missing_message dir file bp), logged [EvLstat (bp +:+ "/" +:+ file)] st).
Proof.
  intros H. rewrite checkFile_eq. by rewrite H.
Qed.

Lemma checkFile_missing_witness :
  checkFile sample_env "gone" false false "/work" sample_state
  = (Throw (missing_message false "gone" "/work"),
     logged [EvLstat ("/work" +:+ "/" +:+ "gone")] sample_state).
Proof.
  apply (checkFile_missing sample_env "gone" false false "/work" sample_state).
  vm_compute. reflexivity.
Defined.



(** *** Registration *)

Lemma forEach_app {A} (f : A -> M unit) xs ys st st1 :
  forEach f xs st = (Ok tt, st1) -> forEach f (xs ++ ys) st = forEach f ys st1.
Proof.
  revert st. induction xs as [|x xs IH]; intros st H; simpl in *.
  - by invc H.
  - unfold bindM in *. destruct (f x st) as [[[]|e|] st0]; try discriminate. auto.
Qed.

Lemma names_file_dec root p : names_file root p \/ ~ names_file root p.
Proof.
  unfold names_file. destruct (locate root p) as [[c|es]| |].
  - left. eauto.
  - right. intros [c H]. discriminate.
  - right. intros [c H]. discriminate.
  - right. intros [c H]. discriminate.
Qed.

Lemma first_not_file root (pre : string) ex :
  Forall (fun g => names_file root (pre +:+ g)) ex
  \/ exists ex1 f ex2, ex = ex1 ++ f :: ex2
       /\ Forall (fun g => names_file root (pre +:+ g)) ex1
       /\ ~ names_file root (pre +:+ f).
Proof.
  induction ex as [|g ex IH]; [by left|].
  destruct (names_file_dec root (pre +:+ g)) as [Hg|Hg].
  - destruct IH as [IH|(ex1 & f & ex2 & -> & H1 & Hf)].
    + left. by constructor.
    + right. exists (g :: ex1), f, ex2. split; [done|]. split; [by constructor | done].
  - right. exists [], g, ex. by repeat split.
Qed.

(** What [validateFolder] does on the literal of a registration without
    sub-folders whose name is not registered. *)
Lemma validate_plain n env nm ex st :
  registered nm st = None ->
  validateFolder (S n) env (literal nm ex None) st
  = (checkFile env nm true true (meta_dir env) >>
     forEach (fun f => checkFile env (nm +:+ "/" +:+ f) false true (meta_dir env) >> ret tt)
             (default [] ex) >>
     ret true) st.
Proof.
  intros Hnew. rewrite validateFolder_unfold. unfold bindM at 1, get at 1.
  unfold registered in Hnew. change (name (literal nm ex None)) with nm.
  rewrite Hnew. cbv zeta. change (base_path (literal nm ex None)) with nm.
  cbn [literal exclude folders default forEach].
  apply bindM_ext. intros _ st1 _. apply bindM_ext. intros _ st2 _.
  reflexivity.
Qed.

Lemma addFolder_plain n env nm ex st :
  addFolder n env nm ex None st
  = (let* validated := validateFolder n env (literal nm ex None) in
     if negb validated then ret tt else push (literal nm ex None)) st.
Proof. reflexivity. Qed.

Lemma addFolder_plain_ok n env nm ex st :
  registered nm st = None ->
  names_directory (fs st) (meta_dir env +:+ "/" +:+ nm) ->
  Forall (fun f => names_file (fs st) (meta_dir env +:+ "/" +:+ nm +:+ "/" +:+ f))
         (default [] ex) ->
  addFolder (S n) env nm ex None st
  = (Ok tt,
     mkState (heap st) (this_outdir st) (this_folders st ++ [literal nm ex None]) (fs st)
       (trace st ++ EvLstat (meta_dir env +:+ "/" +:+ nm)
          :: exclusion_events env nm (default [] ex))).
Proof.
  intros Hnew Hdir Hex. rewrite addFolder_plain. unfold bindM at 1.
  rewrite validate_plain by done. unfold bindM at 1.
  rewrite (checkFile_names_directory env nm st Hdir). unfold bindM at 1.
  rewrite forEach_files by exact Hex. rewrite logged_app. reflexivity.
Qed.

Lemma addFolder_plain_bad_exclusion n env nm ex1 f ex2 st :
  registered nm st = None ->
  names_directory (fs st) (meta_dir env +:+ "/" +:+ nm) ->
  Forall (fun g => names_file (fs st) (meta_dir env +:+ "/" +:+ nm +:+ "/" +:+ g)) ex1 ->
  ~ names_file (fs st) (meta_dir env +:+ "/" +:+ nm +:+ "/" +:+ f) ->
  addFolder (S n) env nm (Some (ex1 ++ f :: ex2)) None st
  = (Throw (check_error env false (nm +:+ "/" +:+ f)
              (locate (fs st) (meta_dir env +:+ "/" +:+ nm +:+ "/" +:+ f))),
     logged (EvLstat (meta_dir env +:+ "/" +:+ nm)
               :: exclusion_events env nm (ex1 ++ [f])) st).
Proof.
  intros Hnew Hdir Hex Hf. rewrite addFolder_plain. unfold bindM at 1.
  rewrite validate_plain by done. unfold bindM at 1.
  rewrite (checkFile_names_directory env nm st Hdir). unfold bindM at 1.
  change (default [] (Some (ex1 ++ f :: ex2))) with (ex1 ++ f :: ex2).
  erewrite forEach_app by (apply forEach_files; exact Hex).
  cbn [forEach]. unfold bindM at 1. unfold bindM at 1.
  unfold exclusion_events. rewrite map_app. cbn [List.map].
  rewrite !logged_app. rewrite checkFile_eq. cbn [fs logged].
  destruct (locate (fs st) (meta_dir env +:+ "/" +:+ nm +:+ "/" +:+ f)) as [nd| |] eqn:E.
  - unfold Js.strict_ne. rewrite String.eqb_refl. cbn [negb].
    destruct nd as [c|es']; [destruct Hf; by exists c|].
    cbn [stat_of isDirectory Bool.eqb]. rewrite logged_app. reflexivity.
  - rewrite logged_app. reflexivity.
  - rewrite logged_app. reflexivity.
Qed.

Lemma addFolder_plain_no_folder n env nm ex st :
  registered nm st = None ->
  ~ names_directory (fs st) (meta_dir env +:+ "/" +:+ nm) ->
  addFolder (S n) env nm ex None st
  = (Throw (check_error env true nm (locate (fs st) (meta_dir env +:+ "/" +:+ nm))),
     logged [EvLstat (meta_dir env +:+ "/" +:+ nm)] st).
Proof.
  intros Hnew Hdir. rewrite addFolder_plain. unfold bindM at 1.
  rewrite validate_plain by done. unfold bindM at 1. rewrite checkFile_eq.
  destruct (locate (fs st) (meta_dir env +:+ "/" +:+ nm)) as [nd| |] eqn:E;
    [|reflexivity..].
  unfold Js.strict_ne. rewrite String.eqb_refl. cbn [negb].
  destruct nd as [c|es']; [reflexivity|]. destruct Hdir. by exists es'.
Qed.

(** X10: Without sub-folders, a name that is not registered is registered exactly
    when a directory is found at its path under [import.meta.dir] and a file
    at the path of every excluded name in it; the literal of line 56 is then
    appended. *)
Theorem addFolder_registers_iff n env nm ex st :
  registered nm st = None ->
  (names_directory (fs st) (meta_dir env +:+ "/" +:+ nm)
   /\ Forall (fun f => names_file (fs st) (meta_dir env +:+ "/" +:+ nm +:+ "/" +:+ f))
             (default [] ex))
  <-> exists st', addFolder (S n) env nm ex None st = (Ok tt, st')
                  /\ this_folders st' = this_folders st ++ [literal nm ex None].
Proof.
  intros Hnew. split.
  - intros [Hdir Hex]. eexists. split; [by eapply addFolder_plain_ok|]. reflexivity.
  - intros (st' & H & _).
    assert (names_directory (fs st) (meta_dir env +:+ "/" +:+ nm)) as Hdir.
    { destruct (locate (fs st) (meta_dir env +:+ "/" +:+ nm)) as [[c|es]| |] eqn:E;
        [|by exists es|..];
        (rewrite addFolder_plain_no_folder in H;
          [discriminate|done|intros [es' He]; congruence]). }
    split; [done|].
    destruct (first_not_file (fs st) (meta_dir env +:+ "/" +:+ nm +:+ "/") (default [] ex))
      as [Hall|(ex1 & f & ex2 & Hex & H1 & Hf)].
    + eapply Forall_impl; [exact Hall|]. intros g Hg. cbv beta in Hg.
      by rewrite !app_assoc_s in Hg.
    + exfalso. destruct ex as [ex|]; [|by destruct ex1].
      change (default [] (Some ex)) with ex in Hex. subst ex.
      rewrite (addFolder_plain_bad_exclusion n env nm ex1 f ex2 st) in H;
        [discriminate|done|done| |].
      * eapply Forall_impl; [exact H1|]. intros g Hg. cbv beta in Hg.
        by rewrite !app_assoc_s in Hg.
      * by rewrite !app_assoc_s in Hf.
Qed.

Lemma addFolder_registers_iff_witness :
  names_directory (fs sample_state) (meta_dir sample_env +:+ "/" +:+ "./a/b/..")
  /\ Forall (fun f => names_file (fs sample_state)
                        (meta_dir sample_env +:+ "/" +:+ "./a/b/.." +:+ "/" +:+ f))
            (default [] (Some ["b/keep.ts"])).
Proof.
  apply (addFolder_registers_iff 0 sample_env "./a/b/.." (Some ["b/keep.ts"]) sample_state).
  - reflexivity.
  - eexists. split; vm_compute; reflexivity.
Defined.

(** X11: The excluded names are checked in the order of the list, after the
    folder itself: the first one at whose path under the folder no file is
    found makes the registration throw - "Cannot find file" when nothing is
    found, "Cannot find folder" when a directory is, the error ENOTDIR of
    [lstat] when a file stands on the way - with the path below
    [import.meta.dir] in the message.  The names after it are not looked at,
    and nothing is registered. *)
Theorem addFolder_first_bad_exclusion n env nm ex1 f ex2 st :
  registered nm st = None ->
  names_directory (fs st) (meta_dir env +:+ "/" +:+ nm) ->
  Forall (fun g => names_file (fs st) (meta_dir env +:+ "/" +:+ nm +:+ "/" +:+ g)) ex1 ->
  ~ names_file (fs st) (meta_dir env +:+ "/" +:+ nm +:+ "/" +:+ f) ->
  let r := addFolder (S n) env nm (Some (ex1 ++ f :: ex2)) None st in
  match locate (fs st) (meta_dir env +:+ "/" +:+ nm +:+ "/" +:+ f) with
  | Entry _ =>
      fst r = Throw ("Cannot find folder " +:+ quoted (nm +:+ "/" +:+ f) +:+ " in "
                     +:+ quoted (meta_dir env))
  | Nothing =>
      fst r = Throw ("Cannot find file " +:+ quoted (nm +:+ "/" +:+ f) +:+ " in "
                     +:+ quoted (meta_dir env))
  | Blocked => exists msg, fst r = Throw msg /\ errno "ENOTDIR" msg
  end
  /\ this_folders (snd r) = this_folders st
  /\ trace (snd r)
     = trace st ++ EvLstat (meta_dir env +:+ "/" +:+ nm)
         :: exclusion_events env nm (ex1 ++ [f]).
Proof.
  intros Hnew Hdir Hex Hf r. subst r.
  rewrite (addFolder_plain_bad_exclusion n env nm ex1 f ex2 st) by done.
  split; [|by split]. cbn [fst].
  destruct (locate (fs st) (meta_dir env +:+ "/" +:+ nm +:+ "/" +:+ f)); cbn [check_error];
    [reflexivity | reflexivity |].
  eexists. split; [reflexivity | apply errno_enotdir].
Qed.

Lemma addFolder_first_bad_exclusion_witness :
  let r := addFolder 1 sample_env "a" (Some (["b/keep.ts"] ++ "b/keep.ts/x.ts" :: ["nothing.ts"]))
             None sample_state in
  match locate (fs sample_state)
          (meta_dir sample_env +:+ "/" +:+ "a" +:+ "/" +:+ "b/keep.ts/x.ts") with
  | Entry _ =>
      fst r = Throw ("Cannot find folder " +:+ quoted ("a" +:+ "/" +:+ "b/keep.ts/x.ts")
                     +:+ " in " +:+ quoted (meta_dir sample_env))
  | Nothing =>
      fst r = Throw ("Cannot find file " +:+ quoted ("a" +:+ "/" +:+ "b/keep.ts/x.ts")
                     +:+ " in " +:+ quoted (meta_dir sample_env))
  | Blocked => exists msg, fst r = Throw msg /\ errno "ENOTDIR" msg
  end
  /\ this_folders (snd r) = this_folders sample_state
  /\ trace (snd r)
     = trace sample_state ++ EvLstat (meta_dir sample_env +:+ "/" +:+ "a")
         :: exclusion_events sample_env "a" (["b/keep.ts"] ++ ["b/keep.ts/x.ts"]).
Proof.
  apply (addFolder_first_bad_exclusion 0 sample_env "a" ["b/keep.ts"] "b/keep.ts/x.ts"
           ["nothing.ts"] sample_state).
  - reflexivity.
  - eexists. vm_compute. reflexivity.
  - constructor; [|constructor]. eexists. vm_compute. reflexivity.
  - intros [c H]. vm_compute in H. discriminate.
Defined.



(** *** What a registration touches *)

Lemma addFolder_registry n env nm ex subs st r st' :
  addFolder n env nm ex subs st = (r, st') ->
  this_folders st' = this_folders st
  \/ (r = Ok tt /\ registered nm st = None
      /\ this_folders st' = this_folders st ++ [literal nm ex subs]).
Proof.
  rewrite addFolder_unfold. unfold bindM at 1. intros H.
  destruct (stamp_all n nm subs st) as [[subs'|e|] st1] eqn:E1;
    destruct (stamp_all_stamped _ _ _ _ _ _ E1) as [((_ & Hf1 & _) & _) Hsubs].
  - rewrite (Hsubs _ eq_refl) in H. unfold bindM in H.
    destruct (validateFolder n env _ st1) as [[b|e|] st2] eqn:E2;
      destruct (validateFolder_only_trace _ _ _ _ _ _ E2) as (_ & _ & Hf2 & _).
    + destruct b; simpl in H; invc H.
      * right. split; [done|]. apply validateFolder_true in E2.
        unfold registered in *. simpl in E2. rewrite Hf1 in E2.
        split; [done|]. simpl. by rewrite Hf2, Hf1.
      * left. congruence.
    + invc H. left. congruence.
    + invc H. left. congruence.
  - invc H. by left.
  - invc H. by left.
Qed.

(** X13: A registration only inspects the filesystem.  Whatever its outcome, the
    filesystem and the output root are as before, the operations performed
    are [lstat] calls, no descriptor has changed its name, exclusions or
    children, and the list of registered folders is as before or has the
    new literal appended. *)
Theorem addFolder_inspects_only n env nm ex subs st r st' :
  addFolder n env nm ex subs st = (r, st') ->
  fs st' = fs st /\ this_outdir st' = this_outdir st
  /\ same_skel (heap st) (heap st')
  /\ (exists evs, trace st' = trace st ++ evs /\ Forall (fun e => is_lstat e = true) evs)
  /\ (this_folders st' = this_folders st
      \/ this_folders st' = this_folders st ++ [literal nm ex subs]).
Proof.
  intros H.
  assert (this_folders st' = this_folders st
          \/ this_folders st' = this_folders st ++ [literal nm ex subs]) as Hreg.
  { destruct (addFolder_registry _ _ _ _ _ _ _ _ H) as [?|(_ & _ & ?)]; auto. }
  revert H. rewrite addFolder_unfold. unfold bindM at 1. intros H.
  destruct (stamp_all n nm subs st) as [[subs'|e|] st1] eqn:E1;
    destruct (stamp_all_stamped _ _ _ _ _ _ E1) as [((Ho1 & Hf1 & Hfs1 & Ht1) & Hs1 & _) _].
  2,3: invc H; (split; [done|]); (split; [done|]); (split; [done|]);
    (split; [|exact Hreg]); exists []; by rewrite app_nil_r.
  unfold bindM in H.
  destruct (validateFolder n env _ st1) as [[b|e|] st2] eqn:E2;
    destruct (validateFolder_only_trace _ _ _ _ _ _ E2) as (Hh2 & Ho2 & Hf2 & Hfs2 & _);
    destruct (acts_validateFolder (this_outdir st1) (fun e => is_lstat e = true) n env
                (fun p => eq_refl) _ _ _ _ eq_refl E2) as (_ & _ & _ & evs & Ht2 & Hevs).
  - assert (fs st' = fs st2 /\ this_outdir st' = this_outdir st2
            /\ heap st' = heap st2 /\ trace st' = trace st2) as (? & ? & Hh & ?).
    { destruct b; simpl in H; invc H; by repeat split. }
    split; [congruence|]. split; [congruence|].
    split; [rewrite Hh, Hh2; exact Hs1|].
    split; [|exact Hreg]. exists evs. split; [congruence | done].
  - invc H. split; [congruence|]. split; [congruence|].
    split; [rewrite Hh2; exact Hs1|].
    split; [|exact Hreg]. exists evs. split; [congruence | done].
  - invc H. split; [congruence|]. split; [congruence|].
    split; [rewrite Hh2; exact Hs1|].
    split; [|exact Hreg]. exists evs. split; [congruence | done].
Qed.

Lemma addFolder_inspects_only_witness :
  let r := addFolder 3 sample_env "a" None (Some [1%positive]) sample_state in
  fs (snd r) = fs sample_state /\ this_outdir (snd r) = this_outdir sample_state
  /\ same_skel (heap sample_state) (heap (snd r))
  /\ (exists evs, trace (snd r) = trace sample_state ++ evs
                  /\ Forall (fun e => is_lstat e = true) evs)
  /\ (this_folders (snd r) = this_folders sample_state
      \/ this_folders (snd r)
         = this_folders sample_state ++ [literal "a" None (Some [1%positive])]).
Proof.
  apply (addFolder_inspects_only 3 sample_env "a" None (Some [1%positive]) sample_state
           (fst (addFolder 3 sample_env "a" None (Some [1%positive]) sample_state))).
  by destruct (addFolder 3 sample_env "a" None (Some [1%positive]) sample_state).
Defined.

(** X14: The list of registered folders stays well formed under registration,
    whatever the outcome of the call: no two nodes bear the same name, and
    every node is a literal of line 56 - its parent path is the empty
    string, its exclusion list and its list of children are present. *)
Theorem addFolder_keeps_registry_ok n env nm ex subs st r st' :
  registry_ok st -> addFolder n env nm ex subs st = (r, st') -> registry_ok st'.
Proof.
  intros [Hnd Hlit] H. unfold registry_ok.
  destruct (addFolder_registry _ _ _ _ _ _ _ _ H) as [->|(_ & Hnew & ->)]; [done|].
  split.
  - rewrite fmap_app. apply NoDup_app. split; [done|]. split; [|apply NoDup_singleton].
    apply find_names_None in Hnew. intros x Hx ->%list_elem_of_singleton. done.
  - apply Forall_app. split; [done|]. apply Forall_singleton. simpl. eauto.
Qed.

Lemma addFolder_keeps_registry_ok_witness : registry_ok registered_a.
Proof.
  apply (addFolder_keeps_registry_ok 3 sample_env "a" None (Some [1%positive]) sample_state
           (fst (addFolder 3 sample_env "a" None (Some [1%positive]) sample_state))).
  - split; constructor.
  - unfold registered_a.
    by destruct (addFolder 3 sample_env "a" None (Some [1%positive]) sample_state).
Defined.

(** ** What addParentPath does *)

Lemma array_map_no_throw {A B} (f : A -> M B) :
  (forall x st r st', f x st = (r, st') -> forall msg, r <> Throw msg) ->
  forall xs st r st', array_map f xs st = (r, st') -> forall msg, r <> Throw msg.
Proof.
  intros Hf xs. induction xs as [|x xs IH]; intros st r st' H msg; simpl in H.
  - by invc H.
  - unfold bindM in H. destruct (f x st) as [[y|e|] st1] eqn:E1.
    + destruct (array_map f xs st1) as [[ys|e|] st2] eqn:E2; invc H; try done.
      eapply IH; eauto.
    + by destruct (Hf _ _ _ _ E1 e).
    + by invc H.
Qed.

Lemma update_eq l f st :
  update l f st
  = (Ok tt, mkState (alter f l (heap st)) (this_outdir st) (this_folders st) (fs st)
                    (trace st)).
Proof. reflexivity. Qed.

Lemma addParentPath_outcome n : forall p l st r st',
  addParentPath n p l st = (r, st') ->
  (forall msg, r <> Throw msg)
  /\ forall x, r = Ok x -> exists o, heap st' !! l = Some (set_path p o).
Proof.
  induction n as [|n IH]; intros p l st r st' H.
  - invc H. by split.
  - pose proof (addParentPath_stamped _ _ _ _ _ _ H) as [(_ & Hskel & _) _].
    simpl in H. unfold bindM at 1 in H. unfold deref at 1 in H.
    destruct (heap st !! l) as [o|] eqn:Ho; [|invc H; by split].
    unfold bindM at 1 in H.
    match type of H with context [match ?m st with _ => _ end] =>
      assert (Hmid : forall r1 st1, m st = (r1, st1) -> forall msg, r1 <> Throw msg);
      [|destruct (m st) as [[[]|e|] st1] eqn:E1; pose proof (Hmid _ _ eq_refl) as Hne]
    end.
    { intros r1 st1 H1 msg. destruct (folders o) as [fs|]; [|by invc H1].
      unfold bindM in H1.
      destruct (array_map _ fs st) as [[xs|e|] st0] eqn:E.
      - rewrite update_eq in H1. by invc H1.
      - eapply (array_map_no_throw _ (fun x st r st' H => proj1 (IH _ x st r st' H))) in E.
        by destruct E.
      - by invc H1. }
    + unfold bindM in H. rewrite update_eq in H. invc H. split; [done|].
      intros x _. simpl in *.
      destruct (same_skel_folders _ _ _ _ Hskel Ho) as (o' & Ho' & _).
      rewrite lookup_alter_eq in Ho' |- *.
      destruct (heap st1 !! l) as [o1|]; [|discriminate]. simpl. eauto.
    + by destruct (Hne e).
    + invc H. by split.
Qed.

(** X9: [addParentPath] never throws.  It changes nothing but the heap, and
    there only the parent paths of the objects met from the descriptor - no
    name, exclusion list or list of children.  When it returns, it returns
    the reference it was given, and the object bears the path. *)
Theorem addParentPath_effect n p l st r st' :
  addParentPath n p l st = (r, st') ->
  (forall msg, r <> Throw msg)
  /\ only_heap st st' /\ same_skel (heap st) (heap st')
  /\ (forall l', l' ∉ nodes n (heap st) l -> heap st' !! l' = heap st !! l')
  /\ (forall x, r = Ok x -> x = l /\ path <$> (heap st' !! l) = Some (Some p)).
Proof.
  intros H.
  destruct (addParentPath_stamped _ _ _ _ _ _ H) as [(Ho & Hs & Hf) Hx].
  destruct (addParentPath_outcome _ _ _ _ _ _ H) as [Hne Hp].
  split; [done|]. split; [done|]. split; [done|]. split.
  - intros l' Hl'. apply Hf. simpl. by rewrite app_nil_r.
  - intros x ->. split; [by apply Hx|].
    destruct (Hp x eq_refl) as [o ->]. reflexivity.
Qed.

Lemma addParentPath_effect_witness :
  let r := addParentPath 3 "a" 1%positive sample_state in
  (forall msg, fst r <> Throw msg)
  /\ only_heap sample_state (snd r) /\ same_skel (heap sample_state) (heap (snd r))
  /\ (forall l', l' ∉ nodes 3 (heap sample_state) 1%positive ->
        heap (snd r) !! l' = heap sample_state !! l')
  /\ (forall x, fst r = Ok x ->
        x = 1%positive /\ path <$> (heap (snd r) !! 1%positive) = Some (Some "a")).
Proof.
  apply (addParentPath_effect 3 "a" 1%positive sample_state).
  vm_compute. reflexivity.
Defined.

(** ** Emptying an output directory *)

Lemma removeOutdirFiles_eq env st :
  removeOutdirFiles env st
  = (let* files := readdirSync (outdir_path env st) in
     forEach (remove_one env (outdir_text st)) files) st.
Proof. reflexivity. Qed.

Section Wipe_any.

Variable env : Env.
Variable out : string.

Local Abbreviation dir := (cwd env +:+ "/" +:+ out).

Hypothesis Hmeta : dir <> meta_dir env.
Hypothesis Hroot : resolve dir <> [].

Lemma remove_one_head k nd es st :
  entry_name k = true ->
  fs_lookup (resolve dir) (fs st) = Some (Dir ((k, nd) :: es)) ->
  exists r,
    fs_put (resolve dir) (Some (Dir es)) (fs st) = Some r
    /\ remove_one env out k st
       = (Ok tt, mkState (heap st) (this_outdir st) (this_folders st) r
                   (trace st ++ removal_events dir [(k, nd)])).
Proof.
  intros Hk Hl.
  destruct (fs_put_Some (Some (Dir es)) (resolve dir) (fs st) Hroot) as [r Hr]; [eauto|].
  exists r. split; [done|].
  assert (fs_lookup (resolve (dir +:+ "/" +:+ k)) (fs st) = Some nd) as Hnd.
  { rewrite resolve_child by done. rewrite fs_lookup_app, Hl. simpl.
    by rewrite String.eqb_refl. }
  assert (fs_put (resolve (dir +:+ "/" +:+ k)) None (fs st) = Some r) as Hdel.
  { rewrite resolve_child by done. rewrite (fs_put_child k None _ _ _ Hroot Hl).
    simpl. by rewrite String.eqb_refl. }
  unfold remove_one, bindM. rewrite checkFile_eq, (locate_found _ _ _ Hnd).
  assert (Js.strict_ne dir (meta_dir env) = true) as ->.
  { unfold Js.strict_ne. apply negb_true_iff. by apply String.eqb_neq. }
  assert (cwd env +:+ "/" +:+ out +:+ "/" +:+ k = dir +:+ "/" +:+ k) as ->.
  { by rewrite !app_assoc_s. }
  destruct nd as [c|es']; cbn [stat_of isDirectory isFile].
  - rewrite (unlinkSync_eq _ _ c r) by done. cbn [logged heap this_outdir this_folders trace].
    unfold removal_events. simpl. by rewrite <- app_assoc.
  - rewrite (rmdirSync_eq _ _ es' r) by done. cbn [logged heap this_outdir this_folders trace].
    unfold removal_events. simpl. by rewrite <- app_assoc.
Qed.

Lemma remove_all : forall es st,
  entry_names es = true ->
  fs_lookup (resolve dir) (fs st) = Some (Dir es) ->
  exists r,
    fs_put (resolve dir) (Some (Dir [])) (fs st) = Some r
    /\ forEach (remove_one env out) (List.map fst es) st
       = (Ok tt, mkState (heap st) (this_outdir st) (this_folders st) r
                   (trace st ++ removal_events dir es)).
Proof.
  induction es as [|[k nd] es IH]; intros st Hes Hl.
  - exists (fs st). split; [by apply fs_put_same|].
    simpl. unfold ret. destruct st. simpl. by rewrite app_nil_r.
  - apply andb_true_iff in Hes as [Hk Hes].
    destruct (remove_one_head k nd es st Hk Hl) as (r1 & Hr1 & E1).
    cbn [List.map fst forEach]. unfold bindM. rewrite E1.
    destruct (IH (mkState (heap st) (this_outdir st) (this_folders st) r1
                    (trace st ++ removal_events dir [(k, nd)])) Hes)
      as (r & Hr & E).
    { simpl. by apply (fs_lookup_put _ _ _ _ Hr1). }
    exists r. split.
    + simpl in Hr. by rewrite <- (fs_put_put _ _ _ _ _ Hr1).
    + rewrite E. simpl. by rewrite <- app_assoc.
Qed.

End Wipe_any.



(** ** The first statements of transform *)

Lemma turn_Do_Throw {A B : Type} (m : M B) (k : B -> async A) st sp e st' :
  m st = (Throw e, st') -> turn (Do m k) st sp = (Finished (Throw e), st', sp).
Proof. intros H. simpl. by rewrite H. Qed.

Lemma transform_eq n env :
  transform n env
  = Do (let* out := get outdir_text in lstatSync (cwd env +:+ "/" +:+ out))
       (fun bundle_folder =>
     Do (let* out := get outdir_text in
         match bundle_folder with
         | None => mkdirSync (cwd env +:+ "/" +:+ out)
         | Some s =>
             if negb (isDirectory s) then
               throw ("The outdir file " +:+ quoted out +:+ " in " +:+ quoted (cwd env)
                      +:+ " is not an directory")
             else ret tt
         end) (fun _ =>
     Do (removeOutdirFiles env) (fun _ => transform_loop n env))).
Proof. reflexivity. Qed.

Lemma transform_lstat env st :
  (let* out := get outdir_text in lstatSync (cwd env +:+ "/" +:+ out)) st
  = (match locate (fs st) (outdir_path env st) with
     | Entry n => Ok (Some (stat_of n))
     | Nothing => Ok None
     | Blocked => Throw (enotdir "lstat" (outdir_path env st))
     end, logged [EvLstat (outdir_path env st)] st).
Proof.
  unfold bindM at 1, get at 1.
  change (cwd env +:+ "/" +:+ outdir_text st) with (outdir_path env st).
  apply lstatSync_locate.
Qed.

Lemma transform_lstat_found env st n :
  fs_lookup (resolve (outdir_path env st)) (fs st) = Some n ->
  (let* out := get outdir_text in lstatSync (cwd env +:+ "/" +:+ out)) st
  = (Ok (Some (stat_of n)), logged [EvLstat (outdir_path env st)] st).
Proof. intros H. by rewrite transform_lstat, (locate_found _ _ _ H). Qed.

Lemma transform_turn_file n env st c sp :
  fs_lookup (resolve (outdir_path env st)) (fs st) = Some (File c) ->
  turn (transform n env) st sp
  = (Finished (Throw (not_a_directory_message env st)),
     logged [EvLstat (outdir_path env st)] st, sp).
Proof.
  intros Hl. rewrite transform_eq.
  erewrite turn_Do_Ok by (by apply transform_lstat_found). cbn [stat_of].
  erewrite turn_Do_Throw; reflexivity.
Qed.

Lemma transform_turn_no_parent n env st sp :
  walk (fs st) [] (resolve (outdir_path env st)) = NoEnt ->
  turn (transform n env) st sp
  = (Finished (Throw (enoent "mkdir" (outdir_path env st))),
     logged [EvLstat (outdir_path env st); EvMkdir (outdir_path env st)] st, sp).
Proof.
  intros Hw. rewrite transform_eq.
  erewrite turn_Do_Ok by (rewrite transform_lstat; unfold locate; by rewrite Hw).
  erewrite turn_Do_Throw; [reflexivity|].
  unfold bindM at 1, get at 1.
  change (cwd env +:+ "/" +:+ outdir_text (logged [EvLstat (outdir_path env st)] st))
    with (outdir_path env st).
  rewrite mkdirSync_eq. cbn [fs logged]. rewrite Hw.
  rewrite logged_app. reflexivity.
Qed.

Lemma transform_turn_absent n env st r sp :
  vacant (fs st) (outdir_path env st) ->
  fs_put (resolve (outdir_path env st)) (Some (Dir [])) (fs st) = Some r ->
  turn (transform n env) st sp
  = turn (transform_loop n env)
      (mkState (heap st) (this_outdir st) (this_folders st) r
         (trace st ++ [EvLstat (outdir_path env st); EvMkdir (outdir_path env st);
                       EvReaddir (outdir_path env st)])) sp.
Proof.
  intros Hv Hp. rewrite transform_eq.
  erewrite turn_Do_Ok by (by rewrite transform_lstat, (vacant_locate _ _ Hv)).
  erewrite turn_Do_Ok.
  2:{ unfold bindM at 1, get at 1.
      change (cwd env +:+ "/" +:+ outdir_text (logged [EvLstat (outdir_path env st)] st))
        with (outdir_path env st).
      rewrite mkdirSync_eq. cbn [fs logged]. unfold vacant in Hv. rewrite Hv, Hp.
      reflexivity. }
  erewrite turn_Do_Ok.
  2:{ rewrite removeOutdirFiles_eq. unfold bindM at 1.
      match goal with |- context [readdirSync (outdir_path env ?s)] =>
        change (outdir_path env s) with (outdir_path env st) end.
      rewrite (readdirSync_found _ _ []) by (cbn [fs]; apply (fs_lookup_put _ _ _ _ Hp)).
      cbn [List.map forEach]. reflexivity. }
  unfold logged. cbn [heap this_outdir this_folders fs trace].
  by rewrite <- !app_assoc.
Qed.

Lemma transform_turn_present n env st es sp :
  outdir_path env st <> meta_dir env ->
  resolve (outdir_path env st) <> [] ->
  fs_lookup (resolve (outdir_path env st)) (fs st) = Some (Dir es) ->
  entry_names es = true ->
  exists r,
    fs_put (resolve (outdir_path env st)) (Some (Dir [])) (fs st) = Some r
    /\ turn (transform n env) st sp
       = turn (transform_loop n env)
           (mkState (heap st) (this_outdir st) (this_folders st) r
              (trace st ++ EvLstat (outdir_path env st) :: EvReaddir (outdir_path env st)
                 :: removal_events (outdir_path env st) es)) sp.
Proof.
  intros Hmeta Hroot Hl Hes.
  destruct (remove_all env (outdir_text st) Hmeta Hroot es
              (logged [EvLstat (outdir_path env st); EvReaddir (outdir_path env st)] st)
              Hes Hl) as (r & Hr & E).
  exists r. split; [exact Hr|].
  rewrite transform_eq.
  erewrite turn_Do_Ok by (by apply transform_lstat_found). cbn [stat_of].
  erewrite turn_Do_Ok by reflexivity.
  erewrite turn_Do_Ok.
  2:{ rewrite removeOutdirFiles_eq. unfold bindM at 1.
      match goal with |- context [readdirSync (outdir_path env ?s)] =>
        change (outdir_path env s) with (outdir_path env st) end.
      rewrite (readdirSync_found _ _ es) by exact Hl. rewrite logged_app.
      cbn [app]. exact E. }
  cbn [logged heap this_outdir this_folders fs trace].
  by rewrite <- !app_assoc.
Qed.



(** X17: [mkdirSync] on line 67 is not recursive: when a directory on the way to
    the output root is missing, the promise of [transform] is rejected with
    the error ENOENT of [mkdir] and nothing is created. *)
Theorem transform_needs_parent_of_outdir n env st :
  walk (fs st) [] (resolve (outdir_path env st)) = NoEnt ->
  let l := call (transform n env) st in
  (exists msg, settled l = Some (Throw msg) /\ errno "ENOENT" msg)
  /\ pool l = [] /\ fs (now l) = fs st
  /\ trace (now l) = trace st ++ [EvLstat (outdir_path env st); EvMkdir (outdir_path env st)].
Proof.
  intros Hw l. subst l. unfold call.
  rewrite (transform_turn_no_parent n env st [] Hw). cbn [settled pool now children].
  split; [|done]. eexists. split; [reflexivity | apply errno_enoent].
Qed.

Lemma transform_needs_parent_of_outdir_witness :
  let st := mkState ∅ (Some "./build/dist") [] sample_fs [] in
  let l := call (transform 1 sample_env) st in
  (exists msg, settled l = Some (Throw msg) /\ errno "ENOENT" msg)
  /\ pool l = [] /\ fs (now l) = fs st
  /\ trace (now l)
     = trace st ++ [EvLstat (outdir_path sample_env st); EvMkdir (outdir_path sample_env st)].
Proof.
  apply (transform_needs_parent_of_outdir 1 sample_env
           (mkState ∅ (Some "./build/dist") [] sample_fs [])).
  reflexivity.
Defined.



(** X19: [transform] before any [setOutdir]: the output root is the text
    "undefined".  A directory of that name is looked for in the working
    directory, and created there when nothing bears the name. *)
Theorem transform_without_outdir n env st r :
  this_outdir st = None ->
  fs_lookup (resolve (cwd env +:+ "/" +:+ "undefined")) (fs st) = None ->
  fs_put (resolve (cwd env +:+ "/" +:+ "undefined")) (Some (Dir [])) (fs st) = Some r ->
  call (transform n env) st
  = call (transform_loop n env)
      (mkState (heap st) None (this_folders st) r
         (trace st ++ [EvLstat (cwd env +:+ "/" +:+ "undefined");
                       EvMkdir (cwd env +:+ "/" +:+ "undefined");
                       EvReaddir (cwd env +:+ "/" +:+ "undefined")])).
Proof.
  intros Ho Hl Hr.
  assert (outdir_path env st = cwd env +:+ "/" +:+ "undefined") as Hp.
  { unfold outdir_path, outdir_text. by rewrite Ho. }
  assert (resolve (outdir_path env st) = resolve (cwd env) ++ ["undefined"]) as Hres.
  { rewrite Hp. by apply resolve_child. }
  rewrite <- Hp in *. unfold call.
  rewrite (transform_turn_absent n env st r []); [by rewrite Ho| |exact Hr].
  by apply (vacant_intro _ _ (resolve (cwd env)) "undefined" r (Some (Dir []))).
Qed.

Lemma transform_without_outdir_witness :
  let st := mkState ∅ None [] sample_fs [] in
  call (transform 1 sample_env) st
  = call (transform_loop 1 sample_env)
      (mkState (heap st) None (this_folders st)
         (Dir [("src", Dir [("a", Dir [("b", Dir [("c", Dir []); ("keep.ts", File "k")])]);
                            ("b", Dir [("c", Dir [])]);
                            ("lib", Dir [("s", Dir [])])]);
               ("work", Dir [("undefined", Dir [])])])
         (trace st ++ [EvLstat (cwd sample_env +:+ "/" +:+ "undefined");
                       EvMkdir (cwd sample_env +:+ "/" +:+ "undefined");
                       EvReaddir (cwd sample_env +:+ "/" +:+ "undefined")])).
Proof.
  apply (transform_without_outdir 1 sample_env (mkState ∅ None [] sample_fs [])).
  - reflexivity.
  - reflexivity.
  - reflexivity.
Defined.

(** ** Invariants of a traversal *)

Lemma outdir_text_of st : outdir_text st = text_of (this_outdir st).
Proof. unfold outdir_text, text_of. by destruct (this_outdir st). Qed.

Lemma within_self root : within root root.
Proof. by left. Qed.

Lemma within_child root rest : within root (root +:+ "/" +:+ rest).
Proof. right. eauto. Qed.

(** *** Actions that leave the engine alone *)

Section Acts_primitives.

Variable o : option string.
Variable ok : event -> Prop.

Lemma acts_get_outdir {A} (k : string -> M A) :
  acts o ok (k (text_of o)) -> acts o ok (let* out := get outdir_text in k out).
Proof.
  intros Hk st r st' Ho H. unfold bindM, get in H.
  rewrite outdir_text_of, Ho in H. eauto.
Qed.

Lemma acts_mkdirSync p : ok (EvMkdir p) -> acts o ok (mkdirSync p).
Proof.
  intros Hp. unfold mkdirSync. apply acts_bind; [by apply acts_emit|]. intros _.
  apply acts_bind; [apply acts_get|]. intros root.
  destruct (walk root [] (resolve p)) as [q|q| |]; try apply acts_throw.
  destruct (fs_put q (Some (Dir [])) root); [apply acts_set_fs | apply acts_throw].
Qed.

Lemma acts_readdirSync p : ok (EvReaddir p) -> acts o ok (readdirSync p).
Proof.
  intros Hp. unfold readdirSync. apply acts_bind; [by apply acts_emit|]. intros _.
  apply acts_bind; [apply acts_get|]. intros root.
  destruct (walk root [] (resolve p)) as [q|q| |]; try apply acts_throw.
  destruct (fs_lookup q root) as [[c|es]|]; first [apply acts_ret | apply acts_throw].
Qed.

Lemma acts_readFileSync p : ok (EvReadFile p) -> acts o ok (readFileSync p).
Proof.
  intros Hp. unfold readFileSync. apply acts_bind; [by apply acts_emit|]. intros _.
  apply acts_bind; [apply acts_get|]. intros root.
  destruct (walk root [] (resolve p)) as [q|q| |]; try apply acts_throw.
  destruct (fs_lookup q root) as [[c|es]|]; first [apply acts_ret | apply acts_throw].
Qed.

Lemma acts_remove_entry q c p : acts o ok (remove_entry q c p).
Proof.
  unfold remove_entry. apply acts_bind; [apply acts_get|]. intros root.
  destruct (fs_put q None root); [apply acts_set_fs | apply acts_throw].
Qed.

Lemma acts_rmdirSync p : ok (EvRmdir p) -> acts o ok (rmdirSync p).
Proof.
  intros Hp. unfold rmdirSync. apply acts_bind; [by apply acts_emit|]. intros _.
  apply acts_bind; [apply acts_get|]. intros root.
  destruct (walk root [] (resolve p)) as [q|q| |]; try apply acts_throw.
  destruct (fs_lookup q root) as [[c|es]|];
    first [apply acts_remove_entry | apply acts_throw].
Qed.

Lemma acts_unlinkSync p : ok (EvUnlink p) -> acts o ok (unlinkSync p).
Proof.
  intros Hp. unfold unlinkSync. apply acts_bind; [by apply acts_emit|]. intros _.
  apply acts_bind; [apply acts_get|]. intros root.
  destruct (walk root [] (resolve p)) as [q|q| |]; try apply acts_throw.
  destruct (fs_lookup q root) as [[c|es]|];
    first [apply acts_remove_entry | apply acts_throw].
Qed.

Lemma acts_transformFile env p :
  ok (EvReadFile p) -> (forall c, ok (EvTransform c)) -> acts o ok (transformFile env p).
Proof.
  intros Hp Ht. unfold transformFile. apply acts_bind; [by apply acts_readFileSync|].
  intros code. apply acts_bind; [by apply acts_emit|]. intros _.
  destruct (transformSync env code); [apply acts_ret | apply acts_throw].
Qed.

Lemma acts_removeOutdirFiles env :
  (forall p, ok (EvLstat p)) -> (forall p, ok (EvReaddir p)) ->
  (forall p, within (cwd env +:+ "/" +:+ text_of o) p -> ok (EvRmdir p)) ->
  (forall p, within (cwd env +:+ "/" +:+ text_of o) p -> ok (EvUnlink p)) ->
  acts o ok (removeOutdirFiles env).
Proof.
  intros Hl Hr Hrm Hun. unfold removeOutdirFiles. apply acts_get_outdir.
  apply acts_bind; [by apply acts_readdirSync|]. intros files.
  apply acts_forEach. intros file.
  apply acts_bind; [by apply acts_checkFile|]. intros [s|]; [|apply acts_ret].
  assert (within (cwd env +:+ "/" +:+ text_of o)
                 (cwd env +:+ "/" +:+ text_of o +:+ "/" +:+ file)) as Hw.
  { right. exists file. by rewrite !app_assoc_s. }
  destruct (isDirectory s); [by apply acts_rmdirSync, Hrm|].
  destruct (isFile s); [by apply acts_unlinkSync, Hun | apply acts_ret].
Qed.

End Acts_primitives.

(** *** Invariants of a traversal *)

Lemma keeps_suffix folder f : keeps folder f = true -> has_source_suffix f = true.
Proof.
  unfold keeps, has_source_suffix. destruct (exclude folder) as [ex|]; [|done].
  destruct (List.find _ ex); [|done]. by intros [_ ?]%andb_true_iff.
Qed.

Section Invariant.

Variable env : Env.
Variable o : option string.
Variable I : state -> Prop.
Variable ok : event -> Prop.

Local Abbreviation root := (cwd env +:+ "/" +:+ text_of o).

Hypothesis I_outdir : forall st, I st -> this_outdir st = o.
Hypothesis I_step : forall st st' evs,
  I st -> heap st' = heap st -> this_outdir st' = o ->
  this_folders st' = this_folders st -> trace st' = trace st ++ evs ->
  Forall ok evs -> I st'.
Hypothesis ok_lstat : forall p, ok (EvLstat p).
Hypothesis ok_readdir : forall p, ok (EvReaddir p).
Hypothesis ok_read : forall bp file,
  has_source_suffix file = true ->
  ok (EvReadFile (meta_dir env +:+ "/" +:+ bp +:+ "/" +:+ file)).
Hypothesis ok_transform : forall c, ok (EvTransform c).
Hypothesis ok_log : forall msg, ok (EvLog msg).
Hypothesis ok_reject : forall e, ok (EvUnhandledRejection e).
Hypothesis ok_mkdir : forall p, within root p -> ok (EvMkdir p).
Hypothesis ok_rmdir : forall p, within root p -> ok (EvRmdir p).
Hypothesis ok_unlink : forall p, within root p -> ok (EvUnlink p).
Hypothesis I_write : forall bp file code st0 st1,
  has_source_suffix file = true -> I st0 ->
  transformFile env (meta_dir env +:+ "/" +:+ bp +:+ "/" +:+ file) st0 = (Ok code, st1) ->
  I (run_emit (EvWrite (root +:+ "/" +:+ bp +:+ "/" +:+ out_name file) code) st1).

Lemma I_acts {A} (m : M A) st r st' : acts o ok m -> m st = (r, st') -> I st -> I st'.
Proof.
  intros Hm H HI. destruct (Hm _ _ _ (I_outdir _ HI) H) as (? & ? & ? & evs & ? & ?).
  eapply I_step; eauto.
Qed.

Lemma I_rejected e st : I st -> I (run_emit (EvUnhandledRejection e) st).
Proof.
  intros HI. eapply (I_acts (emit (EvUnhandledRejection e))); [| |exact HI];
    [by apply acts_emit | reflexivity].
Qed.

(** *** Rules for tasks *)

Lemma inv_mono {A} (t : async A) : forall (pre pre' : state -> Prop)
  (post post' : A -> state -> Prop),
  (forall st, pre' st -> pre st) -> (forall a st, post a st -> post' a st) ->
  safe I t pre post -> safe I t pre' post'.
Proof.
  induction t as [A a|A msg|A B m k IH|A p code k IH|A k IH|A c IHc k IHk];
    intros pre pre' post post' Hpre Hpost H; simpl in *.
  - auto.
  - auto.
  - destruct H as [H1 H2]. split; [eauto|].
    intros b. eapply IH; [| |apply H2]; [|done].
    intros st' (st & ? & ?). eauto.
  - destruct H as [H1 H2]. split; [eauto|]. intros r. eapply IH; [| |apply H2]; done.
  - destruct H as [H1 H2]. split; [eauto|]. eapply IH; [| |apply H2]; done.
  - destruct H as [H1 H2]. split.
    + eapply IHc; [| |apply H1]; done.
    + eapply IHk; [| |apply H2]; done.
Qed.

Lemma inv_abind {A B} (t : async A) : forall (f : A -> async B)
  (pre : state -> Prop) (mid : A -> state -> Prop) (post : B -> state -> Prop),
  safe I t pre mid -> (forall a, safe I (f a) (mid a) post) ->
  safe I (abind t f) pre post.
Proof.
  induction t as [A a|A msg|A C m k IH|A p code k IH|A k IH|A c IHc k IHk];
    intros f pre mid post H Hf; simpl in *.
  - eapply inv_mono; [| |apply Hf]; [|done]. auto.
  - auto.
  - destruct H as [H1 H2]. split; [done|]. intros b. eapply IH; eauto.
  - destruct H as [H1 H2]. split; [done|]. intros r. eapply IH; eauto.
  - destruct H as [H1 H2]. split; [done|]. eapply IH; eauto.
  - destruct H as [H1 H2]. split; [done|]. eapply IHk; eauto.
Qed.

Lemma inv_Do {A B} (m : M B) (k : B -> async A) pre post :
  (forall st r st', pre st -> m st = (r, st') -> (forall b, r <> Ok b) -> I st') ->
  (forall b, safe I (k b) (fun st' => exists st, pre st /\ m st = (Ok b, st')) post) ->
  safe I (Do m k) pre post.
Proof. intros H1 H2. simpl. by split. Qed.

Lemma inv_Do_acts {A B} (m : M B) (k : B -> async A) post :
  acts o ok m -> (forall b, safe I (k b) I post) -> safe I (Do m k) I post.
Proof.
  intros Hq Hk. simpl. split.
  - intros st r st' HI Hm _. eapply I_acts; eauto.
  - intros b. eapply inv_mono; [| |apply Hk]; [|done].
    intros st' (st & HI & Hm). eapply I_acts; eauto.
Qed.

Lemma inv_Await {A} (c : async A) pre :
  safe I c pre (fun _ => I) -> safe I (Await c) pre (fun _ => I).
Proof.
  intros Hc. unfold Await. eapply inv_abind; [exact Hc|].
  intros a. simpl. auto.
Qed.

Lemma inv_for_of {A} (body : A -> async unit) xs :
  (forall x, x ∈ xs -> safe I (body x) I (fun _ => I)) ->
  safe I (for_of xs body) I (fun _ => I).
Proof.
  induction xs as [|x xs IH]; intros Hb; simpl; [auto|].
  eapply inv_abind; [apply Hb, list_elem_of_here|].
  intros a. apply IH. intros y Hy. by apply Hb, list_elem_of_further.
Qed.

Lemma inv_forEach_async {A} (f : A -> async unit) xs :
  (forall x, safe I (f x) I (fun _ => I)) ->
  safe I (forEach_async xs f) I (fun _ => I).
Proof. intros Hf. induction xs as [|x xs IH]; simpl; auto. Qed.

(** *** The methods *)

Lemma transformFolder_inv n : forall folder,
  safe I (transformFolder n env folder) I (fun _ => I).
Proof.
  induction n as [|n IH]; intros folder.
  - apply inv_Do_acts; [apply acts_stuck|]. intros []. simpl. auto.
  - rewrite transformFolder_unfold. cbv zeta.
    apply inv_Do_acts; [by apply acts_readdirSync|]. intros entries.
    apply inv_Do_acts.
    { apply acts_get_outdir. apply acts_mkdirSync, ok_mkdir.
      right. exists (base_path folder). by rewrite !app_assoc_s. }
    intros _. eapply inv_abind.
    + apply inv_for_of. intros file Hfile.
      assert (has_source_suffix file = true) as Hsuf.
      { apply list_elem_of_In, filter_In in Hfile as [_ Hk]. by eapply keeps_suffix. }
      apply inv_Do.
      * intros st r st' HI Hm _. eapply I_acts; eauto.
        apply acts_transformFile; auto.
      * intros code. apply inv_Do.
        -- intros st r st' (st0 & HI & Hm) Hg Hne. invc Hg.
           by destruct (Hne (outdir_text st')).
        -- intros out. eapply inv_abind.
           ++ apply inv_Await. unfold addTransformedFile. simpl. split.
              ** intros st' (st1 & (st0 & HI & Hm) & Hg). invc Hg.
                 assert (this_outdir st' = o) as Ho.
                 { eapply (acts_transformFile o ok env); eauto. }
                 rewrite outdir_text_of, Ho.
                 replace (cwd env +:+ "/" +:+ text_of o +:+ "/" +:+ base_path folder
                          +:+ "/" +:+ out_name file)
                   with (root +:+ "/" +:+ base_path folder +:+ "/" +:+ out_name file)
                   by (by rewrite !app_assoc_s).
                 eapply I_write; eauto.
              ** intros [bytes|]; simpl; auto.
           ++ intros bytes. apply inv_Do_acts; [by apply acts_emit|].
              intros []. simpl. auto.
    + intros []. destruct (folders folder) as [fs|]; [|simpl; auto].
      apply inv_forEach_async. intros f.
      apply inv_Do_acts; [apply acts_deref|]. apply IH.
Qed.

Lemma transform_inv n : safe I (transform n env) I (fun _ => I).
Proof.
  unfold transform.
  apply inv_Do_acts; [by apply acts_get_outdir, acts_lstatSync|].
  intros bundle_folder. apply inv_Do_acts.
  { apply acts_get_outdir. destruct bundle_folder as [s|].
    - destruct (negb (isDirectory s)); [apply acts_throw | apply acts_ret].
    - apply acts_mkdirSync, ok_mkdir, within_self. }
  intros _. apply inv_Do_acts; [by apply acts_removeOutdirFiles|].
  intros _. apply inv_Do_acts; [apply acts_get|].
  intros registered. apply inv_for_of. intros folder _.
  apply inv_Await, transformFolder_inv.
Qed.

(** *** Turns and the loop *)

Lemma inv_turn {A} (t : async A) : forall pre post st spawned,
  safe I t pre post -> pre st -> Forall (resumes I) spawned ->
  match turn t st spawned with
  | (s, st', spawned') =>
      Forall (resumes I) spawned' /\
      match s with
      | Finished (Ok a) => post a st'
      | Finished _ => I st'
      | Suspended k => I st' /\ safe I k I post
      end
  end.
Proof.
  induction t as [A a|A msg|A B m k IH|A p code k IH|A k IH|A c IHc k IHk];
    intros pre post st spawned H Hpre Hsp; simpl in *.
  - auto.
  - auto.
  - destruct H as [H1 H2]. destruct (m st) as [[b|e|] st1] eqn:E.
    + apply (IH b (fun st' => exists st0, pre st0 /\ m st0 = (Ok b, st')) post
                st1 spawned (H2 b)); [eauto | done].
    + split; [done|]. eapply H1; eauto.
    + split; [done|]. eapply H1; eauto.
  - destruct H as [H1 H2]. specialize (H1 _ Hpre).
    destruct (bun_write p code _) as [[r bytes]|]; (split; [done|]); split; auto.
    exact (I_acts (set_fs r) (run_emit (EvWrite p code) st) (Ok tt) _
             (acts_set_fs o ok r) eq_refl H1).
  - destruct H as [H1 H2]. auto.
  - destruct H as [H1 H2].
    specialize (IHc pre (fun _ => I) st spawned H1 Hpre Hsp).
    destruct (turn c st spawned) as [[[[[]|e|]|kc] st1] spawned1];
      destruct IHc as [Hsp1 Hc].
    + eapply IHk; eauto.
    + eapply IHk; eauto. by apply I_rejected.
    + done.
    + destruct Hc as [HI Hkc]. eapply IHk; eauto.
      apply Forall_app. split; [done|]. by apply Forall_singleton.
Qed.

Lemma inv_children spawned :
  Forall (resumes I) spawned -> Forall (fun t => resumes I (snd t)) (children spawned).
Proof. unfold children. intros H. apply Forall_map. exact H. Qed.

Lemma inv_call t st :
  safe I t I (fun _ => I) -> I st -> loop_inv I (call t st).
Proof.
  intros Ht HI. unfold call.
  pose proof (inv_turn t _ _ st [] Ht HI (Forall_nil_2 _)) as H.
  destruct (turn t st []) as [[[[[]|e|]|k] st'] spawned]; destruct H as [Hsp H];
    split; simpl; try done; try by apply inv_children.
  - tauto.
  - destruct H as [_ H]. apply Forall_app. split; [by apply inv_children|].
    by apply Forall_singleton.
Qed.

Lemma inv_step i l : loop_inv I l -> loop_inv I (step i l).
Proof.
  intros [HI Hp]. unfold step.
  destruct (pick i (pool l)) as [[[main t] rest]|] eqn:E; [|done].
  destruct (pick_Forall _ _ _ _ _ Hp E) as [Ht Hrest]. simpl in Ht.
  pose proof (inv_turn t _ _ (now l) [] Ht HI (Forall_nil_2 _)) as H.
  destruct (turn t (now l) []) as [[[r|k] st'] spawned]; destruct H as [Hsp H].
  - assert (I st') as HI' by (by destruct r as [[]|e|]).
    assert (Forall (fun t => resumes I (snd t)) (rest ++ children spawned)) as Hpool.
    { apply Forall_app. split; [done | by apply inv_children]. }
    unfold settle. destruct main; [done|].
    destruct r as [[]|e|]; split; simpl; try done.
    by apply I_rejected.
  - destruct H as [HI' Hk]. split; [done|]. simpl.
    apply Forall_app. split; [done|].
    apply Forall_app. split; [by apply inv_children|]. by apply Forall_singleton.
Qed.

Lemma inv_run sched : forall l, loop_inv I l -> loop_inv I (run sched l).
Proof.
  induction sched as [|i sched IH]; intros l Hl; simpl; [done|].
  apply IH. by apply inv_step.
Qed.

Lemma transform_invariant n st sched :
  I st -> I (now (run sched (call (transform n env) st))).
Proof.
  intros HI. apply inv_run, inv_call; [apply transform_inv | exact HI].
Qed.

End Invariant.

(** ** Where a traversal reads and writes *)

(** X20: The traversal keeps to its paths.  In every run of [transform], under
    every schedule, each path handed to [mkdir], [rmdir], [unlink] and
    [Bun.write] is the path of the output root or that path followed by a
    slash and more, each file read has a name with a source suffix and a
    path that starts with [import.meta.dir], and the engine - the
    descriptors, the output root, the registered folders - is left as it
    was. *)
Theorem transform_footprint n env st sched :
  let l := run sched (call (transform n env) st) in
  heap (now l) = heap st /\ this_outdir (now l) = this_outdir st
  /\ this_folders (now l) = this_folders st
  /\ exists evs, trace (now l) = trace st ++ evs
                 /\ Forall (allowed env (outdir_path env st)) evs.
Proof.
  intros l. subst l.
  apply (transform_invariant env (this_outdir st)
           (fun st' => heap st' = heap st /\ this_outdir st' = this_outdir st
                       /\ this_folders st' = this_folders st
                       /\ exists evs, trace st' = trace st ++ evs
                            /\ Forall (allowed env (outdir_path env st)) evs)
           (allowed env (outdir_path env st))).
  - tauto.
  - intros st1 st2 evs (Hh & Ho & Hf & evs0 & Ht & Hok) Hh2 Ho2 Hf2 Ht2 Hevs.
    repeat split; try congruence.
    exists (evs0 ++ evs). rewrite Ht2, Ht, app_assoc. split; [done|].
    by apply Forall_app.
  - done.
  - done.
  - intros bp file Hs. simpl. eauto.
  - done.
  - done.
  - done.
  - intros p Hp. simpl. unfold outdir_path. by rewrite outdir_text_of.
  - intros p Hp. simpl. unfold outdir_path. by rewrite outdir_text_of.
  - intros p Hp. simpl. unfold outdir_path. by rewrite outdir_text_of.
  - intros bp file code st0 st1 Hs (Hh & Ho & Hf & evs0 & Ht & Hok) Hm.
    destruct (acts_transformFile (this_outdir st) (allowed env (outdir_path env st)) env
                (meta_dir env +:+ "/" +:+ bp +:+ "/" +:+ file)) with (st := st0)
      (r := Ok code) (st' := st1) as (Hh1 & Ho1 & Hf1 & evs1 & Ht1 & Hok1); try done.
    { simpl. eauto. }
    unfold run_emit. simpl. repeat split; try congruence.
    eexists (evs0 ++ evs1 ++ [_]).
    rewrite Ht1, Ht, <- !app_assoc. split; [reflexivity|].
    apply Forall_app. split; [done|]. apply Forall_app. split; [done|].
    apply Forall_singleton. simpl. unfold outdir_path. rewrite outdir_text_of.
    apply within_child.
  - repeat split; try done. exists []. by rewrite app_nil_r.
Qed.

(** *** Mirrored writes *)

Lemma writes_mirror_quiet env root tr evs :
  Forall (fun e => is_write e = false) evs ->
  writes_mirror env root tr -> writes_mirror env root (tr ++ evs).
Proof.
  intros Hq Hm i p code Hi.
  destruct (decide (i < length tr)) as [Hlt|Hge].
  - rewrite lookup_app_l in Hi by done.
    destruct (Hm i p code Hi) as (q & text & Hi2 & Hr & Ht & HT & Hmir).
    exists q, text. rewrite !lookup_app_l by lia. done.
  - rewrite lookup_app_r in Hi by lia.
    rewrite Forall_lookup in Hq. by specialize (Hq _ _ Hi).
Qed.

Lemma writes_mirror_write env root tr q text p code :
  transformSync env text = Some code -> mirrored env root q p ->
  writes_mirror env root tr ->
  writes_mirror env root (tr ++ [EvReadFile q; EvTransform text; EvWrite p code]).
Proof.
  intros HT Hmir Hm i p' code' Hi.
  destruct (decide (i < length tr)) as [Hlt|Hge].
  - rewrite lookup_app_l in Hi by done.
    destruct (Hm i p' code' Hi) as (q' & text' & Hi2 & Hr & Ht & HT' & Hmir').
    exists q', text'. rewrite !lookup_app_l by lia. done.
  - rewrite lookup_app_r in Hi by lia.
    destruct (i - length tr) as [|[|[|j]]] eqn:E; simpl in Hi; try done.
    invc Hi. exists q, text.
    replace (i - 2) with (length tr + 0) by lia.
    replace (i - 1) with (length tr + 1) by lia.
    rewrite !lookup_app_r by lia.
    replace (length tr + 0 - length tr) with 0 by lia.
    replace (length tr + 1 - length tr) with 1 by lia.
    repeat split; try done. lia.
Qed.

(** X21: The output mirrors the sources.  In every run of [transform], under
    every schedule, each write comes right after the reading of a file with a
    source suffix under [import.meta.dir] and a call of the transpiler; what
    is written is the output of that call, and it goes to the same folder
    path under the output directory, under the output name of the file.
    The call is made by [transformFile], on the text of the file found at
    the path it has just read. *)
Theorem transform_mirrors_sources n env st sched :
  writes_mirror env (outdir_path env st) (trace st) ->
  writes_mirror env (outdir_path env st)
    (trace (now (run sched (call (transform n env) st))))
  /\ forall p st0 code st1,
       transformFile env p st0 = (Ok code, st1) ->
       exists text,
         locate (fs st0) p = Entry (File text)
         /\ transformSync env text = Some code
         /\ trace st1 = trace st0 ++ [EvReadFile p; EvTransform text]
         /\ fs st1 = fs st0.
Proof.
  intros Hst. split.
  - apply (transform_invariant env (this_outdir st)
             (fun st' => this_outdir st' = this_outdir st
                         /\ writes_mirror env (outdir_path env st) (trace st'))
             (fun e => is_write e = false)); try done.
    + tauto.
    + intros st1 st2 evs [Ho Hm] _ Ho2 _ Ht2 Hevs. split; [done|].
      rewrite Ht2. by apply writes_mirror_quiet.
    + intros bp file code st0 st1 Hs [Ho Hm] Hf.
      destruct (acts_transformFile (this_outdir st) (fun e => is_write e = false) env
                  (meta_dir env +:+ "/" +:+ bp +:+ "/" +:+ file)) with (st := st0)
        (r := Ok code) (st' := st1) as (_ & Ho1 & _); try done.
      destruct (transformFile_reads env _ _ _ _ Hf) as (q & text & _ & _ & HT & Ht & _).
      split; [done|]. unfold run_emit. simpl. rewrite Ht, <- app_assoc. simpl.
      apply writes_mirror_write; [done| |done].
      exists bp, file. split; [reflexivity|]. split; [|done].
      unfold outdir_path. by rewrite outdir_text_of.
  - intros p st0 code st1 Hf.
    destruct (transformFile_reads env _ _ _ _ Hf) as (q & text & Hw & Hq & HT & Ht & Hfs).
    exists text. unfold locate. by rewrite Hw, Hq.
Qed.

Lemma transform_mirrors_sources_witness :
  writes_mirror fanout_env (outdir_path fanout_env fanout_state)
    (trace (now (run [0; 1; 0; 0] (call (transform 3 fanout_env) fanout_state))))
  /\ forall p st0 code st1,
       transformFile fanout_env p st0 = (Ok code, st1) ->
       exists text,
         locate (fs st0) p = Entry (File text)
         /\ transformSync fanout_env text = Some code
         /\ trace st1 = trace st0 ++ [EvReadFile p; EvTransform text]
         /\ fs st1 = fs st0.
Proof.
  apply (transform_mirrors_sources 3 fanout_env fanout_state [0; 1; 0; 0]).
  intros i p code Hi. by destruct i.
Defined.

(** ** Traversals without sub-folders *)

Lemma fireless_abind {A B} (t : async A) (f : A -> async B) :
  fireless t -> (forall a, fireless (f a)) -> fireless (abind t f).
Proof.
  induction t as [A a|A msg|A C m k IH|A p code k IH|A k IH|A c IHc k IHk];
    intros Ht Hf; simpl in *; auto.
Qed.

Lemma fireless_Await {A} (c : async A) : fireless c -> fireless (Await c).
Proof. intros Hc. unfold Await. apply fireless_abind; [done|]. by intros a. Qed.

Lemma fireless_for_of {A} (body : A -> async unit) xs :
  (forall x, x ∈ xs -> fireless (body x)) -> fireless (for_of xs body).
Proof.
  induction xs as [|x xs IH]; intros Hb; simpl; [done|].
  apply fireless_abind; [apply Hb, list_elem_of_here|].
  intros a. apply IH. intros y Hy. by apply Hb, list_elem_of_further.
Qed.

Lemma transformFolder_fireless n env folder :
  flat folder -> fireless (transformFolder n env folder).
Proof.
  intros Hflat. destruct n as [|n]; [by intros []|].
  rewrite transformFolder_unfold. cbv zeta. intros entries _.
  apply fireless_abind.
  - apply fireless_for_of. intros file _ code out.
    apply fireless_abind.
    + apply fireless_Await. intros [bytes|]; done.
    + by intros bytes [].
  - intros []. unfold flat in Hflat.
    destruct (folders folder) as [fs|]; [|done].
    simpl in Hflat. by subst fs.
Qed.

Lemma turn_fireless {A} (t : async A) : forall st sp,
  fireless t ->
  match turn t st sp with
  | (s, _, sp') => sp' = sp /\ match s with Suspended k => fireless k | _ => True end
  end.
Proof.
  induction t as [A a|A msg|A B m k IH|A p code k IH|A k IH|A c IHc k IHk];
    intros st sp Ht; simpl in *; try done.
  - destruct (m st) as [[b|e|] st1]; [by apply IH | done | done].
  - destruct (bun_write p code _) as [[r bytes]|]; split; auto.
Qed.

Lemma acts_any_folders {A} (m : M A) o st r st' :
  acts o (fun _ => True) m -> this_outdir st = o -> m st = (r, st') ->
  this_folders st' = this_folders st.
Proof. intros Hm Ho H. by destruct (Hm _ _ _ Ho H) as (_ & _ & ? & _). Qed.

(** The call of [transform] leaves at most its own task suspended when no
    registered folder has sub-folders. *)
Lemma call_transform_sequential n env st :
  Forall flat (this_folders st) -> sequential (call (transform n env) st).
Proof.
  intros Hflat.
  assert (forall st' : state, this_folders st' = this_folders st ->
            sequential (call (transform_loop n env) st')) as Hloop.
  { intros st' Hf. unfold call.
    pose proof (turn_fireless
                  (for_of (this_folders st')
                     (fun folder => Await (transformFolder n env folder))) st' []) as H.
    change (turn (transform_loop n env) st' [])
      with (turn (for_of (this_folders st')
                    (fun folder => Await (transformFolder n env folder))) st' []).
    destruct (turn _ st' []) as [[[r|k] st2] sp]; destruct H as [-> Hk].
    - apply fireless_for_of. intros folder Hin. apply fireless_Await.
      apply transformFolder_fireless. rewrite Hf in Hin.
      rewrite Forall_forall in Hflat. by apply Hflat.
    - by left.
    - apply fireless_for_of. intros folder Hin. apply fireless_Await.
      apply transformFolder_fireless. rewrite Hf in Hin.
      rewrite Forall_forall in Hflat. by apply Hflat.
    - right. simpl. eauto. }
  unfold call at 1. rewrite transform_eq. cbn [turn].
  destruct ((let* out := get outdir_text in lstatSync (cwd env +:+ "/" +:+ out)) st)
    as [[b|e|] st1] eqn:E1; [|by left|by left].
  assert (this_folders st1 = this_folders st /\ this_outdir st1 = this_outdir st)
    as [Hf1 Ho1].
  { destruct (acts_get_outdir (this_outdir st) (fun _ => True)
                (fun out => lstatSync (cwd env +:+ "/" +:+ out))
                (acts_lstatSync _ _ _ Logic.I) _ _ _ eq_refl E1) as (_ & ? & ? & _).
    done. }
  match goal with |- context [match ?m st1 with _ => _ end] =>
    destruct (m st1) as [[[]|e|] st2] eqn:E2; [|by left|by left];
    assert (acts (this_outdir st1) (fun _ => True) m) as Hm2
  end.
  { apply acts_get_outdir. destruct b as [s|].
    - destruct (negb (isDirectory s)); [apply acts_throw | apply acts_ret].
    - by apply acts_mkdirSync. }
  destruct (Hm2 _ _ _ eq_refl E2) as (_ & Ho2 & Hf2 & _).
  destruct (removeOutdirFiles env st2) as [[[]|e|] st3] eqn:E3; [|by left|by left].
  destruct (acts_removeOutdirFiles (this_outdir st2) (fun _ => True) env
              (fun _ => Logic.I) (fun _ => Logic.I) (fun _ _ => Logic.I)
              (fun _ _ => Logic.I) _ _ _ eq_refl E3) as (_ & _ & Hf3 & _).
  apply (Hloop st3). congruence.
Qed.

Lemma pick_single {T} i (t : T) : pick i [t] = Some (t, []).
Proof. reflexivity. Qed.

Lemma step_sequential i l :
  sequential l -> sequential (step i l) /\ step i l = step 0 l.
Proof.
  intros [Hp|(b & k & Hp & Hk)]; unfold step; rewrite Hp.
  - simpl. split; [by left | done].
  - rewrite !pick_single. split; [|done].
    pose proof (turn_fireless k (now l) [] Hk) as H.
    destruct (turn k (now l) []) as [[[r|k'] st'] sp]; destruct H as [-> Hk'].
    + left. unfold settle. destruct b; [done|]. by destruct r.
    + right. simpl. eauto.
Qed.

Lemma run_sequential s1 : forall s2 l,
  sequential l -> length s1 = length s2 ->
  run s1 l = run s2 l /\ sequential (run s1 l).
Proof.
  induction s1 as [|i s1 IH]; intros [|j s2] l Hl Hlen; try done.
  simpl. destruct (step_sequential i l Hl) as [Hs Hi].
  destruct (step_sequential j l Hl) as [_ Hj].
  rewrite Hj, <- Hi. apply IH; [done|]. simpl in Hlen. lia.
Qed.

(** X22: Without sub-folders the traversal is sequential.  When no registered
    folder has sub-folders, a run of [transform] never has more than one
    task suspended, so that the loop has no choice: two schedules of the
    same length lead to the same state. *)
Theorem flat_forest_is_sequential n env st s1 s2 :
  Forall flat (this_folders st) -> length s1 = length s2 ->
  run s1 (call (transform n env) st) = run s2 (call (transform n env) st)
  /\ length (pool (run s1 (call (transform n env) st))) <= 1.
Proof.
  intros Hflat Hlen.
  destruct (run_sequential s1 s2 _ (call_transform_sequential n env st Hflat) Hlen)
    as [Heq Hseq].
  split; [done|].
  destruct Hseq as [->|(b & k & -> & _)]; simpl; lia.
Qed.

Lemma flat_forest_is_sequential_witness :
  let st := example_ready "export {}" "let u" false [] in
  run [0; 0] (call (transform 1 sample_env) st) = run [5; 3] (call (transform 1 sample_env) st)
  /\ length (pool (run [0; 0] (call (transform 1 sample_env) st))) <= 1.
Proof.
  apply (flat_forest_is_sequential 1 sample_env
           (example_ready "export {}" "let u" false []) [0; 0] [5; 3]).
  - repeat constructor.
  - reflexivity.
Defined.

(** ** The output of a folder without sub-folders *)

Lemma fireless_calm {A} (t : async A) : fireless t -> forall st, calm t st.
Proof.
  induction t as [A a|A msg|A B m k IH|A p code k IH|A k IH|A c IHc k IHk];
    intros Ht st; simpl in *; try done.
  - destruct (m st) as [[b|e|] st1]; auto.
  - destruct (bun_write p code _) as [[r bytes]|]; auto.
  - auto.
Qed.

(** One turn of a task that starts no other: it ends as [finish] says, or
    suspends on a task that ends as [finish] says, one suspension later. *)
Lemma turn_finish {A} (t : async A) : forall st sp,
  calm t st ->
  match turn t st sp with
  | (Finished r, st', sp') => sp' = sp /\ finish t st = (r, st', 0)
  | (Suspended k, st', sp') =>
      sp' = sp /\ calm k st'
      /\ exists r st2 m, finish k st' = (r, st2, m) /\ finish t st = (r, st2, S m)
  end.
Proof.
  induction t as [A a|A msg|A B m k IH|A p code k IH|A k IH|A c IHc k IHk];
    intros st sp Ht; simpl in *; try done.
  - destruct (m st) as [[b|e|] st1]; [by apply IH | done | done].
  - destruct (bun_write p code _) as [[r bytes]|].
    + split; [done|]. split; [done|].
      destruct (finish (k (Some bytes)) _) as [[res st2] m]. eauto.
    + split; [done|]. split; [done|].
      destruct (finish (k None) _) as [[res st2] m]. eauto.
  - split; [done|]. split; [done|]. destruct (finish k st) as [[res st2] m]. eauto.
Qed.

Lemma run_single_task : forall m sched k st r st2,
  calm k st -> finish k st = (r, st2, m) -> S m <= length sched ->
  run sched (mkLoop st [(true, k)] None) = mkLoop st2 [] (Some r).
Proof.
  induction m as [|m IH]; intros sched k st r st2 Hk Hf Hlen;
    (destruct sched as [|i sched]; [simpl in Hlen; lia|]); simpl in Hlen;
    cbn [run]; unfold step; cbn [pool now settled]; rewrite pick_single;
    pose proof (turn_finish k st [] Hk) as H;
    destruct (turn k st []) as [[[r'|k'] st'] sp].
  - destruct H as [-> H]. rewrite Hf in H. invc H. simpl.
    by apply run_quiescent.
  - destruct H as (_ & _ & r' & st3 & m' & _ & H). rewrite Hf in H. discriminate.
  - destruct H as [-> H]. rewrite Hf in H. discriminate.
  - destruct H as (-> & Hk' & r' & st3 & m' & Hf' & H). rewrite Hf in H. invc H.
    simpl. apply (IH sched k' st' r' st3 Hk' Hf'). lia.
Qed.

(** A task that starts no other, called and run by the loop for as many
    steps as it suspends, ends as [finish] says. *)
Lemma run_finish (t : async unit) st sched r st2 m :
  calm t st -> finish t st = (r, st2, m) -> m <= length sched ->
  run sched (call t st) = mkLoop st2 [] (Some r).
Proof.
  intros Ht Hf Hlen. unfold call.
  pose proof (turn_finish t st [] Ht) as H.
  destruct (turn t st []) as [[[r'|k] st'] sp].
  - destruct H as [-> H]. rewrite Hf in H. invc H. simpl. by apply run_quiescent.
  - destruct H as (-> & Hk & r' & st3 & m' & Hf' & H). rewrite Hf in H. invc H.
    simpl. by apply (run_single_task m' sched k st' r' st3).
Qed.

Lemma calm_abind {A B} (t : async A) (f : A -> async B) : forall st,
  calm t st ->
  (forall a st' n, finish t st = (Ok a, st', n) -> calm (f a) st') ->
  calm (abind t f) st.
Proof.
  induction t as [A a|A msg|A C m k IH|A p code k IH|A k IH|A c IHc k IHk];
    intros st Ht Hf; simpl in *; try done.
  - eauto.
  - destruct (m st) as [[b|e|] st1]; auto.
  - destruct (bun_write p code _) as [[r bytes]|]; apply IH; try done.
    + intros a st' n E. rewrite E in Hf. eauto.
    + intros a st' n E. rewrite E in Hf. eauto.
  - apply IH; [done|]. intros a st' n E. rewrite E in Hf. eauto.
Qed.

Lemma finish_abind {A B} (t : async A) (f : A -> async B) : forall st,
  finish (abind t f) st
  = match finish t st with
    | (Ok a, st', n) => let '(r, st2, m) := finish (f a) st' in (r, st2, n + m)
    | (Throw e, st', n) => (Throw e, st', n)
    | (Stuck, st', n) => (Stuck, st', n)
    end.
Proof.
  induction t as [A a|A msg|A C m k IH|A p code k IH|A k IH|A c IHc k IHk];
    intros st; cbn [abind finish].
  - by destruct (finish (f a) st) as [[r st2] m].
  - done.
  - destruct (m st) as [[b|e|] st1]; [apply IH | done | done].
  - destruct (bun_write p code _) as [[r bytes]|]; rewrite IH.
    + destruct (finish (k (Some bytes)) _) as [[[a|e|] st1] n]; try done.
      by destruct (finish (f a) st1) as [[r' st2] m].
    + destruct (finish (k None) _) as [[[a|e|] st1] n]; try done.
      by destruct (finish (f a) st1) as [[r' st2] m].
  - rewrite IH. destruct (finish k st) as [[[a|e|] st1] n]; try done.
    by destruct (finish (f a) st1) as [[r' st2] m].
  - apply IHk.
Qed.

Lemma finish_Await {A} (c : async A) st :
  finish (Await c) st
  = match finish c st with
    | (Ok a, st', n) => (Ok a, st', S n)
    | other => other
    end.
Proof.
  unfold Await. rewrite finish_abind.
  destruct (finish c st) as [[[a|e|] st1] n]; try done.
  simpl. by rewrite Nat.add_1_r.
Qed.

Lemma finish_Do_Ok {A B} (m : M B) (k : B -> async A) st b st' :
  m st = (Ok b, st') -> finish (Do m k) st = finish (k b) st'.
Proof. intros H. simpl. by rewrite H. Qed.

Lemma finish_Do_Throw {A B} (m : M B) (k : B -> async A) st e st' :
  m st = (Throw e, st') -> finish (Do m k) st = (Throw e, st', 0).
Proof. intros H. simpl. by rewrite H. Qed.

(** *** Paths that part *)

Lemma assoc_entry_set_ne a b m es : a <> b -> assoc b (entry_set a m es) = assoc b es.
Proof.
  intros Hne. induction es as [|[k' n'] es IH]; simpl.
  - destruct (String.eqb b a) eqn:E; [|done]. apply String.eqb_eq in E. congruence.
  - destruct (String.eqb a k') eqn:E; simpl.
    + apply String.eqb_eq in E. subst k'.
      destruct (String.eqb b a) eqn:E'; [|done]. apply String.eqb_eq in E'. congruence.
    + by rewrite IH.
Qed.

Lemma assoc_entry_del_ne a b es : a <> b -> assoc b (entry_del a es) = assoc b es.
Proof.
  intros Hne. induction es as [|[k' n'] es IH]; simpl; [done|].
  destruct (String.eqb a k') eqn:E; simpl.
  - apply String.eqb_eq in E. subst k'.
    destruct (String.eqb b a) eqn:E'; [|done]. apply String.eqb_eq in E'. congruence.
  - by rewrite IH.
Qed.

Lemma fs_put_head a r new es root' :
  fs_put (a :: r) new (Dir es) = Some root' ->
  exists es', root' = Dir es' /\ forall b, a <> b -> assoc b es' = assoc b es.
Proof.
  destruct r as [|a' r].
  - simpl. intros [= <-]. eexists. split; [done|]. intros b Hne.
    destruct new; [by apply assoc_entry_set_ne | by apply assoc_entry_del_ne].
  - rewrite fs_put_cons by done. destruct (assoc a es) as [m|]; [|done].
    destruct (fs_put (a' :: r) new m) as [m'|]; [|done]. intros [= <-].
    eexists. split; [done|]. intros b Hne. by apply assoc_entry_set_ne.
Qed.

Lemma fs_lookup_put_apart new : forall pre a r b r' root root',
  a <> b -> fs_put (pre ++ a :: r) new root = Some root' ->
  fs_lookup (pre ++ b :: r') root' = fs_lookup (pre ++ b :: r') root.
Proof.
  induction pre as [|c pre IH]; intros a r b r' root root' Hne Hp.
  - simpl in Hp |- *. destruct root as [x|es]; [by destruct r|].
    destruct (fs_put_head _ _ _ _ _ Hp) as (es' & -> & Hes). by rewrite Hes.
  - destruct root as [x|es]; [simpl in Hp; by destruct (pre ++ a :: r)|].
    change ((c :: pre) ++ a :: r) with (c :: (pre ++ a :: r)) in Hp.
    rewrite fs_put_cons in Hp by (by destruct pre).
    destruct (assoc c es) as [m|] eqn:Hc; [|done].
    destruct (fs_put (pre ++ a :: r) new m) as [m'|] eqn:E; [|done].
    invc Hp. simpl. rewrite assoc_entry_set, Hc. eapply IH; eauto.
Qed.

Lemma apart_lookup new cs p root root' rest :
  apart cs p -> fs_put cs new root = Some root' ->
  fs_lookup (p ++ rest) root' = fs_lookup (p ++ rest) root.
Proof.
  intros (pre & a & r & b & r' & Hne & -> & ->) Hp.
  rewrite <- !app_assoc. simpl. by eapply fs_lookup_put_apart.
Qed.

Lemma apart_nonempty cs p : apart cs p -> cs <> [].
Proof. intros (pre & a & r & b & r' & Hne & -> & ->). by destruct pre. Qed.

Lemma apart_not_below cs rest : ~ apart cs (cs ++ rest).
Proof.
  intros (pre & a & r & b & r' & Hne & -> & H).
  rewrite <- app_assoc in H. apply app_inv_head in H. simpl in H. congruence.
Qed.

(** An output directory apart from a folder under [import.meta.dir] is not
    [import.meta.dir] itself. *)
Lemma apart_not_meta env st bp :
  apart (resolve (outdir_path env st)) (resolve (meta_dir env +:+ "/" +:+ bp)) ->
  outdir_path env st <> meta_dir env.
Proof.
  intros Hap Heq. rewrite Heq, resolve_slash in Hap. by apply apart_not_below in Hap.
Qed.

Lemma fs_put_content a b : forall cs root r,
  fs_put cs (Some a) root = Some r -> is_Some (fs_put cs (Some b) root).
Proof.
  induction cs as [|c cs IH]; intros root r H; [done|].
  destruct root as [x|es]; [by destruct cs|].
  destruct cs as [|c' cs]; [simpl; eauto|].
  rewrite fs_put_cons in H |- * by done.
  destruct (assoc c es) as [m|]; [|done].
  destruct (fs_put (c' :: cs) (Some a) m) as [m'|] eqn:E; [|done].
  destruct (IH _ _ E) as [m2 ->]. eauto.
Qed.

(** *** Names *)

Lemma no_slash_replace f : no_slash (Js.replace "ts" "js" f) = no_slash f.
Proof.
  induction f as [|c f IH]; [reflexivity|].
  cbn [Js.replace]. destruct (Js.startsWith (String c f) "ts") eqn:E.
  - apply startsWith_ts in E as [r E]. rewrite E. reflexivity.
  - simpl. by rewrite IH.
Qed.

Lemma entry_name_out_name f : entry_name f = true -> entry_name (out_name f) = true.
Proof.
  unfold entry_name. intros [Hne Hns]%andb_true_iff. apply andb_true_iff. split.
  - unfold nonempty in *. apply negb_true_iff, String.eqb_neq. intros H.
    pose proof (out_name_length f) as Hl. rewrite H in Hl.
    destruct f; [done | discriminate].
  - unfold out_name. by rewrite no_slash_replace.
Qed.

Lemma resolve_two p a b :
  entry_name a = true -> entry_name b = true ->
  resolve (p +:+ "/" +:+ a +:+ "/" +:+ b) = resolve p ++ [a; b].
Proof.
  intros Ha Hb.
  replace (p +:+ "/" +:+ a +:+ "/" +:+ b) with ((p +:+ "/" +:+ a) +:+ "/" +:+ b)
    by (by rewrite !app_assoc_s).
  rewrite !resolve_child by done. by rewrite <- app_assoc.
Qed.

Lemma assoc_NoDup f nd (es : list (string * node)) :
  NoDup (List.map fst es) -> (f, nd) ∈ es -> assoc f es = Some nd.
Proof.
  induction es as [|[k n] es IH]; intros Hnd Hin; [by apply elem_of_nil in Hin|].
  simpl in Hnd. apply NoDup_cons in Hnd as [Hk Hnd]. simpl.
  apply elem_of_cons in Hin as [[= -> ->]|Hin].
  - by rewrite String.eqb_refl.
  - destruct (String.eqb f k) eqn:E; [|auto].
    apply String.eqb_eq in E. subst k. destruct Hk.
    apply list_elem_of_In, in_map_iff. exists (f, nd). split; [done|].
    by apply list_elem_of_In.
Qed.

(** *** The primitives on a file *)

Lemma transformFile_eq env p st text code :
  fs_lookup (resolve p) (fs st) = Some (File text) ->
  transformSync env text = Some code ->
  transformFile env p st = (Ok code, logged [EvReadFile p; EvTransform text] st).
Proof.
  intros Hl HT. unfold transformFile. unfold bindM at 1.
  rewrite (readFileSync_found _ _ _ Hl). unfold bindM, emit. rewrite HT.
  unfold ret, logged. simpl. by rewrite <- app_assoc.
Qed.

Lemma bun_write_file p code root r pre c :
  resolve p = pre ++ [c] -> dotless c ->
  (forall es, fs_lookup (resolve p) root <> Some (Dir es)) ->
  fs_put (resolve p) (Some (File code)) root = Some r ->
  bun_write p code root = Some (r, String.length code).
Proof.
  intros Hres Hc Hl Hp. unfold bun_write, write_file. cbv zeta.
  destruct (fs_lookup (resolve p) root) as [[x|es]|] eqn:E; [| by destruct (Hl es) |].
  - by rewrite (walk_literal _ _ _ E), E, Hp.
  - pose proof (vacant_intro _ _ _ _ _ _ Hres Hc E Hp) as Hv. unfold vacant in Hv.
    rewrite Hv. cbv beta iota. by rewrite Hp.
Qed.

Lemma assoc_files k (acc : list (string * node)) es :
  Forall (fun e => exists c, snd e = File c) acc -> assoc k acc <> Some (Dir es).
Proof.
  induction 1 as [|[k' n'] acc [c Hc] Hacc IH]; simpl; [done|].
  destruct (String.eqb k k'); [|done]. simpl in Hc. by rewrite Hc.
Qed.

Lemma entry_set_files k c (acc : list (string * node)) :
  Forall (fun e => exists c, snd e = File c) acc ->
  Forall (fun e => exists c, snd e = File c) (entry_set k (File c) acc).
Proof.
  induction 1 as [|[k' n'] acc Hc Hacc IH]; simpl.
  - apply Forall_singleton. simpl. eauto.
  - destruct (String.eqb k k'); constructor; simpl; eauto.
Qed.

Lemma transformFolder_eq n env folder :
  transformFolder (S n) env folder =
  Do (readdirSync (meta_dir env +:+ "/" +:+ base_path folder)) (fun entries =>
  Do (let* out := get outdir_text in
      mkdirSync (cwd env +:+ "/" +:+ out +:+ "/" +:+ base_path folder)) (fun _ =>
  abind (for_of (kept_files folder entries) (convert_one env folder)) (fun _ =>
  match folders folder with
  | Some fs => forEach_async fs (fun f => Do (deref f) (transformFolder n env))
  | None => Return tt
  end))).
Proof. reflexivity. Qed.

(** A kept file has a name of three characters at least, and so has its
    output name. *)
Lemma long_dotless s : 3 <= String.length s -> dotless s.
Proof.
  intros H. split; apply String.eqb_neq; intros ->; simpl in H; lia.
Qed.

Lemma endsWith_long f suf : Js.endsWith f suf = true -> String.length suf <= String.length f.
Proof.
  unfold Js.endsWith. intros [H _]%andb_true_iff. by apply Nat.leb_le.
Qed.

Lemma keeps_dotless folder f : keeps folder f = true -> dotless (out_name f).
Proof.
  intros H. apply long_dotless. rewrite out_name_length.
  unfold keeps in H. destruct (exclude folder) as [ex|]; [|done].
  destruct (List.find _ ex) as [x|]; [|done].
  apply andb_true_iff in H as [_ [H|H]%orb_true_iff]; by apply endsWith_long in H.
Qed.

Section Flat_folder.

Variable env : Env.
Variable folder : Folder.
Variable o : option string.
Variable es : list (string * node).
Variable root0 : node.

Local Abbreviation bp := (base_path folder).
Local Abbreviation cs := (resolve (cwd env +:+ "/" +:+ text_of o)).
Local Abbreviation src := (resolve (meta_dir env +:+ "/" +:+ base_path folder)).

Hypothesis Hbp : entry_name bp = true.
Hypothesis Hapart : apart cs src.
Hypothesis Hsrc : fs_lookup src root0 = Some (Dir es).
Hypothesis Hnd : NoDup (List.map fst es).

Lemma convert_one_finish f text code acc st :
  (f, File text) ∈ es -> entry_name f = true -> dotless (out_name f) ->
  transformSync env text = Some code ->
  Forall (fun e => exists c, snd e = File c) acc ->
  this_outdir st = o ->
  fs_put cs (Some (Dir [(bp, Dir acc)])) root0 = Some (fs st) ->
  exists st2,
    finish (convert_one env folder f) st = (Ok tt, st2, 2)
    /\ fs_put cs (Some (Dir [(bp, Dir (entry_set (out_name f) (File code) acc))])) root0
       = Some (fs st2)
    /\ heap st2 = heap st /\ this_outdir st2 = o /\ this_folders st2 = this_folders st.
Proof.
  intros Hin Hf Hdot HT Hacc Ho Hinv.
  pose proof (apart_nonempty _ _ Hapart) as Hcs.
  pose proof (fs_lookup_put _ _ _ _ Hinv) as Hout.
  destruct (fs_put_content (Dir [(bp, Dir acc)])
              (Dir [(bp, Dir (entry_set (out_name f) (File code) acc))]) _ _ _ Hinv)
    as [r Hr].
  assert (fs_lookup (resolve (meta_dir env +:+ "/" +:+ bp +:+ "/" +:+ f)) (fs st)
          = Some (File text)) as Hread.
  { replace (meta_dir env +:+ "/" +:+ bp +:+ "/" +:+ f)
      with ((meta_dir env +:+ "/" +:+ bp) +:+ "/" +:+ f) by (by rewrite !app_assoc_s).
    rewrite resolve_child by done.
    rewrite (apart_lookup _ _ _ _ _ [f] Hapart Hinv).
    rewrite fs_lookup_app, Hsrc. simpl. by rewrite (assoc_NoDup f (File text) es). }
  assert (resolve (cwd env +:+ "/" +:+ text_of o +:+ "/" +:+ bp +:+ "/" +:+ out_name f)
          = cs ++ [bp; out_name f]) as Hpath.
  { replace (cwd env +:+ "/" +:+ text_of o +:+ "/" +:+ bp +:+ "/" +:+ out_name f)
      with ((cwd env +:+ "/" +:+ text_of o) +:+ "/" +:+ bp +:+ "/" +:+ out_name f)
      by (by rewrite !app_assoc_s).
    apply resolve_two; [done | by apply entry_name_out_name]. }
  assert (bun_write (cwd env +:+ "/" +:+ text_of o +:+ "/" +:+ bp +:+ "/" +:+ out_name f)
            code (fs st) = Some (r, String.length code)) as Hw.
  { apply (bun_write_file _ _ _ _ (cs ++ [bp]) (out_name f));
      [by rewrite Hpath, <- app_assoc | exact Hdot | rewrite Hpath..].
    - intros es'. rewrite fs_lookup_app, Hout. simpl. rewrite String.eqb_refl.
      destruct (assoc (out_name f) acc) as [m|] eqn:E; [|done].
      intros [= ->]. by apply (assoc_files _ _ es' Hacc) in E.
    - change (cs ++ [bp; out_name f]) with (cs ++ [bp] ++ [out_name f]).
      rewrite app_assoc.
      rewrite (fs_put_child (out_name f) (Some (File code)) (cs ++ [bp]) (fs st) acc).
      2:{ by destruct cs. }
      2:{ rewrite fs_lookup_app, Hout. simpl. by rewrite String.eqb_refl. }
      rewrite (fs_put_child bp (Some (Dir (entry_set (out_name f) (File code) acc)))
                 cs (fs st) [(bp, Dir acc)] Hcs Hout).
      simpl. rewrite String.eqb_refl.
      by rewrite (fs_put_put _ _ _ _ _ Hinv). }
  eexists. unfold convert_one. cbv zeta.
  erewrite finish_Do_Ok by (by apply transformFile_eq).
  erewrite finish_Do_Ok by reflexivity.
  change (outdir_text (logged [EvReadFile (meta_dir env +:+ "/" +:+ bp +:+ "/" +:+ f);
                               EvTransform text] st)) with (outdir_text st).
  rewrite outdir_text_of, Ho.
  rewrite finish_abind, finish_Await. unfold addTransformedFile. cbn [finish].
  unfold run_emit at 1. cbn [emit snd fs logged]. rewrite Hw.
  cbn [finish set_fs snd console_log emit].
  split; [reflexivity|]. cbn [fs heap this_outdir this_folders logged run_emit emit snd].
  by repeat split.
Qed.

Lemma convert_all : forall es' acc st out_es,
  (forall e, e ∈ es' -> e ∈ es) ->
  entry_names es' = true ->
  Forall (fun e => exists c, snd e = File c) acc ->
  this_outdir st = o ->
  fs_put cs (Some (Dir [(bp, Dir acc)])) root0 = Some (fs st) ->
  outputs (transformSync env) folder es' acc = Some out_es ->
  exists st2,
    finish (for_of (kept_files folder (List.map fst es')) (convert_one env folder)) st
    = (Ok tt, st2, 2 * length (kept_files folder (List.map fst es')))
    /\ fs_put cs (Some (Dir [(bp, Dir out_es)])) root0 = Some (fs st2)
    /\ heap st2 = heap st /\ this_outdir st2 = o /\ this_folders st2 = this_folders st.
Proof.
  induction es' as [|[f nd] es' IH]; intros acc st out_es Hin Hnames Hacc Ho Hinv Hout.
  - simpl in *. invc Hout. exists st. by repeat split.
  - apply andb_true_iff in Hnames as [Hf Hnames]. simpl in Hf.
    assert (forall e, e ∈ es' -> e ∈ es) as Hin'.
    { intros e He. by apply Hin, list_elem_of_further. }
    unfold kept_files in *. cbn [List.map fst List.filter outputs] in *.
    destruct (keeps folder f) eqn:Hkeep.
    + destruct nd as [text|sub]; [|done].
      destruct (transformSync env text) as [code|] eqn:HT; [|done].
      destruct (convert_one_finish f text code acc st) as (st1 & E1 & Hinv1 & Hh1 & Ho1 & Hf1);
        try done.
      { apply Hin, list_elem_of_here. }
      { by apply (keeps_dotless folder). }
      destruct (IH _ st1 out_es Hin' Hnames (entry_set_files _ code _ Hacc) Ho1 Hinv1 Hout)
        as (st2 & E2 & Hinv2 & Hh2 & Ho2 & Hf2).
      exists st2. cbn [for_of]. rewrite finish_abind, E1, E2.
      split; [f_equal; simpl; lia|]. repeat split; congruence.
    + by apply (IH acc).
Qed.

End Flat_folder.

Lemma transformFolder_flat_finish n env folder es out_es st :
  flat folder ->
  entry_name (base_path folder) = true -> dotless (base_path folder) ->
  apart (resolve (outdir_path env st)) (resolve (meta_dir env +:+ "/" +:+ base_path folder)) ->
  fs_lookup (resolve (meta_dir env +:+ "/" +:+ base_path folder)) (fs st) = Some (Dir es) ->
  NoDup (List.map fst es) -> entry_names es = true ->
  fs_lookup (resolve (outdir_path env st)) (fs st) = Some (Dir []) ->
  outputs (transformSync env) folder es [] = Some out_es ->
  exists st2,
    finish (transformFolder (S n) env folder) st
    = (Ok tt, st2, 2 * length (kept_files folder (List.map fst es)))
    /\ fs_put (resolve (outdir_path env st)) (Some (Dir [(base_path folder, Dir out_es)]))
              (fs st) = Some (fs st2)
    /\ heap st2 = heap st /\ this_outdir st2 = this_outdir st
    /\ this_folders st2 = this_folders st.
Proof.
  intros Hflat Hbp Hdot Hapart Hsrc Hnd Hnames Hout Hres.
  unfold outdir_path in *. rewrite outdir_text_of in *.
  pose proof (apart_nonempty _ _ Hapart) as Hcs.
  destruct (fs_put_Some (Some (Dir [(base_path folder, Dir [])])) _ (fs st) Hcs)
    as [r2 Hr2]; [eauto|].
  set (st1 := mkState (heap st) (this_outdir st) (this_folders st) r2
                (trace st ++ [EvReaddir (meta_dir env +:+ "/" +:+ base_path folder);
                              EvMkdir (cwd env +:+ "/" +:+ text_of (this_outdir st)
                                       +:+ "/" +:+ base_path folder)])).
  destruct (convert_all env folder (this_outdir st) es (fs st) Hbp Hapart Hsrc Hnd
              es [] st1 out_es) as (st2 & E & Hinv & Hh & Ho & Hf); try done.
  exists st2. split; [|by repeat split].
  rewrite transformFolder_eq.
  erewrite finish_Do_Ok by (by apply readdirSync_found).
  erewrite finish_Do_Ok.
  2:{ unfold bindM at 1, get at 1.
      change (outdir_text (logged _ st)) with (outdir_text st). rewrite outdir_text_of.
      replace (cwd env +:+ "/" +:+ text_of (this_outdir st) +:+ "/" +:+ base_path folder)
        with ((cwd env +:+ "/" +:+ text_of (this_outdir st)) +:+ "/" +:+ base_path folder)
        by (by rewrite !app_assoc_s).
      apply (mkdirSync_absent _ _ r2
               (resolve (cwd env +:+ "/" +:+ text_of (this_outdir st))) (base_path folder));
        cbn [fs logged]; [by apply resolve_child | done | |].
      - rewrite resolve_child by done. by rewrite fs_lookup_snoc, Hout.
      - rewrite resolve_child by done.
        by rewrite (fs_put_child _ (Some (Dir [])) _ _ _ Hcs Hout). }
  rewrite finish_abind.
  match goal with |- context [finish (for_of _ _) ?s] =>
    replace s with st1
  end.
  2:{ unfold st1, logged. cbn [heap this_outdir this_folders fs trace].
      f_equal. rewrite <- app_assoc. simpl. by rewrite !app_assoc_s. }
  rewrite E. unfold flat in Hflat.
  destruct (folders folder) as [fs|]; simpl in Hflat; [subst fs|]; simpl;
    f_equal; lia.
Qed.

Lemma call_Do_Ok {B : Type} (m : M B) (k : B -> async unit) st b st' :
  m st = (Ok b, st') -> call (Do m k) st = call (k b) st'.
Proof. intros H. unfold call. by rewrite (turn_Do_Ok m k st [] b st' H). Qed.

(** The loop of [transform] is reached from an empty output directory. *)
Lemma transform_reaches_loop n env st r1 :
  match fs_lookup (resolve (outdir_path env st)) (fs st) with
  | Some (Dir old) => entry_names old = true /\ outdir_path env st <> meta_dir env
  | Some (File _) => False
  | None => vacant (fs st) (outdir_path env st)
  end ->
  fs_put (resolve (outdir_path env st)) (Some (Dir [])) (fs st) = Some r1 ->
  exists tr1,
    call (transform n env) st
    = call (for_of (this_folders st) (fun folder => Await (transformFolder n env folder)))
        (mkState (heap st) (this_outdir st) (this_folders st) r1 tr1).
Proof.
  intros Hold Hr1.
  assert (exists tr1,
    call (transform n env) st
    = call (transform_loop n env)
        (mkState (heap st) (this_outdir st) (this_folders st) r1 tr1)) as [tr1 ->].
  { unfold call.
    destruct (fs_lookup (resolve (outdir_path env st)) (fs st)) as [[c|old]|] eqn:E;
      [done| |].
    - destruct Hold as [Hold Hmeta].
      assert (resolve (outdir_path env st) <> []) as Hroot.
      { intros H0. rewrite H0 in Hr1. discriminate. }
      destruct (transform_turn_present n env st old [] Hmeta Hroot E Hold)
        as (r' & Hr' & ->).
      assert (r' = r1) as -> by congruence. eauto.
    - rewrite (transform_turn_absent n env st r1 [] Hold Hr1). eauto. }
  exists tr1. unfold transform_loop.
  by rewrite (call_Do_Ok (get this_folders) _ _ _ _ eq_refl).
Qed.

Lemma run_flat_folder n env st folder es out_es r sched :
  this_folders st = [folder] ->
  flat folder ->
  plain_name (base_path folder) ->
  outdir_ready env st ->
  apart (resolve (outdir_path env st)) (resolve (meta_dir env +:+ "/" +:+ base_path folder)) ->
  fs_lookup (resolve (meta_dir env +:+ "/" +:+ base_path folder)) (fs st) = Some (Dir es) ->
  NoDup (List.map fst es) -> entry_names es = true ->
  outputs (transformSync env) folder es [] = Some out_es ->
  fs_put (resolve (outdir_path env st)) (Some (Dir [(base_path folder, Dir out_es)])) (fs st)
  = Some r ->
  2 * length (kept_files folder (List.map fst es)) + 1 <= length sched ->
  exists st',
    run sched (call (transform (S n) env) st) = mkLoop st' [] (Some (Ok tt))
    /\ fs st' = r /\ this_folders st' = [folder] /\ this_outdir st' = this_outdir st.
Proof.
  intros Hreg Hflat [Hbp Hdot] Hold Hapart Hsrc Hnd Hnames Hres Hr Hlen.
  destruct (fs_put_content _ (Dir []) _ _ _ Hr) as [r1 Hr1].
  destruct (transform_reaches_loop (S n) env st r1) as [tr1 E1]; [|done|].
  { pose proof (apart_not_meta _ _ _ Hapart). unfold outdir_ready in Hold.
    by destruct (fs_lookup (resolve (outdir_path env st)) (fs st)) as [[c|old]|]. }
  rewrite E1. clear E1.
  set (st1 := mkState (heap st) (this_outdir st) (this_folders st) r1 tr1).
  rewrite Hreg. cbn [for_of].
  destruct (transformFolder_flat_finish n env folder es out_es st1)
    as (st2 & E & Hfs & _ & Ho2 & Hf2); try done.
  { change (fs st1) with r1.
    rewrite <- (app_nil_r (resolve (meta_dir env +:+ "/" +:+ base_path folder))).
    rewrite (apart_lookup _ _ _ _ _ [] Hapart Hr1). by rewrite app_nil_r. }
  { change (fs st1) with r1. by apply (fs_lookup_put _ _ _ _ Hr1). }
  exists st2.
  rewrite (run_finish _ st1 sched (Ok tt) st2
             (S (2 * length (kept_files folder (List.map fst es))))).
  - change (fs st1) with r1 in Hfs.
    change (outdir_path env st1) with (outdir_path env st) in Hfs.
    rewrite (fs_put_put _ _ _ _ _ Hr1) in Hfs.
    repeat split; [congruence | by rewrite Hf2 | by rewrite Ho2].
  - apply fireless_calm. apply fireless_abind; [|done]. apply fireless_Await.
    by apply transformFolder_fireless.
  - rewrite finish_abind, finish_Await, E. simpl. f_equal. lia.
  - lia.
Qed.



(** ** Files of the compatible dialect *)

Lemma walk_absent_parent root : forall cs here q,
  walk root here cs = Absent q ->
  exists pre c es, q = pre ++ [c] /\ fs_lookup pre root = Some (Dir es).
Proof.
  induction cs as [|c cs IH]; intros here q H; simpl in H; [done|].
  destruct (fs_lookup here root) as [[x|es]|] eqn:E; [done| |done].
  destruct (assoc c es) as [m|]; [by eapply IH|].
  destruct (is_dot c); [by eapply IH|].
  destruct (is_dotdot c); [by eapply IH|].
  destruct cs; [|done]. invc H. eauto.
Qed.

Lemma fs_put_new new c : forall pre root es,
  fs_lookup pre root = Some (Dir es) -> is_Some (fs_put (pre ++ [c]) new root).
Proof.
  induction pre as [|x pre IH]; intros root es H.
  - simpl in H. invc H. simpl. eauto.
  - destruct root as [y|es0]; [done|]. simpl in H.
    destruct (assoc x es0) as [m|] eqn:Hx; [|done].
    change ((x :: pre) ++ [c]) with (x :: (pre ++ [c])).
    rewrite fs_put_cons by (by destruct pre). rewrite Hx.
    destruct (IH m es H) as [m' ->]. eauto.
Qed.

(** An output root that is ready can be given any content. *)
Lemma outdir_ready_put env st new :
  outdir_ready env st -> resolve (outdir_path env st) <> [] ->
  is_Some (fs_put (resolve (outdir_path env st)) new (fs st)).
Proof.
  unfold outdir_ready. intros H Hne.
  destruct (fs_lookup (resolve (outdir_path env st)) (fs st)) as [[c|old]|] eqn:E; [done| |].
  - apply fs_put_Some; [done | eauto].
  - destruct (walk_absent_parent _ _ _ _ H) as (pre & c & es & -> & Hpre).
    by apply (fs_put_new _ _ _ _ es).
Qed.

(** The listing [outputs] keeps the entries that no kept file is written
    to. *)
Lemma outputs_keep T folder k : forall es acc out_es,
  outputs T folder es acc = Some out_es ->
  (forall h, h ∈ kept_files folder (List.map fst es) -> out_name h <> k) ->
  assoc k out_es = assoc k acc.
Proof.
  induction es as [|[g nd] es IH]; intros acc out_es H Hk; simpl in H.
  - by invc H.
  - unfold kept_files in *. cbn [List.map fst List.filter] in Hk.
    destruct (keeps folder g) eqn:Hg.
    + destruct nd as [text|]; [|done]. destruct (T text) as [code|]; [|done].
      rewrite (IH _ _ H).
      * apply assoc_entry_set_ne. apply Hk, list_elem_of_here.
      * intros h Hh. by apply Hk, list_elem_of_further.
    + by apply (IH acc).
Qed.

(** The output of a kept file that is alone in having its output name. *)
Lemma outputs_holds T folder f text : forall es acc out_es,
  outputs T folder es acc = Some out_es ->
  (f, File text) ∈ es -> keeps folder f = true ->
  NoDup (List.map fst es) ->
  (forall g, g ∈ kept_files folder (List.map fst es) -> out_name g = out_name f -> g = f) ->
  exists code, T text = Some code /\ assoc (out_name f) out_es = Some (File code).
Proof.
  induction es as [|[g nd] es IH]; intros acc out_es H Hin Hkeep Hnd Huniq;
    [by apply elem_of_nil in Hin|].
  simpl in Hnd. apply NoDup_cons in Hnd as [Hg Hnd].
  unfold kept_files in *. cbn [List.map fst List.filter] in Huniq. simpl in H.
  apply elem_of_cons in Hin as [[= <- <-]|Hin].
  - rewrite Hkeep in H, Huniq. destruct (T text) as [code|] eqn:HT; [|done].
    exists code. split; [done|].
    rewrite (outputs_keep _ _ (out_name f) _ _ _ H); [apply assoc_entry_set|].
    intros h Hh E. assert (h = f) as -> by (by apply Huniq; [apply list_elem_of_further|]).
    destruct Hg. apply list_elem_of_In in Hh. apply filter_In in Hh as [Hh _].
    by apply list_elem_of_In.
  - assert (forall h, h ∈ List.filter (keeps folder) (List.map fst es) ->
              out_name h = out_name f -> h = f) as Huniq'.
    { intros h Hh. apply Huniq. destruct (keeps folder g); [|done].
      by apply list_elem_of_further. }
    destruct (keeps folder g).
    + destruct nd as [t|]; [|done]. destruct (T t) as [code|]; [|done].
      by apply (IH _ _ H).
    + by apply (IH _ _ H).
Qed.



(** ** Failures during a traversal *)

Lemma finish_for_of_app {A} (body : A -> async unit) ys : forall xs st,
  finish (for_of (xs ++ ys) body) st
  = match finish (for_of xs body) st with
    | (Ok _, st', n) => let '(r, st2, m) := finish (for_of ys body) st' in (r, st2, n + m)
    | (Throw e, st', n) => (Throw e, st', n)
    | (Stuck, st', n) => (Stuck, st', n)
    end.
Proof.
  induction xs as [|x xs IH]; intros st; cbn [app for_of].
  - cbn [finish]. by destruct (finish (for_of ys body) st) as [[r st2] m].
  - rewrite !finish_abind. destruct (finish (body x) st) as [[[[]|e|] st1] n]; try done.
    rewrite IH. destruct (finish (for_of xs body) st1) as [[[[]|e|] st2] n']; try done.
    destruct (finish (for_of ys body) st2) as [[r st3] m]. by rewrite Nat.add_assoc.
Qed.

(** The first statements of [transformFolder] on a folder whose output
    folder is to be made in an empty output directory. *)
Lemma transformFolder_opens n env folder es st :
  entry_name (base_path folder) = true -> dotless (base_path folder) ->
  resolve (outdir_path env st) <> [] ->
  fs_lookup (resolve (meta_dir env +:+ "/" +:+ base_path folder)) (fs st) = Some (Dir es) ->
  fs_lookup (resolve (outdir_path env st)) (fs st) = Some (Dir []) ->
  exists st1,
    fs_put (resolve (outdir_path env st)) (Some (Dir [(base_path folder, Dir [])])) (fs st)
    = Some (fs st1)
    /\ heap st1 = heap st /\ this_outdir st1 = this_outdir st
    /\ this_folders st1 = this_folders st
    /\ finish (transformFolder (S n) env folder) st
       = finish (abind (for_of (kept_files folder (List.map fst es)) (convert_one env folder))
                   (fun _ =>
                      match folders folder with
                      | Some fs =>
                          forEach_async fs (fun f => Do (deref f) (transformFolder n env))
                      | None => Return tt
                      end)) st1.
Proof.
  intros Hbp Hdot Hcs Hsrc Hout.
  unfold outdir_path in *. rewrite outdir_text_of in *.
  destruct (fs_put_Some (Some (Dir [(base_path folder, Dir [])])) _ (fs st) Hcs)
    as [r2 Hr2]; [eauto|].
  eexists (mkState (heap st) (this_outdir st) (this_folders st) r2 _).
  split; [exact Hr2|]. split; [done|]. split; [done|]. split; [done|].
  rewrite transformFolder_eq.
  erewrite finish_Do_Ok by (by apply readdirSync_found).
  erewrite finish_Do_Ok; [reflexivity|].
  unfold bindM at 1, get at 1.
  change (outdir_text (logged _ st)) with (outdir_text st). rewrite outdir_text_of.
  replace (cwd env +:+ "/" +:+ text_of (this_outdir st) +:+ "/" +:+ base_path folder)
    with ((cwd env +:+ "/" +:+ text_of (this_outdir st)) +:+ "/" +:+ base_path folder)
    by (by rewrite !app_assoc_s).
  erewrite (mkdirSync_absent _ (logged [EvReaddir _] st) r2
              (resolve (cwd env +:+ "/" +:+ text_of (this_outdir st))) (base_path folder));
    cbn [fs logged]; [reflexivity | by apply resolve_child | done | |].
  - rewrite resolve_child by done. by rewrite fs_lookup_snoc, Hout.
  - rewrite resolve_child by done.
    by rewrite (fs_put_child _ (Some (Dir [])) _ _ _ Hcs Hout).
Qed.

Lemma transformFile_fails env p st nd :
  fs_lookup (resolve p) (fs st) = Some nd ->
  match nd with
  | File text => transformSync env text = None
  | Dir _ => True
  end ->
  exists msg st', transformFile env p st = (Throw msg, st') /\ fs st' = fs st
                  /\ this_folders st' = this_folders st.
Proof.
  intros Hl Hnd. unfold transformFile, readFileSync, bindM, emit, get. cbn [fs].
  rewrite (walk_literal _ _ _ Hl), Hl. destruct nd as [text|sub].
  - unfold ret. cbv beta iota. rewrite Hnd. by eexists _, _.
  - by eexists _, _.
Qed.

(** X24: A kept entry that cannot be converted stops the run.  Let the first
    registered folder be without sub-folders, under a name of one path
    component, and let a kept entry of its source folder be a directory (the
    filter looks at names only) or a file whose text the transpiler rejects,
    the kept entries before it being convertible files.  Then the promise of
    [transform] is rejected; the files before the failing entry have been
    written and stay, no later file of the folder is written, and no later
    registered folder is visited. *)
Theorem failing_entry_stops_the_run n env st folder others es1 f nd es2 acc r sched :
  this_folders st = folder :: others ->
  flat folder ->
  plain_name (base_path folder) ->
  outdir_ready env st ->
  apart (resolve (outdir_path env st)) (resolve (meta_dir env +:+ "/" +:+ base_path folder)) ->
  fs_lookup (resolve (meta_dir env +:+ "/" +:+ base_path folder)) (fs st)
  = Some (Dir (es1 ++ (f, nd) :: es2)) ->
  NoDup (List.map fst (es1 ++ (f, nd) :: es2)) ->
  entry_names es1 = true -> entry_name f = true ->
  outputs (transformSync env) folder es1 [] = Some acc ->
  keeps folder f = true ->
  match nd with
  | File text => transformSync env text = None
  | Dir _ => True
  end ->
  fs_put (resolve (outdir_path env st)) (Some (Dir [(base_path folder, Dir acc)])) (fs st)
  = Some r ->
  2 * length (kept_files folder (List.map fst es1)) <= length sched ->
  let l := run sched (call (transform (S n) env) st) in
  (exists msg, settled l = Some (Throw msg)) /\ pool l = [] /\ fs (now l) = r.
Proof.
  intros Hreg Hflat [Hbp Hdot] Hold Hapart Hsrc Hnd Hnames Hf Hacc Hkeep Hbad Hr Hlen l.
  subst l.
  destruct (fs_put_content _ (Dir []) _ _ _ Hr) as [r1 Hr1].
  destruct (transform_reaches_loop (S n) env st r1) as [tr1 ->]; [|done|].
  { pose proof (apart_not_meta _ _ _ Hapart). unfold outdir_ready in Hold.
    by destruct (fs_lookup (resolve (outdir_path env st)) (fs st)) as [[c|old]|]. }
  set (st1 := mkState (heap st) (this_outdir st) (this_folders st) r1 tr1).
  assert (fs_lookup (resolve (meta_dir env +:+ "/" +:+ base_path folder)) r1
          = Some (Dir (es1 ++ (f, nd) :: es2))) as Hsrc1.
  { rewrite <- (app_nil_r (resolve (meta_dir env +:+ "/" +:+ base_path folder))).
    rewrite (apart_lookup _ _ _ _ _ [] Hapart Hr1). by rewrite app_nil_r. }
  destruct (transformFolder_opens n env folder _ st1 Hbp Hdot (apart_nonempty _ _ Hapart)
              Hsrc1) as (st2 & Hfs2 & Hh2 & Ho2 & Hf2 & E2).
  { change (fs st1) with r1. by apply (fs_lookup_put _ _ _ _ Hr1). }
  change (outdir_path env st1) with (outdir_path env st) in *.
  unfold outdir_path in *. rewrite outdir_text_of in *.
  change (this_outdir st1) with (this_outdir st) in Ho2.
  destruct (convert_all env folder (this_outdir st) (es1 ++ (f, nd) :: es2) r1 Hbp Hapart
              Hsrc1 Hnd es1 [] st2 acc) as (st3 & E3 & Hinv3 & Hh3 & Ho3 & Hf3); try done.
  { intros e He. apply elem_of_app. by left. }
  assert (exists msg st4,
    finish (transformFolder (S n) env folder) st1
    = (Throw msg, st4, 2 * length (kept_files folder (List.map fst es1)))
    /\ fs st4 = fs st3) as (msg & st4 & E4 & Hfs4).
  { destruct (transformFile_fails env
                (meta_dir env +:+ "/" +:+ base_path folder +:+ "/" +:+ f) st3 nd)
      as (msg & st4 & E & Hfs & _); [|done|].
    { replace (meta_dir env +:+ "/" +:+ base_path folder +:+ "/" +:+ f)
        with ((meta_dir env +:+ "/" +:+ base_path folder) +:+ "/" +:+ f)
        by (by rewrite !app_assoc_s).
      rewrite resolve_child by done.
      rewrite (apart_lookup _ _ _ _ _ [f] Hapart Hinv3).
      rewrite fs_lookup_app, Hsrc1. simpl.
      rewrite (assoc_NoDup f nd); [done|done|].
      apply elem_of_app. right. apply list_elem_of_here. }
    exists msg, st4. split; [|done]. rewrite E2, finish_abind.
    unfold kept_files. rewrite map_app, List.filter_app. cbn [List.map fst List.filter].
    rewrite Hkeep. rewrite finish_for_of_app. unfold kept_files in E3. rewrite E3.
    cbn [for_of]. rewrite finish_abind. unfold convert_one at 1. cbv zeta.
    rewrite (finish_Do_Throw _ _ _ _ _ E). by rewrite Nat.add_0_r. }
  rewrite (run_finish _ st1 sched (Throw msg) st4
             (2 * length (kept_files folder (List.map fst es1)))).
  - cbn [settled pool now]. split; [eauto|]. split; [done|].
    rewrite Hfs4. rewrite (fs_put_put _ _ _ _ _ Hr1) in Hinv3. congruence.
  - change (this_folders st1) with (this_folders st). rewrite Hreg. cbn [for_of].
    apply calm_abind.
    + apply fireless_calm, fireless_Await. by apply transformFolder_fireless.
    + intros a st' k. rewrite finish_Await, E4. discriminate.
  - change (this_folders st1) with (this_folders st). rewrite Hreg. cbn [for_of].
    by rewrite finish_abind, finish_Await, E4.
  - done.
Qed.

Lemma failing_entry_stops_the_run_witness :
  let folder := literal "api" (Some ["util.ts"]) None in
  let es := [("a.ts", File "1"); ("lib.js", Dir []); ("z.ts", File "z")] in
  let st := mkState ∅ (Some "dist") [folder; literal "d" None None]
              (outdir_fs [("api", Dir es); ("d", Dir [])] []) [] in
  let l := run [0; 0] (call (transform 1 sample_env) st) in
  (exists msg, settled l = Some (Throw msg)) /\ pool l = []
  /\ fs (now l) = outdir_fs [("api", Dir es); ("d", Dir [])]
                    [("api", Dir [("a.js", File "/*1*/")])].
Proof.
  apply (failing_entry_stops_the_run 0 sample_env
           (mkState ∅ (Some "dist")
              [literal "api" (Some ["util.ts"]) None; literal "d" None None]
              (outdir_fs [("api", Dir [("a.ts", File "1"); ("lib.js", Dir []);
                                       ("z.ts", File "z")]); ("d", Dir [])] []) [])
           (literal "api" (Some ["util.ts"]) None) [literal "d" None None]
           [("a.ts", File "1")] "lib.js" (Dir []) [("z.ts", File "z")]
           [("a.js", File "/*1*/")]).
  - reflexivity.
  - reflexivity.
  - by split.
  - reflexivity.
  - exists [], "work", ["dist"], "src", ["api"]. repeat split. discriminate.
  - reflexivity.
  - apply (bool_decide_unpack _). vm_compute. exact I.
  - reflexivity.
  - reflexivity.
  - reflexivity.
  - reflexivity.
  - exact I.
  - reflexivity.
  - simpl. lia.
Defined.



(** ** A missing sub-folder, and a second run *)

(** Stamping a descriptor without children. *)
Lemma addParentPath_leaf n p c o st :
  heap st !! c = Some o -> folders o = None ->
  addParentPath (S n) p c st
  = (Ok c, mkState (alter (set_path p) c (heap st)) (this_outdir st) (this_folders st)
             (fs st) (trace st)).
Proof.
  intros Hc Hf. simpl. unfold bindM at 1, deref at 1. rewrite Hc, Hf.
  unfold bindM at 1. unfold bindM at 1, ret at 1. by rewrite update_eq.
Qed.

Lemma stamp_leaf n p c o st :
  heap st !! c = Some o -> folders o = None ->
  stamp_all (S n) p (Some [c]) st
  = (Ok (Some [c]),
     mkState (alter (set_path p) c (heap st)) (this_outdir st) (this_folders st)
       (fs st) (trace st)).
Proof.
  intros Hc Hf. unfold stamp_all. cbn [array_map]. unfold bindM.
  by rewrite (addParentPath_leaf _ _ _ _ _ Hc Hf).
Qed.

Lemma validate_stamped_leaf n env nm c o st :
  nm <> "" -> registered (name o) st = None ->
  heap st !! c = Some (set_path nm o) ->
  locate (fs st) (meta_dir env +:+ "/" +:+ nm +:+ "/" +:+ name o) = Nothing ->
  forEach (fun f => let* o := deref f in validateFolder (S n) env o >> ret tt) [c] st
  = (Throw (missing_message true (nm +:+ "/" +:+ name o) (meta_dir env)),
     logged [EvLstat (meta_dir env +:+ "/" +:+ nm +:+ "/" +:+ name o)] st).
Proof.
  intros Hnm Hnew Hc Hsub. cbn [forEach]. unfold bindM at 1, bindM at 1, deref at 1.
  rewrite Hc. unfold bindM at 1. rewrite validateFolder_unfold.
  unfold bindM at 1, get at 1. unfold registered in Hnew.
  change (name (set_path nm o)) with (name o). rewrite Hnew. cbv zeta.
  rewrite (base_path_stamped nm o Hnm).
  unfold bindM at 1. rewrite checkFile_eq. by rewrite Hsub.
Qed.

Lemma addFolder_missing_sub_folder_eq n env nm ex c o st :
  nm <> "" ->
  registered nm st = None -> registered (name o) st = None ->
  heap st !! c = Some o -> folders o = None ->
  names_directory (fs st) (meta_dir env +:+ "/" +:+ nm) ->
  Forall (fun f => names_file (fs st) (meta_dir env +:+ "/" +:+ nm +:+ "/" +:+ f))
         (default [] ex) ->
  locate (fs st) (meta_dir env +:+ "/" +:+ nm +:+ "/" +:+ name o) = Nothing ->
  exists evs,
    addFolder (S (S n)) env nm ex (Some [c]) st
    = (Throw (missing_message true (nm +:+ "/" +:+ name o) (meta_dir env)),
       mkState (alter (set_path nm) c (heap st)) (this_outdir st) (this_folders st)
         (fs st) (trace st ++ evs)).
Proof.
  intros Hnm Hnew Hnewc Hc Hfo Hdir Hex Hsub.
  rewrite addFolder_unfold. unfold bindM at 1.
  rewrite (stamp_leaf _ _ _ _ _ Hc Hfo).
  unfold bindM at 1. rewrite validateFolder_unfold. unfold bindM at 1, get at 1.
  unfold registered in Hnew.
  change (name (literal nm ex (Some [c]))) with nm.
  cbn [this_folders]. rewrite Hnew. cbv zeta.
  change (base_path (literal nm ex (Some [c]))) with nm.
  unfold bindM at 1. rewrite (checkFile_names_directory env nm) by exact Hdir.
  unfold bindM at 1.
  change (exclude (literal nm ex (Some [c]))) with (Some (default [] ex)).
  cbv iota. rewrite forEach_files by exact Hex. rewrite logged_app.
  unfold bindM at 1.
  change (folders (literal nm ex (Some [c]))) with (Some [c]). cbv iota.
  erewrite (validate_stamped_leaf n env nm c o); try done.
  - unfold logged. cbn [heap this_outdir this_folders fs trace].
    rewrite <- app_assoc. eauto.
  - cbn [heap logged]. by rewrite lookup_alter_eq, Hc.
Qed.



(** X27: Running [transform] again gives the same output.  Under the conditions
    of a folder without sub-folders whose kept entries all convert - its
    name one path component, the output root an existing directory or
    missing from one, on a path that parts from that of the source folder -
    a second run of [transform], started after the first has ended, fulfils
    its promise and leaves the filesystem exactly as the first run left
    it. *)
Theorem transform_again_same_output n env st folder es out_es r sched1 sched2 :
  this_folders st = [folder] ->
  flat folder ->
  plain_name (base_path folder) ->
  outdir_ready env st ->
  apart (resolve (outdir_path env st)) (resolve (meta_dir env +:+ "/" +:+ base_path folder)) ->
  fs_lookup (resolve (meta_dir env +:+ "/" +:+ base_path folder)) (fs st) = Some (Dir es) ->
  NoDup (List.map fst es) -> entry_names es = true ->
  outputs (transformSync env) folder es [] = Some out_es ->
  fs_put (resolve (outdir_path env st)) (Some (Dir [(base_path folder, Dir out_es)])) (fs st)
  = Some r ->
  2 * length (kept_files folder (List.map fst es)) + 1 <= length sched1 ->
  2 * length (kept_files folder (List.map fst es)) + 1 <= length sched2 ->
  let l1 := run sched1 (call (transform (S n) env) st) in
  let l2 := run sched2 (call (transform (S n) env) (now l1)) in
  settled l2 = Some (Ok tt) /\ pool l2 = [] /\ fs (now l2) = fs (now l1)
  /\ fs (now l1) = r.
Proof.
  intros Hreg Hflat Hbp Hold Hapart Hsrc Hnd Hnames Hres Hr Hlen1 Hlen2 l1 l2.
  destruct (run_flat_folder n env st folder es out_es r sched1)
    as (st1 & E1 & Hfs1 & Hf1 & Ho1); try done.
  assert (now l1 = st1) as Hnow by (subst l1; by rewrite E1).
  assert (outdir_path env st1 = outdir_path env st) as Hpath.
  { unfold outdir_path. by rewrite !outdir_text_of, Ho1. }
  destruct (run_flat_folder n env st1 folder es out_es r sched2)
    as (st2 & E2 & Hfs2 & Hf2 & Ho2); try done.
  - unfold outdir_ready. rewrite Hpath, Hfs1, (fs_lookup_put _ _ _ _ Hr).
    assert (entry_names [(base_path folder, Dir out_es)] = true) as Hout; [|exact Hout].
    unfold entry_names. cbn [forallb fst]. destruct Hbp as [Hbp _]. by rewrite Hbp.
  - by rewrite Hpath.
  - rewrite Hfs1.
    rewrite <- (app_nil_r (resolve (meta_dir env +:+ "/" +:+ base_path folder))).
    rewrite (apart_lookup _ _ _ _ _ [] Hapart Hr). by rewrite app_nil_r.
  - rewrite Hpath, Hfs1. by rewrite (fs_put_put _ _ _ _ _ Hr).
  - subst l2. rewrite Hnow, E2. cbn [settled pool now].
    repeat split; congruence.
Qed.

Lemma transform_again_same_output_witness :
  let folder := literal "api" (Some ["util.ts"]) None in
  let es := [("a.ts", File "1"); ("notes.md", File "n"); ("b.ts", File "2");
             ("util.ts", File "u")] in
  let st := mkState ∅ (Some "dist") [folder] (outdir_fs [("api", Dir es)] [("old", Dir [])])
              [] in
  let l1 := run [0; 0; 0; 0; 0] (call (transform 1 sample_env) st) in
  let l2 := run [0; 0; 0; 0; 0; 0] (call (transform 1 sample_env) (now l1)) in
  settled l2 = Some (Ok tt) /\ pool l2 = [] /\ fs (now l2) = fs (now l1)
  /\ fs (now l1)
     = outdir_fs [("api", Dir es)]
         [("api", Dir [("a.js", File "/*1*/"); ("b.js", File "/*2*/")])].
Proof.
  apply (transform_again_same_output 0 sample_env
           (mkState ∅ (Some "dist") [literal "api" (Some ["util.ts"]) None]
              (outdir_fs [("api", Dir [("a.ts", File "1"); ("notes.md", File "n");
                                       ("b.ts", File "2"); ("util.ts", File "u")])]
                         [("old", Dir [])]) [])
           (literal "api" (Some ["util.ts"]) None)
           [("a.ts", File "1"); ("notes.md", File "n"); ("b.ts", File "2");
            ("util.ts", File "u")]
           [("a.js", File "/*1*/"); ("b.js", File "/*2*/")]).
  - reflexivity.
  - reflexivity.
  - by split.
  - reflexivity.
  - exists [], "work", ["dist"], "src", ["api"]. repeat split. discriminate.
  - reflexivity.
  - apply (bool_decide_unpack _). vm_compute. exact I.
  - reflexivity.
  - reflexivity.
  - reflexivity.
  - simpl. lia.
  - simpl. lia.
Defined.
